(** * Grand River Digital: the contact-form controller of [script.js]

    A shallow embedding of [initContactForm] (script.js, lines 152-248) and
    of the browser objects it touches, followed by the properties of the
    form's validation and submission flow.

    Conventions.
    - A JavaScript string is its sequence of UTF-16 code units, [list N].
      Names that the script only ever writes as ASCII literals (attribute
      names, class tokens, the [type] keyword of a control) are Rocq
      [string]s.
    - A DOM element is a record; the elements of the form live in one store
      (the [State]) and the closures of the script refer to them by their
      position in document order, so that two references to one element see
      the same writes.
    - What the script hands to the platform (a fetch, an alert, a timer, a
      focus change, a scroll) is recorded in the state. *)

From Stdlib Require Import ZArith NArith Lia Ascii String.
From Stdlib Require Import PrimFloat.
From stdpp Require Import base gmap sets list strings.

Set Warnings "-register-all".

Local Open Scope N_scope.

(** ** JavaScript strings *)

Module JsString.

(** The code units of an ASCII literal. *)
Definition lit (s : string) : list N :=
  N_of_ascii <$> list_ascii_of_string s.

(** ECMAScript's WhiteSpace and LineTerminator code points, the ones
    [String.prototype.trim] strips: TAB, LF, VT, FF, CR, SP, NBSP, the
    Unicode space separators, LS, PS and the byte-order mark. *)
Definition isWhiteSpace (c : N) : bool :=
  (9 <=? c) && (c <=? 13)
  || (c =? 32) || (c =? 160) || (c =? 5760)
  || (8192 <=? c) && (c <=? 8202)
  || (c =? 8232) || (c =? 8233) || (c =? 8239) || (c =? 8287)
  || (c =? 12288) || (c =? 65279).

Fixpoint trimStart (s : list N) : list N :=
  match s with
  | c :: s' => if isWhiteSpace c then trimStart s' else s
  | [] => []
  end.

Definition trimEnd (s : list N) : list N := rev (trimStart (rev s)).

(** [s.trim()] *)
Definition trim (s : list N) : list N := trimEnd (trimStart s).

Fixpoint startsWith (needle s : list N) : bool :=
  match needle, s with
  | [], _ => true
  | n :: needle', c :: s' => (n =? c) && startsWith needle' s'
  | _ :: _, [] => false
  end.

(** [s.includes(needle)]: [needle] occurs in [s] as a substring. *)
Fixpoint includes (needle s : list N) : bool :=
  startsWith needle s ||
  match s with
  | [] => false
  | _ :: s' => includes needle s'
  end.

(** ToBoolean on a string: only the empty string is falsy. *)
Definition truthy (s : list N) : bool :=
  match s with [] => false | _ :: _ => true end.

(** U+0040, the at sign. *)
Definition at_sign : N := 64.

End JsString.
Import JsString.

(** ** Form controls *)

(** An element of the form that carries a value (input, select, textarea).
    [type] is the element's [type] property, [value] its current value,
    [defaultValue] the value [form.reset()] gives back to it; [classList]
    is the token set of its [class] and [attributes] its other content
    attributes ([id], [required], [aria-invalid], ...). [focusable] says
    whether the platform lets the control take the focus: it does not when
    the control is disabled, hidden or otherwise not rendered, or inert.
    The script neither reads nor writes it. *)
Record Field := mkField {
  type : string;
  value : list N;
  defaultValue : list N;
  classList : gset string;
  attributes : gmap string string;
  focusable : bool;
}.

Definition set_value (v : list N) (f : Field) : Field :=
  mkField (type f) v (defaultValue f) (classList f) (attributes f) (focusable f).

(** [field.classList.add(tok)] *)
Definition classList_add (tok : string) (f : Field) : Field :=
  mkField (type f) (value f) (defaultValue f) ({[tok]} ∪ classList f) (attributes f)
    (focusable f).

(** [field.classList.remove(tok)] *)
Definition classList_remove (tok : string) (f : Field) : Field :=
  mkField (type f) (value f) (defaultValue f) (classList f ∖ {[tok]}) (attributes f)
    (focusable f).

(** [field.classList.contains(tok)] *)
Definition classList_contains (tok : string) (f : Field) : bool :=
  bool_decide (tok ∈ classList f).

(** [field.setAttribute(k, v)] *)
Definition setAttribute (k v : string) (f : Field) : Field :=
  mkField (type f) (value f) (defaultValue f) (classList f) (<[k := v]> (attributes f))
    (focusable f).

(** [field.removeAttribute(k)] *)
Definition removeAttribute (k : string) (f : Field) : Field :=
  mkField (type f) (value f) (defaultValue f) (classList f) (delete k (attributes f))
    (focusable f).

(** The selector [[required]]: the attribute is present, whatever its value. *)
Definition has_required (f : Field) : bool :=
  bool_decide (is_Some (attributes f !! "required"%string)).

(** The selector [#ident]. *)
Definition has_id (ident : string) (f : Field) : bool :=
  bool_decide (attributes f !! "id"%string = Some ident).

(** script.js, lines 170-173. *)
Definition clearError (field : Field) : Field :=
  removeAttribute "aria-invalid" (classList_remove "is-error" field).

(** script.js, lines 175-185: the verdict and the field as the call leaves it. *)
Definition validateField (field : Field) : bool * Field :=
  let empty := negb (truthy (trim (value field))) in
  let badEmail :=
    String.eqb (type field) "email" && truthy (value field)
    && negb (includes [at_sign] (value field)) in
  if empty || badEmail
  then (false, setAttribute "aria-invalid" "true" (classList_add "is-error" field))
  else (true, clearError field).

(** The two marks [validateField] puts on a field it rejects. *)
Definition error_indicator (f : Field) : Prop := "is-error"%string ∈ classList f.
Definition aria_invalid (f : Field) : Prop :=
  attributes f !! "aria-invalid"%string = Some "true"%string.
Definition unmarked (f : Field) : Prop :=
  ("is-error"%string ∉ classList f) ∧ attributes f !! "aria-invalid"%string = None.

(** What [validateField] rejects, in words of the value alone. *)
Definition invalid (f : Field) : Prop :=
  trim (value f) = [] ∨
  (type f = "email"%string ∧ value f ≠ [] ∧ at_sign ∉ value f).

(** ** The submit control *)

(** A DOM node as far as the submit control's label needs it. *)
Inductive Node :=
| TextNode (data : list N)
| ElementNode (tag : string) (children : list Node).

(** [n.cloneNode(true)]: a deep copy. *)
Fixpoint cloneNode (n : Node) : Node :=
  match n with
  | TextNode data => TextNode data
  | ElementNode tag children => ElementNode tag (map cloneNode children)
  end.

Record Button := mkButton {
  disabled : bool;
  childNodes : list Node;
}.

(** ** JSON values and what the script reads from them *)

Inductive Json :=
| JNull
| JBool (b : bool)
| JNumber (x : float)
| JString (s : list N)
| JArray (items : list Json)
| JObject (props : list (list N * Json)).

(** How an expression ends: with a value, or by throwing. *)
Inductive Completion (A : Type) :=
| Normal (a : A)
| Throw.
Arguments Normal {A} a.
Arguments Throw {A}.

(** The own property [k] of a parsed object, [None] for [undefined]. *)
Fixpoint own_property (k : list N) (props : list (list N * Json)) : option Json :=
  match props with
  | [] => None
  | (k', v) :: rest => if decide (k' = k) then Some v else own_property k rest
  end.

(** [data.ok]: reading a property of [null] throws a TypeError; booleans,
    numbers, strings and arrays have no property of that name; an object
    answers with its own. [None] stands for [undefined]. *)
Definition get_ok (data : Json) : Completion (option Json) :=
  match data with
  | JNull => Throw
  | JObject props => Normal (own_property (lit "ok") props)
  | _ => Normal None
  end.

(** ToBoolean, as [if (data.ok)] applies it. *)
Definition toBoolean (v : option Json) : bool :=
  match v with
  | None => false
  | Some JNull => false
  | Some (JBool b) => b
  | Some (JNumber x) => negb (PrimFloat.eqb x 0%float || PrimFloat.is_nan x)
  | Some (JString s) => truthy s
  | Some (JArray _) => true
  | Some (JObject _) => true
  end.

(** ** [new Date().toISOString()] *)

Module JsDate.
Local Open Scope Z_scope.

Definition digit (n : Z) : N := (48 + Z.to_N (n mod 10))%N.
Definition pad2 (n : Z) : list N := [digit (n / 10); digit n].
Definition pad3 (n : Z) : list N := digit (n / 100) :: pad2 n.
Definition pad4 (n : Z) : list N := digit (n / 1000) :: pad3 n.
Definition pad6 (n : Z) : list N :=
  digit (n / 100000) :: digit (n / 10000) :: pad4 n.

Definition msPerDay : Z := 86400000.

(** Year, month and day of the proleptic Gregorian calendar, from the
    number of days since 1970-01-01. *)
Definition civil (days : Z) : Z * Z * Z :=
  let z := days + 719468 in
  let era := z / 146097 in
  let doe := z mod 146097 in
  let yoe := (doe - doe / 1460 + doe / 36524 - doe / 146096) / 365 in
  let doy := doe - (365 * yoe + yoe / 4 - yoe / 100) in
  let mp := (5 * doy + 2) / 153 in
  let d := doy - (153 * mp + 2) / 5 + 1 in
  let m := if mp <? 10 then mp + 3 else mp - 9 in
  let y := yoe + era * 400 + (if m <=? 2 then 1 else 0) in
  (y, m, d).

(** Four digits for the years 0 to 9999, a sign and six digits otherwise. *)
Definition year (y : Z) : list N :=
  if (0 <=? y) && (y <=? 9999) then pad4 y
  else (if y <? 0 then 45%N else 43%N) :: pad6 (Z.abs y).

(** The ISO-8601 text of the time value [t], in milliseconds since
    1970-01-01T00:00:00Z. *)
Definition toISOString (t : Z) : list N :=
  let '(y, m, d) := civil (t / msPerDay) in
  let ms := t mod msPerDay in
  year y ++ lit "-" ++ pad2 m ++ lit "-" ++ pad2 d ++ lit "T"
    ++ pad2 (ms / 3600000) ++ lit ":" ++ pad2 (ms / 60000 mod 60)
    ++ lit ":" ++ pad2 (ms / 1000 mod 60) ++ lit "." ++ pad3 (ms mod 1000)
    ++ lit "Z".

(** The shape [YYYY-MM-DDTHH:mm:ss.sssZ], the year possibly as a sign and
    six digits. *)
Definition is_digit (c : N) : bool := ((48 <=? c) && (c <=? 57))%N.

Fixpoint shaped (pattern : list ascii) (s : list N) : bool :=
  match pattern, s with
  | [], [] => true
  | p :: pattern', c :: s' =>
      (if Ascii.eqb p "d" then is_digit c
       else if Ascii.eqb p "s" then (c =? 43)%N || (c =? 45)%N
       else (N_of_ascii p =? c)%N)
      && shaped pattern' s'
  | _, _ => false
  end.

Definition is_iso8601 (s : list N) : bool :=
  shaped (list_ascii_of_string "dddd-dd-ddTdd:dd:dd.dddZ") s
  || shaped (list_ascii_of_string "sdddddd-dd-ddTdd:dd:dd.dddZ") s.

End JsDate.

(** ** The network *)

Record Request := mkRequest {
  url : string;
  method : string;
  headers : list (string * string);
  body : Json;            (* the value handed to [JSON.stringify] *)
}.

(** How a fetch ends: its promise rejects (DNS, offline, timeout), or a
    response arrives, whose [res.json()] yields the parsed body or rejects
    ([None]) when the body is not JSON. The HTTP status plays no part. *)
Inductive FetchResult :=
| NetworkError
| Response (json : option Json).

(** ** The state of the page *)

(** The callback of a pending [setTimeout]. *)
Inductive Timer := HideSuccess.

Record State := mkState {
  fields : list Field;            (* the form's controls, in document order *)
  submitBtn : Button;             (* [qs('[type="submit"]', form)] *)
  successHidden : bool;           (* [successEl.hidden] *)
  activeElement : option nat;     (* the control that has focus *)
  clock : Z;                      (* milliseconds since the epoch *)
  requests : list Request;        (* every fetch issued so far *)
  pending : list nat;             (* the fetches still in flight *)
  alerts : list (list N);         (* every alert shown so far *)
  scrolls : nat;                  (* calls of [successEl.scrollIntoView] *)
  timers : list (Z * Timer);      (* pending timeouts, with their due time *)
}.

Definition set_fields (fs : list Field) (s : State) : State :=
  mkState fs (submitBtn s) (successHidden s) (activeElement s) (clock s)
    (requests s) (pending s) (alerts s) (scrolls s) (timers s).

Definition set_submitBtn (b : Button) (s : State) : State :=
  mkState (fields s) b (successHidden s) (activeElement s) (clock s)
    (requests s) (pending s) (alerts s) (scrolls s) (timers s).

Definition set_successHidden (h : bool) (s : State) : State :=
  mkState (fields s) (submitBtn s) h (activeElement s) (clock s)
    (requests s) (pending s) (alerts s) (scrolls s) (timers s).

(** [field.focus()]: the focus goes to the control if the platform lets it
    take it, and stays where it is otherwise. *)
Definition focus (i : nat) (s : State) : State :=
  match fields s !! i with
  | Some field =>
      if focusable field
      then mkState (fields s) (submitBtn s) (successHidden s) (Some i) (clock s)
             (requests s) (pending s) (alerts s) (scrolls s) (timers s)
      else s
  | None => s
  end.

(** [fetch(url, init)]: the request leaves and is in flight. *)
Definition fetch (r : Request) (s : State) : State :=
  mkState (fields s) (submitBtn s) (successHidden s) (activeElement s) (clock s)
    (requests s ++ [r]) (pending s ++ [length (requests s)]) (alerts s)
    (scrolls s) (timers s).

Definition set_pending (p : list nat) (s : State) : State :=
  mkState (fields s) (submitBtn s) (successHidden s) (activeElement s) (clock s)
    (requests s) p (alerts s) (scrolls s) (timers s).

(** [alert(msg)] *)
Definition alert (msg : list N) (s : State) : State :=
  mkState (fields s) (submitBtn s) (successHidden s) (activeElement s) (clock s)
    (requests s) (pending s) (alerts s ++ [msg]) (scrolls s) (timers s).

(** [successEl.scrollIntoView(...)] *)
Definition scrollIntoView (s : State) : State :=
  mkState (fields s) (submitBtn s) (successHidden s) (activeElement s) (clock s)
    (requests s) (pending s) (alerts s) (S (scrolls s)) (timers s).

(** [setTimeout(cb, delay)]; the identifier it returns is dropped by every
    caller in the script, and the script never calls [clearTimeout]. *)
Definition setTimeout (cb : Timer) (delay : Z) (s : State) : State :=
  mkState (fields s) (submitBtn s) (successHidden s) (activeElement s) (clock s)
    (requests s) (pending s) (alerts s) (scrolls s)
    (timers s ++ [((clock s + delay)%Z, cb)]).

Definition set_clock_timers (t : Z) (ts : list (Z * Timer)) (s : State) : State :=
  mkState (fields s) (submitBtn s) (successHidden s) (activeElement s) t
    (requests s) (pending s) (alerts s) (scrolls s) ts.

(** [form.reset()]: every control goes back to its default value. *)
Definition reset (f : Field) : Field := set_value (defaultValue f) f.
Definition form_reset (s : State) : State := set_fields (reset <$> fields s) s.

(** ** The closures of [initContactForm] *)

(** What the closures capture besides the elements themselves: the controls
    found by [qsa('[required]', form)], as positions in [fields], and the
    copy of the submit control's children taken at start-up. *)
Record Ctx := mkCtx {
  required : list nat;
  btnSnapshot : list Node;
}.

Definition sending : list N := lit "Sending" ++ [8230].   (* U+2026 *)

(** script.js, lines 161-168. Setting [textContent] leaves one text node;
    [replaceChildren] puts fresh copies of the snapshot in its place. *)
Definition setSubmitting (c : Ctx) (on : bool) (s : State) : State :=
  set_submitBtn
    (mkButton on
       (if on then [TextNode sending] else map cloneNode (btnSnapshot c)))
    s.

(** Lines 195-196 of the submit listener, the spec's validate-all: every
    required control is validated in turn, whatever the verdicts so far. *)
Definition validateAll (req : list nat) (fs : list Field) : bool * list Field :=
  foldl
    (λ acc i,
       match acc.2 !! i with
       | Some field =>
           (acc.1 && (validateField field).1, <[i := (validateField field).2]> acc.2)
       | None => acc
       end)
    (true, fs) req.

(** Line 199: [required.find(f => f.classList.contains('is-error'))]. *)
Definition first_error (req : list nat) (fs : list Field) : option nat :=
  List.find
    (λ i, match fs !! i with
          | Some f => classList_contains "is-error" f
          | None => false
          end)
    req.

(** [qs('#ident', form).value]; [None] when no control has that id, where
    the script throws a TypeError. *)
Definition value_of (ident : string) (fs : list Field) : option (list N) :=
  value <$> List.find (has_id ident) fs.

Definition endpoint : string := "https://formspree.io/f/xnjbrllk".

Definition subject_prefix : list N :=
  lit "New consultation request " ++ [8212] ++ lit " ".   (* U+2014 *)

(** Lines 204-227: the object literal [formData] and the request made of it. *)
Definition payload (fs : list Field) (now : Z) : option Request :=
  name ← value_of "cname" fs;
  email ← value_of "cemail" fs;
  business ← value_of "cbusiness" fs;
  description ← value_of "cdesc" fs;
  budget ← value_of "cbudget" fs;
  let name := trim name in
  let email := trim email in
  let business := trim business in
  let description := trim description in
  let timestamp := JsDate.toISOString now in
  Some (mkRequest endpoint "POST"
          [("Content-Type", "application/json"); ("Accept", "application/json")]%string
          (JObject
             [(lit "name", JString name);
              (lit "email", JString email);
              (lit "business", JString business);
              (lit "description", JString description);
              (lit "budget", JString budget);
              (lit "timestamp", JString timestamp);
              (lit "_replyto", JString email);
              (lit "_subject", JString (subject_prefix ++ business))])).

(** Lines 192-228, the submit listener up to the fetch. An uncaught
    TypeError ends the listener where it is thrown and leaves the state as
    it then is. *)
Definition onSubmit (c : Ctx) (s : State) : State :=
  let '(valid, fs) := validateAll (required c) (fields s) in
  let s := set_fields fs s in
  if negb valid then
    match first_error (required c) fs with
    | Some first => focus first s
    | None => s
    end
  else
    match payload fs (clock s) with
    | None => s
    | Some request => fetch request (setSubmitting c true s)
    end.

Definition rejection_message : list N :=
  lit "Something went wrong. Please try again or email us directly at info@grandriverdigital.ca".

Definition network_message : list N :=
  lit "Network error. Please check your connection and try again.".

(** Lines 232-237. *)
Definition onSuccess (c : Ctx) (s : State) : State :=
  let s := form_reset s in
  let s := foldl (λ s i, set_fields (alter clearError i (fields s)) s) s (required c) in
  let s := setSubmitting c false s in
  let s := set_successHidden false s in
  let s := scrollIntoView s in
  setTimeout HideSuccess 8000 s.

(** Lines 239-240. *)
Definition onRejection (c : Ctx) (s : State) : State :=
  alert rejection_message (setSubmitting c false s).

(** Lines 243-246, the handler of [.catch]. *)
Definition onCatch (c : Ctx) (s : State) : State :=
  alert network_message (setSubmitting c false s).

(** Lines 230-242, the handler of the second [.then]. *)
Definition onData (c : Ctx) (data : Json) (s : State) : Completion State :=
  match get_ok data with
  | Throw => Throw
  | Normal ok => Normal (if toBoolean ok then onSuccess c s else onRejection c s)
  end.

(** Lines 229-246, the promise chain once the fetch has ended: a rejection
    anywhere along [fetch(...).then(res => res.json()).then(...)] lands in
    the handler of [.catch]. *)
Definition onSettled (c : Ctx) (r : FetchResult) (s : State) : State :=
  match r with
  | NetworkError => onCatch c s
  | Response None => onCatch c s
  | Response (Some data) =>
      match onData c data s with
      | Normal s' => s'
      | Throw => onCatch c s
      end
  end.

(** The three ways a submission can end, as the spec names them. *)
Inductive Outcome := Success | RemoteRejection | NetworkFailure.

(** The branch that a fetch result makes the chain run. *)
Definition outcome (r : FetchResult) : Outcome :=
  match r with
  | NetworkError => NetworkFailure
  | Response None => NetworkFailure
  | Response (Some data) =>
      match get_ok data with
      | Throw => NetworkFailure
      | Normal ok => if toBoolean ok then Success else RemoteRejection
      end
  end.

Definition branch (o : Outcome) : Ctx → State → State :=
  match o with
  | Success => onSuccess
  | RemoteRejection => onRejection
  | NetworkFailure => onCatch
  end.

(** ** Listeners and events *)

Inductive Target := OnField (i : nat) | OnForm.
Inductive EventType := blur | input | submit.

(** The closures handed to [addEventListener]. *)
Inductive Handler :=
| do_validateField (i : nat)
| do_clearError (i : nat)
| do_submit.

Definition Listener : Type := Target * EventType * Handler.

(** Lines 187-192: the listeners, in the order of their registration. *)
Definition listeners (c : Ctx) : list Listener :=
  flat_map
    (λ i, [(OnField i, blur, do_validateField i); (OnField i, input, do_clearError i)])
    (required c)
  ++ [(OnForm, submit, do_submit)].

Global Instance Target_eq_dec : EqDecision Target.
Proof. solve_decision. Defined.
Global Instance EventType_eq_dec : EqDecision EventType.
Proof. solve_decision. Defined.

Definition run (c : Ctx) (h : Handler) (s : State) : State :=
  match h with
  | do_validateField i => set_fields (alter (λ f, (validateField f).2) i (fields s)) s
  | do_clearError i => set_fields (alter clearError i (fields s)) s
  | do_submit => onSubmit c s
  end.

(** An event of type [ty] at [t] runs the listeners registered for it. *)
Definition dispatch (c : Ctx) (table : list Listener) (t : Target) (ty : EventType)
    (s : State) : State :=
  foldl
    (λ s l, if decide (l.1.1 = t ∧ l.1.2 = ty) then run c l.2 s else s)
    s table.

(** What can happen to the page: a control loses focus; the user edits a
    control, which then holds [v]; the form is submitted; the fetch numbered
    [k] ends; time passes. *)
Inductive Event :=
| Blur (i : nat)
| Input (i : nat) (v : list N)
| Submit
| Settle (k : nat) (r : FetchResult)
| Advance (dt : N).

(** The callbacks of the timers that are due run in the order of their
    registration; the others stay. *)
Definition run_timer (cb : Timer) (s : State) : State :=
  match cb with
  | HideSuccess => set_successHidden true s
  end.

Definition advance (dt : N) (s : State) : State :=
  let now := (clock s + Z.of_N dt)%Z in
  let due := filter (λ t, (t.1 ≤ now)%Z) (timers s) in
  let rest := filter (λ t, ¬ (t.1 ≤ now)%Z) (timers s) in
  foldl (λ s t, run_timer t.2 s) (set_clock_timers now rest s) due.

Definition step (c : Ctx) (table : list Listener) (e : Event) (s : State) : State :=
  match e with
  | Blur i => dispatch c table (OnField i) blur s
  | Input i v =>
      dispatch c table (OnField i) input
        (set_fields (alter (set_value v) i (fields s)) s)
  | Submit => dispatch c table OnForm submit s
  | Settle k r =>
      if decide (k ∈ pending s)
      then onSettled c r (set_pending (filter (λ j, j ≠ k) (pending s)) s)
      else s
  | Advance dt => advance dt s
  end.

Definition steps (c : Ctx) (table : list Listener) (es : list Event) (s : State)
    : State :=
  foldl (λ s e, step c table e s) s es.

(** ** Start-up *)

Record Form := mkForm {
  controls : list Field;
  submitControl : option Button;     (* [qs('[type="submit"]', form)] *)
}.

(** The two elements that [initContactForm] looks up in the document. *)
Record Document := mkDocument {
  contactForm : option Form;         (* [qs('#contactForm')] *)
  formSuccess : option bool;         (* [qs('#formSuccess')], its [hidden] *)
}.

(** The positions of the controls that match [[required]]. *)
Definition qsa_required (fs : list Field) : list nat :=
  List.filter (λ i, match fs !! i with Some f => has_required f | None => false end)
    (seq 0 (length fs)).

(** How [initContactForm] ends: by its early return, by the TypeError of
    line 159 when the form has no submit control, or with its listeners
    registered. *)
Inductive Init :=
| Returned
| Threw
| Installed (c : Ctx) (table : list Listener) (s : State).

(** script.js, lines 152-192, on a page loaded at time [now]. *)
Definition initContactForm (d : Document) (now : Z) : Init :=
  match contactForm d, formSuccess d with
  | Some form, Some hidden =>
      match submitControl form with
      | None => Threw
      | Some btn =>
          let c := mkCtx (qsa_required (controls form))
                     (map cloneNode (childNodes btn)) in
          Installed c (listeners c)
            (mkState (controls form) btn hidden None now [] [] [] 0 [])
      end
  | _, _ => Returned
  end.

(** The listeners that start-up leaves on the page. *)
Definition registered (r : Init) : list Listener :=
  match r with
  | Installed _ table _ => table
  | Returned | Threw => []
  end.

(** ** Notions used in the statements *)

(** The properties of a JSON object, none for any other value. *)
Definition properties (j : Json) : list (list N * Json) :=
  match j with JObject props => props | _ => [] end.

(** Two lists of controls that agree, place by place, on ids and values. *)
Definition same_entries (fs gs : list Field) : Prop :=
  Forall2 (λ f g, (∀ ident, has_id ident g = has_id ident f) ∧ value g = value f)
    fs gs.

(** What of the page a failed submission must leave as it is, besides
    putting the submit control back: the controls, the success message, the
    timers, the requests and the fetches in flight, the focus, the clock. *)
Definition restored (c : Ctx) (s s' : State) : Prop :=
  submitBtn s' = mkButton false (btnSnapshot c)
  ∧ fields s' = fields s
  ∧ successHidden s' = successHidden s
  ∧ scrolls s' = scrolls s
  ∧ timers s' = timers s
  ∧ requests s' = requests s
  ∧ pending s' = pending s
  ∧ activeElement s' = activeElement s
  ∧ clock s' = clock s.

(** The JSON object [{ "ok": v }]. *)
Definition ok_object (v : Json) : Json := JObject [(lit "ok", v)].

(** What the listener of a required control does to it on an event of type
    [ty]: lines 188 and 189. *)
Definition reaction (ty : EventType) (f : Field) : Field :=
  match ty with
  | blur => (validateField f).2
  | input => clearError f
  | submit => f
  end.

(** The controls after an event of type [ty] at the control [i]. *)
Definition react (req : list nat) (ty : EventType) (i : nat) (fs : list Field)
    : list Field :=
  if decide (i ∈ req) then alter (reaction ty) i fs else fs.

(** The events that neither submit the form nor end the fetch numbered [k]. *)
Definition quiet (k : nat) (e : Event) : Prop :=
  match e with
  | Submit => False
  | Settle k' _ => k' ≠ k
  | Blur _ | Input _ _ | Advance _ => True
  end.

(** A JSON answer in which the remote reports ok. *)
Definition ok_true : FetchResult := Response (Some (ok_object (JBool true))).

(** A JSON answer in which the remote reports not ok. *)
Definition ok_false : FetchResult := Response (Some (ok_object (JBool false))).

(** The class tokens and the attributes of a control, where the error marks
    would show. *)
Definition marks (f : Field) : gset string * gmap string string :=
  (classList f, attributes f).

(** ** A page to run the script on *)

Module Sample.

(** A control with an id, of the given type, required or not, holding [v]. *)
Definition control (ident ty : string) (req : bool) (v : list N) : Field :=
  mkField ty v [] ∅
    (if req then {[ "id" := ident; "required" := "" ]} else {[ "id" := ident ]})%string
    true.

(** The contact form: name, email, business and description are required
    text controls, the budget is a select. *)
Definition form_controls (name email business description budget : list N)
    : list Field :=
  [control "cname" "text" true name;
   control "cemail" "email" true email;
   control "cbusiness" "text" true business;
   control "cdesc" "textarea" true description;
   control "cbudget" "select-one" false budget].

Definition label : list Node :=
  [TextNode (lit "Send request "); ElementNode "span" [TextNode [8594]]].

Definition page (name email business description budget : list N) : Document :=
  mkDocument
    (Some (mkForm (form_controls name email business description budget)
             (Some (mkButton false label))))
    (Some true).

Definition ctx : Ctx := mkCtx [0; 1; 2; 3]%nat label.

(** The page as start-up leaves it, at time [now]. *)
Definition state (name email business description budget : list N) (now : Z)
    : State :=
  mkState (form_controls name email business description budget)
    (mkButton false label) true None now [] [] [] 0 [].

(** 2023-11-14T22:13:20.000Z *)
Definition now : Z := 1700000000000.

(** The entries of the spec's happy path. *)
Definition filled : State :=
  state (lit "Alice ") (lit "a@b.com") (lit "Acme") (lit "Need a site")
    (lit "1000") now.

(** The same with an email that has no at sign. *)
Definition bad_email : State :=
  state (lit "Alice ") (lit "not-an-email") (lit "Acme") (lit "Need a site")
    (lit "1000") now.

(** The same with a budget option whose value is padded with spaces. *)
Definition padded_budget : State :=
  state (lit "Alice ") (lit "a@b.com") (lit "Acme") (lit "Need a site")
    (lit " 1000 ") now.

(** Nothing filled in at all. *)
Definition blank : State := state [] [] [] [] [] now.

(** The happy path on a page whose budget select has a preselected option:
    the markup gives the control the default value [under-1000]. *)
Definition preselected : State :=
  set_fields
    (alter (λ f, mkField (type f) (value f) (lit "under-1000") (classList f)
                   (attributes f) (focusable f))
       4%nat (fields filled))
    filled.

(** The blank form with its name control disabled: the control still
    matches [[required]], and the platform does not let it take the focus. *)
Definition disabled_name : Document :=
  mkDocument
    (Some (mkForm
             (alter (λ f, mkField (type f) (value f) (defaultValue f) (classList f)
                            (<["disabled"%string := ""%string]> (attributes f)) false)
                0%nat (form_controls [] [] [] [] []))
             (Some (mkButton false label))))
    (Some true).

(** A page that has the form but not the success message. *)
Definition no_success : Document :=
  mkDocument
    (Some (mkForm (form_controls [] (lit "not-an-email") [] [] [])
             (Some (mkButton false label))))
    None.

End Sample.

(** ** Notions used in the further properties of the contact form *)

(** The two error marks of a control go together. *)
Definition coupled (f : Field) : Prop := error_indicator f ↔ aria_invalid f.

(** A request as line 215 to 217 make it: a POST of JSON to the endpoint. *)
Definition to_endpoint (r : Request) : Prop :=
  url r = endpoint ∧ method r = "POST"%string
  ∧ headers r
    = [("Content-Type", "application/json"); ("Accept", "application/json")]%string.

(** The ids that the submit listener looks up, in the order of lines 205-209. *)
Definition payload_ids : list string :=
  ["cname"; "cemail"; "cbusiness"; "cdesc"; "cbudget"]%string.

(** The string value of the property [k] of a request body. *)
Definition sent (k : string) (r : Request) : option (list N) :=
  match own_property (lit k) (properties (body r)) with
  | Some (JString v) => Some v
  | _ => None
  end.

(** The sample page without its budget select. *)
Definition Sample_no_budget : State :=
  set_fields (take 4 (fields Sample.filled)) Sample.filled.

(** The required controls that go into the request as trimmed text, with
    the property each one fills. *)
Definition payload_keys : list (string * string) :=
  [("cname", "name"); ("cemail", "email"); ("cbusiness", "business");
   ("cdesc", "description")]%string.

(** What the script and the user can make of a control: the user and
    [form.reset()] change its value; the listeners validate or clear it,
    which only happens to a required control ([req]). *)
Inductive derived (req : bool) (f : Field) : Field → Prop :=
| derived_same : derived req f f
| derived_value v g : derived req f g → derived req f (set_value v g)
| derived_validate g : req = true → derived req f g → derived req f (validateField g).2
| derived_clear g : req = true → derived req f g → derived req f (clearError g).

(** * The rest of [script.js] *)

(** ** Elements *)

Module Dom.

(** An element with its class tokens and its attributes, the values of
    which are JavaScript strings. *)
Record Element := mkElement {
  classes : gset string;
  attrs : gmap string (list N);
}.

(** [el.classList.add(tok)] *)
Definition add (tok : string) (el : Element) : Element :=
  mkElement ({[tok]} ∪ classes el) (attrs el).

(** [el.classList.remove(tok)] *)
Definition remove (tok : string) (el : Element) : Element :=
  mkElement (classes el ∖ {[tok]}) (attrs el).

(** [el.classList.contains(tok)] *)
Definition contains (tok : string) (el : Element) : bool :=
  bool_decide (tok ∈ classes el).

(** [el.classList.toggle(tok, force)] *)
Definition toggle (tok : string) (force : bool) (el : Element) : Element :=
  if force then add tok el else remove tok el.

(** [el.setAttribute(k, v)] *)
Definition setAttribute (k : string) (v : list N) (el : Element) : Element :=
  mkElement (classes el) (<[k := v]> (attrs el)).

(** [el.removeAttribute(k)] *)
Definition removeAttribute (k : string) (el : Element) : Element :=
  mkElement (classes el) (delete k (attrs el)).

(** [el.getAttribute(k)], [None] for [null]. *)
Definition getAttribute (k : string) (el : Element) : option (list N) :=
  attrs el !! k.

End Dom.

(** ** Active navigation link: [initActiveNav], lines 72-96 *)

Module ActiveNav.

Definition slash : N := 47.

(** [s.replace(/\/$/, '')]: one slash at the very end goes. *)
Definition stripSlash (s : list N) : list N :=
  match rev s with
  | c :: r => if c =? slash then rev r else s
  | [] => s
  end.

(** [s || '/'] *)
Definition orSlash (s : list N) : list N := if truthy s then s else [slash].

Definition normalize (s : list N) : list N := orSlash (stripSlash s).

(** Lines 82-86, on the normalized path and href. *)
Definition isActive (path href : list N) : bool :=
  if decide (href = [slash])
  then bool_decide (path = []) || bool_decide (path = [slash])
  else bool_decide (path = href) || startsWith (href ++ [slash]) path.

(** [(link.getAttribute('href') || '').replace(/\/$/, '') || '/'] *)
Definition href_of (link : Dom.Element) : list N :=
  normalize (default [] (Dom.getAttribute "href" link)).

(** Lines 79-94, the body of the loop. *)
Definition mark (path : list N) (link : Dom.Element) : Dom.Element :=
  if isActive path (href_of link)
  then Dom.setAttribute "aria-current" (lit "page") (Dom.add "is-active" link)
  else Dom.removeAttribute "aria-current" (Dom.remove "is-active" link).

(** [initActiveNav] on a page at [pathname] whose links of class
    [nav__link] are [links]. *)
Definition initActiveNav (pathname : list N) (links : list Dom.Element)
    : list Dom.Element :=
  match links with
  | [] => []
  | _ :: _ => mark (normalize pathname) <$> links
  end.

(** A navigation link to [href]. *)
Definition link_to (href : string) : Dom.Element :=
  Dom.mkElement {["nav__link"%string]} {["href"%string := lit href]}.

End ActiveNav.

(** ** Mobile navigation: [initMobileNav], lines 29-69 *)

Module MobileNav.

Record State := mkState {
  nav : Dom.Element;        (* [qs('#nav')] *)
  toggle : Dom.Element;     (* [qs('#navToggle')] *)
  overflow : list N;        (* [document.body.style.overflow] *)
}.

(** Lines 34-40. *)
Definition open (s : State) : State :=
  mkState (Dom.add "is-open" (nav s))
    (Dom.setAttribute "aria-label" (lit "Close navigation menu")
       (Dom.setAttribute "aria-expanded" (lit "true")
          (Dom.add "is-open" (toggle s))))
    (lit "hidden").

(** Lines 42-48. *)
Definition close (s : State) : State :=
  mkState (Dom.remove "is-open" (nav s))
    (Dom.setAttribute "aria-label" (lit "Open navigation menu")
       (Dom.setAttribute "aria-expanded" (lit "false")
          (Dom.remove "is-open" (toggle s))))
    [].

Definition is_open (s : State) : bool := Dom.contains "is-open" (nav s).

(** Where a click lands. The toggle button and the links of the menu are
    apart from each other; the toggle may sit inside the nav element or
    outside of it. *)
Inductive Place :=
| OnToggle (insideNav : bool)   (* on the toggle or inside it *)
| OnLink                        (* on a [.nav__link] or [.nav__mobile-cta] of the nav *)
| InsideNav                     (* elsewhere inside the nav *)
| Outside.                      (* anywhere else on the page *)

(** [nav.contains(e.target)] and [toggle.contains(e.target)]. *)
Definition in_nav (p : Place) : bool :=
  match p with
  | OnToggle insideNav => insideNav
  | OnLink | InsideNav => true
  | Outside => false
  end.

Definition in_toggle (p : Place) : bool :=
  match p with OnToggle _ => true | _ => false end.

(** Lines 50-52, the listener at the toggle. *)
Definition onToggleClick (s : State) : State :=
  if is_open s then close s else open s.

(** Lines 62-68, the listener at the document. *)
Definition onDocumentClick (p : Place) (s : State) : State :=
  if is_open s && negb (in_nav p) && negb (in_toggle p) then close s else s.

(** Lines 58-60. *)
Definition onKeydown (key : string) (s : State) : State :=
  if String.eqb key "Escape" && is_open s then close s else s.

Inductive Event :=
| Click (p : Place)
| Keydown (key : string).

(** A click bubbles from its target to the document: the listener of the
    link or of the toggle runs first, the one at the document last. *)
Definition step (e : Event) (s : State) : State :=
  match e with
  | Click p =>
      let s :=
        match p with
        | OnToggle _ => onToggleClick s
        | OnLink => close s
        | InsideNav | Outside => s
        end in
      onDocumentClick p s
  | Keydown key => onKeydown key s
  end.

Definition steps (es : list Event) (s : State) : State :=
  foldl (λ s e, step e s) s es.

(** [initMobileNav]: with the toggle or the nav missing it returns at line
    32 and the page gets no listener of it ([None]). *)
Definition initMobileNav (toggle nav : option Dom.Element) (overflow : list N)
    : option State :=
  match toggle, nav with
  | Some t, Some n => Some (mkState n t overflow)
  | _, _ => None
  end.

(** The menu shown: both elements carry [is-open], the toggle announces it
    and the page does not scroll. *)
Definition shown (s : State) : Prop :=
  "is-open"%string ∈ Dom.classes (nav s)
  ∧ "is-open"%string ∈ Dom.classes (toggle s)
  ∧ Dom.getAttribute "aria-expanded" (toggle s) = Some (lit "true")
  ∧ Dom.getAttribute "aria-label" (toggle s) = Some (lit "Close navigation menu")
  ∧ overflow s = lit "hidden".

(** The menu put away. *)
Definition put_away (s : State) : Prop :=
  ("is-open"%string ∉ Dom.classes (nav s))
  ∧ ("is-open"%string ∉ Dom.classes (toggle s))
  ∧ Dom.getAttribute "aria-expanded" (toggle s) = Some (lit "false")
  ∧ Dom.getAttribute "aria-label" (toggle s) = Some (lit "Open navigation menu")
  ∧ overflow s = [].

(** What opening and closing leave alone. *)
Definition same_rest (s s' : State) : Prop :=
  (∀ tok, tok ≠ "is-open"%string →
     (tok ∈ Dom.classes (nav s') ↔ tok ∈ Dom.classes (nav s))
     ∧ (tok ∈ Dom.classes (toggle s') ↔ tok ∈ Dom.classes (toggle s)))
  ∧ Dom.attrs (nav s') = Dom.attrs (nav s)
  ∧ (∀ k, k ≠ "aria-expanded"%string → k ≠ "aria-label"%string →
       Dom.getAttribute k (toggle s') = Dom.getAttribute k (toggle s)).

(** A menu as the markup has it before the first click: closed, nothing
    said yet about the scroll lock. *)
Definition fresh : State :=
  mkState (Dom.mkElement {["nav"%string]} ∅)
    (Dom.mkElement {["nav-toggle"%string]}
       {["aria-expanded"%string := lit "false";
         "aria-label"%string := lit "Open navigation menu"]})
    [].

End MobileNav.

(** ** Sticky header: [initHeader], lines 14-26 *)

Module Header.

Record State := mkState {
  header : Dom.Element;     (* [qs('#header')] *)
  scrollY : float;          (* [window.scrollY] *)
  ticking : bool;           (* the flag of line 17 *)
  frames : nat;             (* callbacks waiting for the next animation frame *)
}.

(** Lines 21-24, the callback handed to [requestAnimationFrame]. *)
Definition onFrame (s : State) : State :=
  mkState (Dom.toggle "is-scrolled" (PrimFloat.ltb 10 (scrollY s)) (header s))
    (scrollY s) false (frames s).

(** Lines 18-25, the scroll listener. *)
Definition onScroll (s : State) : State :=
  if ticking s then s
  else mkState (header s) (scrollY s) true (S (frames s)).

Inductive Event :=
| Scroll (y : float)   (* the page has scrolled and is now at [y] *)
| Frame.               (* the browser runs the animation-frame callbacks *)

(** A frame runs every callback that waits and leaves none waiting. *)
Definition step (e : Event) (s : State) : State :=
  match e with
  | Scroll y => onScroll (mkState (header s) y (ticking s) (frames s))
  | Frame =>
      Nat.iter (frames s) onFrame
        (mkState (header s) (scrollY s) (ticking s) 0)
  end.

Definition steps (es : list Event) (s : State) : State :=
  foldl (λ s e, step e s) s es.

(** [initHeader] at scroll position [y]: without the header element it
    returns at line 16 ([None]); with it, it only registers the listener. *)
Definition initHeader (header : option Dom.Element) (y : float) : option State :=
  (λ h, mkState h y false 0) <$> header.

(** The header shows what the scroll position says. *)
Definition matches (s : State) : Prop :=
  "is-scrolled"%string ∈ Dom.classes (header s) ↔ PrimFloat.ltb 10 (scrollY s) = true.

(** Nothing waits and the header is up to date. *)
Definition settled (s : State) : Prop :=
  frames s = 0%nat ∧ ticking s = false ∧ matches s.

(** One callback waits for the next frame. *)
Definition waiting (s : State) : Prop :=
  frames s = 1%nat ∧ ticking s = true.

(** Nothing waits; the header is as the markup or an earlier frame left it. *)
Definition idle (s : State) : Prop :=
  frames s = 0%nat ∧ ticking s = false.

End Header.

(** ** Chart animation: [initMockChart], lines 266-279 *)

Module Chart.

(** A bar of the mock chart: [height] is what the script last assigned to
    [bar.style.height], [h_var] what [bar.style.getPropertyValue('--h')]
    answers, the empty string when the bar has no such property. *)
Record Bar := mkBar {
  height : list N;
  h_var : list N;
}.

(** The callbacks handed to [setTimeout]: the one of line 272 and, for the
    bar at each position, the one of line 274. *)
Inductive Timer :=
| Start
| Grow (i : nat).

Record State := mkState {
  bars : list Bar;              (* [qsa('.mock-chart__bar')] *)
  clock : Z;                    (* milliseconds *)
  timers : list (Z * Timer);    (* pending timeouts, with their due time *)
}.

Definition setTimeout (cb : Timer) (delay : Z) (s : State) : State :=
  mkState (bars s) (clock s) (timers s ++ [((clock s + delay)%Z, cb)]).

(** [x || '60%'] *)
Definition orDefault (v : list N) : list N := if truthy v then v else lit "60%".

(** Line 275. *)
Definition grow (b : Bar) : Bar := mkBar (orDefault (h_var b)) (h_var b).

(** Line 271. *)
Definition flatten (b : Bar) : Bar := mkBar (lit "0%") (h_var b).

Definition run (cb : Timer) (s : State) : State :=
  match cb with
  | Start =>
      foldl (λ s i, setTimeout (Grow i) (Z.of_nat i * 80) s) s
        (seq 0 (length (bars s)))
  | Grow i => mkState (alter grow i (bars s)) (clock s) (timers s)
  end.

(** [initMockChart] at time [now]; [reduced] is what
    [prefersReducedMotion()] answers. *)
Definition initMockChart (reduced : bool) (bs : list Bar) (now : Z) : State :=
  if reduced then mkState bs now []
  else match bs with
       | [] => mkState bs now []
       | _ :: _ => setTimeout Start 600 (mkState (flatten <$> bs) now [])
       end.

(** Time passes: the timers that are due run, in the order of their
    registration; a timer set by a callback waits for a later turn. *)
Definition advance (dt : N) (s : State) : State :=
  let now := (clock s + Z.of_N dt)%Z in
  let due := filter (λ t, (t.1 ≤ now)%Z) (timers s) in
  let rest := filter (λ t, ¬ (t.1 ≤ now)%Z) (timers s) in
  foldl (λ s t, run t.2 s) (mkState (bars s) now rest) due.

Definition advances (dts : list N) (s : State) : State :=
  foldl (λ s dt, advance dt s) s dts.

(** Relative to a start at [t0]: no bar has left [0%] before its time, and
    no timer is due before the time of its bar. *)
Definition on_schedule (t0 : Z) (s : State) : Prop :=
  (∀ i b, bars s !! i = Some b →
     height b = lit "0%" ∨ (t0 + 600 + Z.of_nat i * 80 ≤ clock s)%Z)
  ∧ (∀ d cb, (d, cb) ∈ timers s →
       match cb with
       | Start => (t0 + 600 ≤ d)%Z
       | Grow i => (t0 + 600 + Z.of_nat i * 80 ≤ d)%Z
       end).

End Chart.

(** Three bars, the second without a [--h] of its own. *)
Definition Chart_sample : list Chart.Bar :=
  [Chart.mkBar [] (lit "80%"); Chart.mkBar [] []; Chart.mkBar [] (lit "45%")].

From Stdlib Require DecimalString.

(** The decimal text of an integer, as a template literal or the setter
    of [textContent] makes it of a number. *)
Definition decimal (n : Z) : list N :=
  lit (DecimalString.NilZero.string_of_int (Z.to_int n)).

(** ** Scroll reveal: [initReveal], lines 99-134 *)

Module Reveal.

(** Line 120: [idx > 0 ? Math.min(idx * 70, 350) : 0]. *)
Definition delay (idx : Z) : Z :=
  if (0 <? idx)%Z then Z.min (idx * 70) 350 else 0%Z.

(** [siblings.indexOf(el)], -1 when [el] is not among them. *)
Fixpoint indexOf_from (k : Z) (x : nat) (l : list nat) : Z :=
  match l with
  | [] => (-1)%Z
  | y :: l' => if decide (y = x) then k else indexOf_from (k + 1)%Z x l'
  end.

Definition indexOf (x : nat) (l : list nat) : Z := indexOf_from 0 x l.

(** An element of class [reveal]: [style] is its
    [style.transitionDelay]; [siblings] lists the [.reveal] elements inside
    its closest stagger container, as positions in the list of all of
    them, and is [None] when [el.closest(...)] finds no such container.
    The list need not hold the element itself: [closest] starts at the
    element, [querySelectorAll] below it. *)
Record Item := mkItem {
  el : Dom.Element;
  style : list N;
  siblings : option (list nat);
}.

Record State := mkState {
  items : list Item;          (* [qsa('.reveal')] *)
  observed : gset nat;        (* the targets of the observer *)
  once : list nat;            (* pending [transitionend] listeners *)
}.

(** Lines 117-122. *)
Definition stagger (i : nat) (it : Item) : Item :=
  match siblings it with
  | Some sibs =>
      mkItem (el it) (decimal (delay (indexOf i sibs)) ++ lit "ms") (siblings it)
  | None => it
  end.

(** Line 124. *)
Definition show (it : Item) : Item :=
  mkItem (Dom.add "is-visible" (el it)) (style it) (siblings it).

(** Lines 114-129, for an entry that intersects. *)
Definition reveal (i : nat) (s : State) : State :=
  match items s !! i with
  | None => s
  | Some it =>
      mkState (<[i := show (stagger i it)]> (items s)) (observed s ∖ {[i]})
        (once s ++ [i])
  end.

(** Lines 111-131, the callback of the observer, on entries that name
    their target and say whether it intersects. *)
Definition onEntries (entries : list (nat * bool)) (s : State) : State :=
  foldl (λ s (e : nat * bool), if e.2 then reveal e.1 s else s) s entries.

(** Lines 125-127: a [transitionend] that reaches the element runs its
    pending listeners, which then are gone. *)
Definition onTransitionEnd (i : nat) (s : State) : State :=
  if decide (i ∈ once s)
  then mkState (alter (λ it, mkItem (el it) [] (siblings it)) i (items s))
         (observed s) (filter (λ j, j ≠ i) (once s))
  else s.

Inductive Event :=
| Entries (entries : list (nat * bool))
| TransitionEnd (i : nat).

(** The observer reports on its targets only. *)
Definition step (e : Event) (s : State) : State :=
  match e with
  | Entries entries =>
      onEntries (filter (λ e : nat * bool, e.1 ∈ observed s) entries) s
  | TransitionEnd i => onTransitionEnd i s
  end.

Definition steps (es : list Event) (s : State) : State :=
  foldl (λ s e, step e s) s es.

(** [initReveal]; [reduced] is what [prefersReducedMotion()] answers. *)
Definition initReveal (reduced : bool) (its : list Item) : State :=
  if reduced then mkState (show <$> its) ∅ []
  else match its with
       | [] => mkState its ∅ []
       | _ :: _ => mkState its (list_to_set (seq 0 (length its))) []
       end.

Definition visible (it : Item) : Prop := "is-visible"%string ∈ Dom.classes (el it).

(** The transition delays that the script can assign. *)
Definition delays : list (list N) :=
  lit <$> ["0ms"; "70ms"; "140ms"; "210ms"; "280ms"; "350ms"]%string.

(** What the element at position [i] that the markup gave as [it] has
    become once it has been revealed. *)
Definition revealed (i : nat) (it it' : Item) : Prop :=
  el it' = Dom.add "is-visible" (el it)
  ∧ siblings it' = siblings it
  ∧ (style it' = [] ∨ style it' = style (stagger i it)).

(** The elements of [s] against the markup [its]: one that is still
    observed is as the markup gave it, any other has been revealed; only
    revealed elements have a listener pending, and only elements of the
    list are observed. *)
Definition tracked (its : list Item) (s : State) : Prop :=
  length (items s) = length its
  ∧ (∀ i it, its !! i = Some it →
       ∃ it', items s !! i = Some it'
              ∧ if decide (i ∈ observed s) then it' = it else revealed i it it')
  ∧ (∀ i, i ∈ once s → i ∉ observed s)
  ∧ (∀ i, i ∈ observed s → (i < length its)%nat).

End Reveal.

(** Four cards of a grid, each of class [reveal], and a heading outside
    of any stagger container. *)
Definition Reveal_sample : list Reveal.Item :=
  [Reveal.mkItem (Dom.mkElement {["reveal"%string]} ∅) [] (Some [0; 1; 2; 3]%nat);
   Reveal.mkItem (Dom.mkElement {["reveal"%string]} ∅) [] (Some [0; 1; 2; 3]%nat);
   Reveal.mkItem (Dom.mkElement {["reveal"%string]} ∅) [] (Some [0; 1; 2; 3]%nat);
   Reveal.mkItem (Dom.mkElement {["reveal"%string]} ∅) [] (Some [0; 1; 2; 3]%nat);
   Reveal.mkItem (Dom.mkElement {["reveal"%string]} ∅) [] None].

(** ** Process steps: [initProcessSteps], lines 251-263 *)

Module ProcessSteps.

Record State := mkState {
  steps : list Dom.Element;     (* [qsa('.process__step')] *)
  observing : bool;             (* whether the observer exists *)
}.

(** Lines 257-259, the callback of the observer. *)
Definition onEntries (entries : list (nat * bool)) (s : State) : State :=
  foldl
    (λ s (e : nat * bool),
       if e.2 then mkState (alter (Dom.add "is-active-step") e.1 (steps s)) (observing s)
       else s)
    s entries.

(** The observer, if there is one, reports on the steps; it never lets go
    of any. *)
Definition deliver (entries : list (nat * bool)) (s : State) : State :=
  if observing s then onEntries entries s else s.

Definition run (ess : list (list (nat * bool))) (s : State) : State :=
  foldl (λ s entries, deliver entries s) s ess.

(** [initProcessSteps]; [reduced] is what [prefersReducedMotion()] answers. *)
Definition initProcessSteps (reduced : bool) (els : list Dom.Element) : State :=
  if reduced then mkState els false
  else match els with
       | [] => mkState els false
       | _ :: _ => mkState els true
       end.

End ProcessSteps.

(** ** Footer year: [initFooterYear], lines 282-288 *)

Module Footer.

(** An element that shows the year: whether it matches [.footer-year],
    whether its id is [footerYear], and its text. *)
Record Element := mkElement {
  byClass : bool;
  byId : bool;
  textContent : list N;
}.

(** [new Date().getFullYear()]: the year of the local time, which is
    [tza] milliseconds ahead of UTC. *)
Definition getFullYear (now tza : Z) : Z :=
  (JsDate.civil ((now + tza) / JsDate.msPerDay)).1.1.

Definition write (now tza : Z) (e : Element) : Element :=
  mkElement (byClass e) (byId e) (decimal (getFullYear now tza)).

(** The position of the first element that [p] holds of. *)
Fixpoint position (p : Element → bool) (k : nat) (es : list Element) : option nat :=
  match es with
  | [] => None
  | e :: es' => if p e then Some k else position p (S k) es'
  end.

(** [initFooterYear] on the year elements of the page, in document order. *)
Definition initFooterYear (now tza : Z) (es : list Element) : list Element :=
  let es := (λ e, if byClass e then write now tza e else e) <$> es in
  match position byId 0 es with
  | Some k => alter (write now tza) k es
  | None => es
  end.

End Footer.

(** ** Start-up: the listener of [DOMContentLoaded], lines 291-301 *)

Module Startup.

(** What the nine functions look up on the page. The elements that two
    of them write to are taken to be different ones. *)
Record Page := mkPage {
  header : option Dom.Element;        (* [qs('#header')] *)
  scrollY : float;
  navToggle : option Dom.Element;     (* [qs('#navToggle')] *)
  nav : option Dom.Element;           (* [qs('#nav')] *)
  overflow : list N;                  (* [document.body.style.overflow] *)
  pathname : list N;                  (* [window.location.pathname] *)
  navLinks : list Dom.Element;        (* [qsa('.nav__link')] *)
  reduced : bool;                     (* [prefersReducedMotion()] *)
  reveals : list Reveal.Item;         (* [qsa('.reveal')] *)
  document : Document;
  processSteps : list Dom.Element;    (* [qsa('.process__step')] *)
  bars : list Chart.Bar;              (* [qsa('.mock-chart__bar')] *)
  years : list Footer.Element;
  now : Z;
  tza : Z;
}.

(** What the listener leaves behind. [completed] says whether it ran to
    its end. *)
Record Started := mkStarted {
  headerState : option Header.State;
  mobileNav : option MobileNav.State;
  links : list Dom.Element;
  reveal : Reveal.State;
  contact : Init;
  completed : bool;
  process : ProcessSteps.State;
  chart : Chart.State;
  footer : list Footer.Element;
}.

(** [initSmoothScroll] registers click listeners and writes nothing. The
    TypeError of [initContactForm] is not caught: it ends the listener, and
    the three functions after it do not run. *)
Definition main (p : Page) : Started :=
  let h := Header.initHeader (header p) (scrollY p) in
  let m := MobileNav.initMobileNav (navToggle p) (nav p) (overflow p) in
  let l := ActiveNav.initActiveNav (pathname p) (navLinks p) in
  let r := Reveal.initReveal (reduced p) (reveals p) in
  let c := initContactForm (document p) (now p) in
  match c with
  | Threw =>
      mkStarted h m l r c false
        (ProcessSteps.mkState (processSteps p) false)
        (Chart.mkState (bars p) (now p) [])
        (years p)
  | Returned | Installed _ _ _ =>
      mkStarted h m l r c true
        (ProcessSteps.initProcessSteps (reduced p) (processSteps p))
        (Chart.initMockChart (reduced p) (bars p) (now p))
        (Footer.initFooterYear (now p) (tza p) (years p))
  end.

End Startup.

(** A page with the contact form and the success message but without a
    submit control in the form. *)
Definition Startup_sample : Startup.Page :=
  Startup.mkPage None 0%float None None [] (lit "/contact") []
    false Reveal_sample
    (mkDocument (Some (mkForm (Sample.form_controls [] [] [] [] []) None)) (Some true))
    [Dom.mkElement {["process__step"%string]} ∅]
    Chart_sample
    [Footer.mkElement true false (lit "2020")]
    1700000000000 0.

Section StringFacts.

(** [trim] strips Unicode white space too: a no-break space in front, a
    line separator behind. *)
Example trim_unicode : trim ([160] ++ lit " a b" ++ [9; 8232]) = lit "a b".
Proof. vm_compute. reflexivity. Qed.

Lemma truthy_false (s : list N) : truthy s = false ↔ s = [].
Proof. destruct s; simpl; split; congruence. Qed.

Lemma truthy_true (s : list N) : truthy s = true ↔ s ≠ [].
Proof. destruct s; simpl; split; congruence. Qed.

Lemma startsWith_single (c : N) (s : list N) :
  startsWith [c] s = true ↔ ∃ s', s = c :: s'.
Proof.
  destruct s as [|d s]; simpl.
  - split; [discriminate | intros [? ?]; discriminate].
  - rewrite andb_true_r, N.eqb_eq. split.
    + intros ->. eauto.
    + intros [s' [= -> _]]. reflexivity.
Qed.

Lemma includes_single (c : N) (s : list N) :
  includes [c] s = true ↔ c ∈ s.
Proof.
  induction s as [|d s IH].
  - simpl. split; [discriminate | intros H; inversion H].
  - change (includes [c] (d :: s))
      with (startsWith [c] (d :: s) || includes [c] s).
    rewrite orb_true_iff, startsWith_single, IH, elem_of_cons.
    split.
    + intros [[s' [= -> _]] | ?]; auto.
    + intros [-> | ?]; eauto.
Qed.

End StringFacts.

Section ValidateField.

Lemma validateField_verdict (f : Field) :
  (validateField f).1 = false ↔ invalid f.
Proof.
  unfold validateField, invalid.
  destruct (truthy (trim (value f))) eqn:Ht; simpl.
  - apply truthy_true in Ht.
    destruct (String.eqb (type f) "email") eqn:Hty; simpl.
    + apply String.eqb_eq in Hty.
      destruct (truthy (value f)) eqn:Hv; simpl.
      * apply truthy_true in Hv.
        destruct (includes [at_sign] (value f)) eqn:Hi; simpl.
        -- apply includes_single in Hi. split; [discriminate|].
           intros [? | (_ & _ & ?)]; contradiction.
        -- split; [|reflexivity]. intros _. right.
           repeat split; auto. rewrite <- includes_single. congruence.
      * apply truthy_false in Hv. split; [discriminate|].
        intros [? | (_ & ? & _)]; contradiction.
    + apply String.eqb_neq in Hty. split; [discriminate|].
      intros [? | (? & _)]; contradiction.
  - apply truthy_false in Ht. split; auto.
Qed.

Lemma validateField_cases (f : Field) :
  validateField f
    = (false, setAttribute "aria-invalid" "true" (classList_add "is-error" f))
  ∨ validateField f = (true, clearError f).
Proof. unfold validateField. destruct (_ || _); auto. Qed.

Lemma clearError_unmarked (f : Field) : unmarked (clearError f).
Proof.
  split; simpl.
  - intros [_ H]%elem_of_difference. apply H, elem_of_singleton. reflexivity.
  - apply lookup_delete_eq.
Qed.

End ValidateField.

(** C1. For every field, [validateField] answers false exactly when the
    trimmed value is empty, or the field is of type email and its value is
    non-empty and has no at sign. When it answers false the field leaves
    with the class [is-error] and [aria-invalid="true"]; when it answers
    true the field leaves with neither. The call never touches the value. *)
Theorem validateField_spec (f : Field) :
  ((validateField f).1 = false ↔ invalid f)
  ∧ ((validateField f).1 = false →
       error_indicator (validateField f).2 ∧ aria_invalid (validateField f).2)
  ∧ ((validateField f).1 = true → unmarked (validateField f).2)
  ∧ value (validateField f).2 = value f.
Proof.
  split; [apply validateField_verdict|].
  destruct (validateField_cases f) as [-> | ->]; simpl.
  - repeat split; try discriminate.
    + apply elem_of_union. left. apply elem_of_singleton. reflexivity.
    + apply lookup_insert_eq.
  - split; [discriminate|]. split; [|reflexivity].
    intros _. apply clearError_unmarked.
Qed.

(** ** Validate-all *)

Section ValidateAll.

(** The field as [validateField] leaves it. *)
Local Abbreviation checked f := (validateField f).2.

(** The verdict looks at the type and the value only. *)
Lemma validateField_verdict_ext (f g : Field) :
  type f = type g → value f = value g →
  (validateField f).1 = (validateField g).1.
Proof.
  intros Ht Hv. unfold validateField. rewrite Ht, Hv.
  destruct (_ || _); reflexivity.
Qed.

Lemma checked_verdict (f : Field) :
  (validateField (checked f)).1 = (validateField f).1.
Proof.
  apply validateField_verdict_ext;
    destruct (validateField_cases f) as [-> | ->]; reflexivity.
Qed.

Lemma Field_eq (f g : Field) :
  type f = type g → value f = value g → defaultValue f = defaultValue g →
  classList f = classList g → attributes f = attributes g →
  focusable f = focusable g → f = g.
Proof. destruct f, g; simpl; intros; subst; reflexivity. Qed.

Lemma checked_idem (f : Field) : checked (checked f) = checked f.
Proof.
  pose proof (checked_verdict f) as Hv.
  destruct (validateField_cases f) as [E | E]; rewrite E in Hv |- *; simpl in *;
    destruct (validateField_cases
                (setAttribute "aria-invalid" "true" (classList_add "is-error" f)))
      as [E' | E'];
    destruct (validateField_cases (clearError f)) as [E'' | E''];
    rewrite ?E', ?E'' in Hv |- *; simpl in Hv |- *; try discriminate;
    apply Field_eq; simpl; try reflexivity.
  - rewrite (assoc_L (∪)), (idemp_L (∪)). reflexivity.
  - apply insert_insert_eq.
  - rewrite (assoc_L (∪)), (idemp_L (∪)). reflexivity.
  - apply insert_insert_eq.
  - apply difference_twice_L.
  - apply delete_delete_eq.
  - apply difference_twice_L.
  - apply delete_delete_eq.
Qed.

Lemma validateAll_snoc (req : list nat) (i : nat) (fs : list Field) :
  validateAll (req ++ [i]) fs =
    match (validateAll req fs).2 !! i with
    | Some field =>
        ((validateAll req fs).1 && (validateField field).1,
         <[i := checked field]> (validateAll req fs).2)
    | None => validateAll req fs
    end.
Proof. unfold validateAll. rewrite foldl_snoc. reflexivity. Qed.

(** Where each control stands after the loop: as it was if it is not one
    of the required ones, validated otherwise. *)
Lemma validateAll_other (req : list nat) (fs : list Field) (j : nat) :
  j ∉ req → (validateAll req fs).2 !! j = fs !! j.
Proof.
  induction req as [|i req IH] using rev_ind; [reflexivity|].
  intros [Hj Hji]%not_elem_of_app. rewrite list_elem_of_singleton in Hji.
  rewrite validateAll_snoc.
  destruct ((validateAll req fs).2 !! i); simpl; auto.
  rewrite list_lookup_insert_ne by congruence. auto.
Qed.

Lemma validateAll_required (req : list nat) (fs : list Field) (j : nat) :
  j ∈ req → (validateAll req fs).2 !! j = (λ f, checked f) <$> fs !! j.
Proof.
  revert j. induction req as [|i req IH] using rev_ind.
  - intros j H. inversion H.
  - intros j Hj. rewrite validateAll_snoc.
    assert ((validateAll req fs).2 !! i = fs !! i
            ∨ (validateAll req fs).2 !! i = (λ f, checked f) <$> fs !! i) as Hi.
    { destruct (decide (i ∈ req)); [right; auto | left].
      apply validateAll_other. assumption. }
    destruct (decide (j = i)) as [-> | Hne].
    + destruct ((validateAll req fs).2 !! i) as [g|] eqn:Hg; simpl.
      * rewrite list_lookup_insert_eq by (eapply lookup_lt_Some; eauto).
        destruct Hi as [Hi | Hi]; destruct (fs !! i) as [f|]; simpl in *;
          try discriminate; injection Hi as ->;
          rewrite ?checked_idem; reflexivity.
      * rewrite Hg.
        destruct Hi as [Hi | Hi]; destruct (fs !! i) as [f|]; simpl in *;
          try discriminate; reflexivity.
    + assert (j ∈ req) as Hj'.
      { apply elem_of_app in Hj as [Hj | Hj]; [assumption|].
        apply list_elem_of_singleton in Hj. contradiction. }
      destruct ((validateAll req fs).2 !! i); simpl; auto.
      rewrite list_lookup_insert_ne by congruence. auto.
Qed.

Lemma validateAll_verdict (req : list nat) (fs : list Field) :
  (validateAll req fs).1 = true ↔
  ∀ i f, i ∈ req → fs !! i = Some f → (validateField f).1 = true.
Proof.
  induction req as [|i req IH] using rev_ind.
  - simpl. split; [|reflexivity]. intros _ i f H. inversion H.
  - rewrite validateAll_snoc.
    assert ((validateAll req fs).2 !! i = fs !! i
            ∨ (validateAll req fs).2 !! i = (λ f, checked f) <$> fs !! i) as Hi.
    { destruct (decide (i ∈ req)); [right | left].
      - apply validateAll_required. assumption.
      - apply validateAll_other. assumption. }
    assert ((∀ j f, j ∈ req ++ [i] → fs !! j = Some f → (validateField f).1 = true)
            ↔ (∀ j f, j ∈ req → fs !! j = Some f → (validateField f).1 = true)
              ∧ (∀ f, fs !! i = Some f → (validateField f).1 = true)) as ->.
    { split.
      - intros H. split; [intros j f Hj | intros f]; apply H;
          rewrite elem_of_app, list_elem_of_singleton; auto.
      - intros [H1 H2] j f [Hj | ->%list_elem_of_singleton]%elem_of_app; eauto. }
    rewrite <- IH.
    destruct ((validateAll req fs).2 !! i) as [g|] eqn:Hg; simpl.
    + assert (∃ f, fs !! i = Some f ∧ (validateField g).1 = (validateField f).1)
        as (f & Hf & Hgf).
      { destruct Hi as [Hi | Hi]; destruct (fs !! i) as [f|]; simpl in *;
          try discriminate; injection Hi as ->; eexists; split;
          eauto using checked_verdict. }
      rewrite andb_true_iff, Hgf, Hf. split.
      * intros [? ?]. split; [assumption|]. intros ? [= <-]. assumption.
      * intros [? H]. split; [assumption|]. apply H. reflexivity.
    + assert (fs !! i = None) as ->.
      { destruct Hi as [Hi | Hi]; destruct (fs !! i); simpl in *; congruence. }
      split; [|tauto]. intros ?. split; [assumption | discriminate].
Qed.

(** A validated field carries the error class exactly when it was rejected. *)
Lemma checked_contains (f : Field) :
  classList_contains "is-error" (checked f) = negb (validateField f).1.
Proof.
  unfold classList_contains.
  destruct (validateField_cases f) as [-> | ->]; simpl.
  - apply bool_decide_eq_true, elem_of_union. left.
    apply elem_of_singleton. reflexivity.
  - apply bool_decide_eq_false. apply clearError_unmarked.
Qed.

Lemma find_first {A} (p : A → bool) (l : list A) (x : A) :
  List.find p l = Some x →
  ∃ pre post, l = pre ++ x :: post ∧ p x = true ∧ ∀ y, y ∈ pre → p y = false.
Proof.
  induction l as [|a l IH]; simpl; [discriminate|].
  destruct (p a) eqn:Ha.
  - intros [= ->]. exists [], l. repeat split; auto. intros y H. inversion H.
  - intros (pre & post & -> & Hx & Hpre)%IH.
    exists (a :: pre), post. repeat split; auto.
    intros y [-> | Hy]%elem_of_cons; auto.
Qed.

Lemma find_nothing {A} (p : A → bool) (l : list A) :
  List.find p l = None → ∀ y, y ∈ l → p y = false.
Proof.
  induction l as [|a l IH]; simpl.
  - intros _ y H. inversion H.
  - destruct (p a) eqn:Ha; [discriminate|].
    intros Hn y [-> | Hy]%elem_of_cons; auto.
Qed.

(** After the loop, [required.find] stops at the first required control
    that was rejected. *)
Lemma first_error_spec (req : list nat) (fs : list Field) :
  (validateAll req fs).1 = false →
  ∃ pre first post f,
    req = pre ++ first :: post ∧ fs !! first = Some f
    ∧ (validateField f).1 = false
    ∧ (∀ j g, j ∈ pre → fs !! j = Some g → (validateField g).1 = true)
    ∧ first_error req (validateAll req fs).2 = Some first.
Proof.
  intros Hv. unfold first_error.
  destruct (List.find _ req) as [first|] eqn:Hfind.
  - apply find_first in Hfind as (pre & post & Hreq & Hp & Hpre).
    assert (∀ j, j = first ∨ j ∈ pre → j ∈ req) as Hin.
    { intros j Hj. rewrite Hreq, elem_of_app, elem_of_cons. tauto. }
    rewrite validateAll_required in Hp by auto.
    destruct (fs !! first) as [f|] eqn:Hf; simpl in Hp; [|discriminate].
    rewrite checked_contains in Hp. apply negb_true_iff in Hp.
    exists pre, first, post, f. repeat split; auto.
    intros j g Hj Hg. specialize (Hpre j Hj).
    rewrite validateAll_required, Hg in Hpre by auto.
    simpl in Hpre. rewrite checked_contains in Hpre.
    apply negb_false_iff in Hpre. assumption.
  - exfalso. apply not_true_iff_false in Hv. apply Hv.
    apply validateAll_verdict. intros i f Hi Hf.
    pose proof (find_nothing _ _ Hfind i Hi) as Hp. simpl in Hp.
    rewrite validateAll_required, Hf in Hp by assumption.
    simpl in Hp. rewrite checked_contains in Hp.
    apply negb_false_iff in Hp. assumption.
Qed.

(** The submit listener always leaves the controls as the loop left them. *)
(** [focus()] changes nothing but the focus. *)
Lemma focus_frame (i : nat) (s : State) :
  fields (focus i s) = fields s
  ∧ submitBtn (focus i s) = submitBtn s
  ∧ successHidden (focus i s) = successHidden s
  ∧ clock (focus i s) = clock s
  ∧ requests (focus i s) = requests s
  ∧ pending (focus i s) = pending s
  ∧ alerts (focus i s) = alerts s
  ∧ scrolls (focus i s) = scrolls s
  ∧ timers (focus i s) = timers s.
Proof.
  unfold focus. destruct (fields s !! i) as [f|]; [destruct (focusable f)|];
    repeat split.
Qed.

Lemma onSubmit_fields (c : Ctx) (s : State) :
  fields (onSubmit c s) = (validateAll (required c) (fields s)).2.
Proof.
  unfold onSubmit.
  destruct (validateAll (required c) (fields s)) as [valid fs]; simpl.
  destruct valid; simpl.
  - destruct (payload fs (clock s)); reflexivity.
  - destruct (first_error (required c) fs) as [first|]; [|reflexivity].
    apply (focus_frame first (set_fields fs s)).
Qed.

Lemma validateField_focusable (f : Field) :
  focusable (validateField f).2 = focusable f.
Proof. destruct (validateField_cases f) as [-> | ->]; reflexivity. Qed.

Lemma onSubmit_invalid (c : Ctx) (s : State) :
  (validateAll (required c) (fields s)).1 = false →
  onSubmit c s =
    match first_error (required c) (validateAll (required c) (fields s)).2 with
    | Some first => focus first (set_fields (validateAll (required c) (fields s)).2 s)
    | None => set_fields (validateAll (required c) (fields s)).2 s
    end.
Proof.
  unfold onSubmit.
  destruct (validateAll (required c) (fields s)) as [valid fs]; simpl.
  intros ->. reflexivity.
Qed.

Lemma checked_marks (f : Field) :
  (validateField f).1 = false → error_indicator (checked f) ∧ aria_invalid (checked f).
Proof.
  destruct (validateField_cases f) as [-> | ->]; simpl; [|discriminate].
  intros _. split.
  - apply elem_of_union. left. apply elem_of_singleton. reflexivity.
  - apply lookup_insert_eq.
Qed.

(** Every required control that is rejected leaves the submit listener
    with its marks. *)
Lemma onSubmit_marks (c : Ctx) (s : State) (i : nat) (f : Field) :
  i ∈ required c → fields s !! i = Some f → (validateField f).1 = false →
  ∃ f', fields (onSubmit c s) !! i = Some f' ∧ error_indicator f' ∧ aria_invalid f'.
Proof.
  intros Hi Hf Hv. exists (checked f).
  rewrite onSubmit_fields, validateAll_required, Hf by assumption.
  split; [reflexivity|]. apply checked_marks. assumption.
Qed.

(** [qsa] answers in document order: in the list of required controls every
    position is greater than the ones before it. *)
Lemma filter_seq_increasing (p : nat → bool) (n a : nat) (pre post : list nat)
    (x : nat) :
  List.filter p (seq a n) = pre ++ x :: post → ∀ j, j ∈ pre → (j < x)%nat.
Proof.
  revert a pre. induction n as [|n IH]; intros a pre; simpl.
  - destruct pre; discriminate.
  - destruct (p a).
    + destruct pre as [|y pre]; simpl.
      * intros _ j Hj. inversion Hj.
      * intros [= <- Hrest] j [-> | Hj]%elem_of_cons; [|eauto].
        assert (x ∈ List.filter p (seq (S a) n)) as Hx
          by (rewrite Hrest, elem_of_app, elem_of_cons; auto).
        apply list_elem_of_In, filter_In in Hx as [Hx%in_seq _]. lia.
    + eauto.
Qed.

Lemma init_required_increasing (d : Document) (now : Z) (c : Ctx)
    (table : list Listener) (s0 : State) (pre post : list nat) (first : nat) :
  initContactForm d now = Installed c table s0 →
  required c = pre ++ first :: post → ∀ j, j ∈ pre → (j < first)%nat.
Proof.
  unfold initContactForm.
  destruct (contactForm d) as [form|]; [|discriminate].
  destruct (formSuccess d); [|discriminate].
  destruct (submitControl form); [|discriminate].
  intros [= <- _ _]. simpl. apply filter_seq_increasing.
Qed.

End ValidateAll.

(** C2. Validate-all answers true exactly when every required control
    validates true on its own; it leaves every required control as its own
    validation leaves it, so that every rejected one is flagged, however
    many there are; and when the answer is false the submit listener calls
    [focus()] on the first rejected control in the order of [required],
    which start-up fills in document order: that control has the focus
    afterwards if it can take it, and the focus stays where it was if it
    cannot. *)
Theorem validateAll_spec (c : Ctx) (s : State) :
  ((validateAll (required c) (fields s)).1 = true ↔
     ∀ i f, i ∈ required c → fields s !! i = Some f → (validateField f).1 = true)
  ∧ (∀ i f, i ∈ required c → fields s !! i = Some f →
       (validateAll (required c) (fields s)).2 !! i = Some (validateField f).2
       ∧ fields (onSubmit c s) !! i = Some (validateField f).2)
  ∧ (∀ i f, i ∈ required c → fields s !! i = Some f → (validateField f).1 = false →
       ∃ f', fields (onSubmit c s) !! i = Some f'
             ∧ error_indicator f' ∧ aria_invalid f')
  ∧ ((validateAll (required c) (fields s)).1 = false →
       ∃ pre first post f,
         required c = pre ++ first :: post
         ∧ fields s !! first = Some f ∧ (validateField f).1 = false
         ∧ (∀ j g, j ∈ pre → fields s !! j = Some g → (validateField g).1 = true)
         ∧ onSubmit c s
           = focus first (set_fields (validateAll (required c) (fields s)).2 s)
         ∧ (focusable f = true → activeElement (onSubmit c s) = Some first)
         ∧ (focusable f = false →
            activeElement (onSubmit c s) = activeElement s))
  ∧ (∀ d now table s0 pre first post,
       initContactForm d now = Installed c table s0 →
       required c = pre ++ first :: post → ∀ j, j ∈ pre → (j < first)%nat).
Proof.
  split; [apply validateAll_verdict|].
  split.
  { intros i f Hi Hf.
    rewrite onSubmit_fields, validateAll_required, Hf by assumption. done. }
  split; [apply onSubmit_marks|].
  split; [|intros d now table s0 pre first post; apply init_required_increasing].
  intros Hv.
  destruct (first_error_spec _ _ Hv)
    as (pre & first & post & f & Hreq & Hf & Hbad & Hpre & Hfirst).
  exists pre, first, post, f.
  assert (first ∈ required c) as Hin
    by (rewrite Hreq, elem_of_app, elem_of_cons; auto).
  assert (fields (set_fields (validateAll (required c) (fields s)).2 s) !! first
          = Some (validateField f).2) as Hlook
    by (simpl; rewrite validateAll_required, Hf by assumption; reflexivity).
  rewrite onSubmit_invalid, Hfirst by assumption.
  repeat split; auto; intros Hfoc; unfold focus;
    rewrite Hlook, validateField_focusable, Hfoc; reflexivity.
Qed.

(** C2 as stated fails on a required control that cannot take the focus:
    with the name control disabled and nothing filled in, the submit
    listener flags that control as the first rejected one and calls
    [focus()] on it, and the focus is where it was. *)
Lemma disabled_control_keeps_focus :
  ∃ c table s0,
    initContactForm Sample.disabled_name Sample.now = Installed c table s0
    ∧ required c = [0; 1; 2; 3]%nat
    ∧ (validateAll (required c) (fields s0)).1 = false
    ∧ first_error (required c) (fields (step c table Submit s0)) = Some 0%nat
    ∧ (classList_contains "is-error" <$> fields (step c table Submit s0))
      = [true; true; true; true; false]
    ∧ activeElement s0 = None
    ∧ activeElement (step c table Submit s0) = None
    ∧ activeElement (step c table Submit s0) ≠ Some 0%nat.
Proof.
  eexists _, _, _. split; [vm_compute; reflexivity|].
  repeat split; try (vm_compute; reflexivity).
  vm_compute. discriminate.
Qed.

(** C3. When validation of the required controls fails, the submit listener
    stops there: no request is issued and none is in flight that was not,
    the submit control is as it was (neither disabled nor relabelled), no
    alert is shown, and every rejected control carries its error marks. *)
Theorem submit_invalid_aborts (c : Ctx) (s : State) :
  (validateAll (required c) (fields s)).1 = false →
  requests (onSubmit c s) = requests s
  ∧ pending (onSubmit c s) = pending s
  ∧ submitBtn (onSubmit c s) = submitBtn s
  ∧ alerts (onSubmit c s) = alerts s
  ∧ (∀ i f, i ∈ required c → fields s !! i = Some f → (validateField f).1 = false →
       ∃ f', fields (onSubmit c s) !! i = Some f'
             ∧ error_indicator f' ∧ aria_invalid f').
Proof.
  intros Hv. repeat split; try apply onSubmit_marks;
    rewrite onSubmit_invalid by assumption;
    destruct (first_error _ _) as [first|]; try reflexivity;
    apply (focus_frame first (set_fields (validateAll (required c) (fields s)).2 s)).
Qed.

(** ** The sample page *)

Example sample_init :
  initContactForm
    (Sample.page (lit "Alice ") (lit "a@b.com") (lit "Acme") (lit "Need a site")
       (lit "1000")) Sample.now
  = Installed Sample.ctx (listeners Sample.ctx) Sample.filled.
Proof. vm_compute. reflexivity. Qed.

(** Two rejected controls are both flagged, and the first has the focus. *)
Example two_invalid_both_flagged :
  let s := onSubmit Sample.ctx
             (Sample.state [] (lit "nobody") (lit "Acme") (lit "x") [] 0) in
  (classList_contains "is-error" <$> fields s) = [true; true; false; false; false]
  ∧ activeElement s = Some 0%nat
  ∧ requests s = [].
Proof. vm_compute. auto. Qed.

(** The spec's scenario 8: an email without an at sign. *)
Example invalid_email_scenario :
  let s := step Sample.ctx (listeners Sample.ctx) Submit Sample.bad_email in
  requests s = []
  ∧ (classList_contains "is-error" <$> fields s) = [false; true; false; false; false]
  ∧ activeElement s = Some 1%nat
  ∧ submitBtn s = submitBtn Sample.bad_email.
Proof. vm_compute. auto. Qed.

Lemma submit_invalid_aborts_witness :
  requests (onSubmit Sample.ctx Sample.bad_email) = requests Sample.bad_email
  ∧ pending (onSubmit Sample.ctx Sample.bad_email) = pending Sample.bad_email
  ∧ submitBtn (onSubmit Sample.ctx Sample.bad_email) = submitBtn Sample.bad_email
  ∧ alerts (onSubmit Sample.ctx Sample.bad_email) = alerts Sample.bad_email
  ∧ (∀ i f, i ∈ required Sample.ctx → fields Sample.bad_email !! i = Some f →
       (validateField f).1 = false →
       ∃ f', fields (onSubmit Sample.ctx Sample.bad_email) !! i = Some f'
             ∧ error_indicator f' ∧ aria_invalid f').
Proof.
  apply (submit_invalid_aborts Sample.ctx Sample.bad_email).
  vm_compute. reflexivity.
Defined.

(** ** The request *)

Section Payload.

(** Validation leaves the id and the value of a control alone. *)
Lemma checked_has_id (ident : string) (f : Field) :
  has_id ident (validateField f).2 = has_id ident f.
Proof.
  unfold has_id.
  destruct (validateField_cases f) as [-> | ->]; simpl.
  - rewrite lookup_insert_ne by discriminate. reflexivity.
  - rewrite lookup_delete_ne by discriminate. reflexivity.
Qed.

Lemma checked_value (f : Field) : value (validateField f).2 = value f.
Proof. destruct (validateField_cases f) as [-> | ->]; reflexivity. Qed.

Lemma same_entries_refl (fs : list Field) : same_entries fs fs.
Proof. apply Forall2_lookup. intros i. destruct (fs !! i); constructor. auto. Qed.

Lemma same_entries_value_of (ident : string) (fs gs : list Field) :
  same_entries fs gs → value_of ident gs = value_of ident fs.
Proof.
  unfold value_of. induction 1 as [|f g fs gs [Hid Hv] _ IH]; [reflexivity|].
  simpl. rewrite Hid. destruct (has_id ident f); simpl; congruence.
Qed.

Lemma validateAll_same_entries (req : list nat) (fs : list Field) :
  same_entries fs (validateAll req fs).2.
Proof.
  induction req as [|i req IH] using rev_ind; [apply same_entries_refl|].
  rewrite validateAll_snoc.
  destruct ((validateAll req fs).2 !! i) as [g|] eqn:Hg; simpl; [|assumption].
  unfold same_entries in *.
  destruct (Forall2_lookup_r _ _ _ _ _ IH Hg) as (f & Hf & Hid & Hv).
  assert ((∀ ident, has_id ident (validateField g).2 = has_id ident f)
          ∧ value (validateField g).2 = value f) as Hfg.
  { split.
    - intros ident. rewrite checked_has_id. auto.
    - rewrite checked_value. assumption. }
  pose proof (Forall2_insert _ _ _ _ _ i IH Hfg) as H.
  rewrite list_insert_id in H by assumption. exact H.
Qed.

Lemma onSubmit_valid (c : Ctx) (s : State) :
  (validateAll (required c) (fields s)).1 = true →
  onSubmit c s =
    let s' := set_fields (validateAll (required c) (fields s)).2 s in
    match payload (fields s) (clock s) with
    | Some request => fetch request (setSubmitting c true s')
    | None => s'
    end.
Proof.
  intros Hv. unfold onSubmit, payload.
  pose proof (validateAll_same_entries (required c) (fields s)) as Hsame.
  destruct (validateAll (required c) (fields s)) as [valid fs]; simpl in *.
  subst valid. simpl.
  rewrite !(same_entries_value_of _ _ _ Hsame). reflexivity.
Qed.

Example toISOString_epoch :
  JsDate.toISOString 0 = lit "1970-01-01T00:00:00.000Z".
Proof. vm_compute. reflexivity. Qed.

Example toISOString_leap_day :
  JsDate.toISOString 1709251199999 = lit "2024-02-29T23:59:59.999Z".
Proof. vm_compute. reflexivity. Qed.

Example toISOString_before_epoch :
  JsDate.toISOString (-1) = lit "1969-12-31T23:59:59.999Z".
Proof. vm_compute. reflexivity. Qed.

Example toISOString_latest :
  JsDate.toISOString 8640000000000000 = lit "+275760-09-13T00:00:00.000Z".
Proof. vm_compute. reflexivity. Qed.

Lemma is_digit_digit (n : Z) : JsDate.is_digit (JsDate.digit n) = true.
Proof.
  unfold JsDate.is_digit, JsDate.digit.
  pose proof (Z.mod_pos_bound n 10 eq_refl).
  apply andb_true_iff. split; apply N.leb_le; lia.
Qed.

(** Whatever the clock reads, the text has the shape of an ISO-8601 date
    and time in UTC. *)
Lemma toISOString_shape (t : Z) : JsDate.is_iso8601 (JsDate.toISOString t) = true.
Proof.
  unfold JsDate.is_iso8601, JsDate.toISOString.
  destruct (JsDate.civil _) as [[y m] d].
  unfold JsDate.year, JsDate.pad6, JsDate.pad4, JsDate.pad3, JsDate.pad2.
  apply orb_true_iff.
  destruct (_ && _); [left | right; destruct (y <? 0)%Z];
    cbn [app fmap list_fmap lit list_ascii_of_string JsDate.shaped Ascii.eqb
         Bool.eqb N_of_ascii N_of_digits];
    rewrite !is_digit_digit; reflexivity.
Qed.

End Payload.

(** C4, as the script has it. On a submit where every required control
    validates, on a page that has the five controls [#cname], [#cemail],
    [#cbusiness], [#cdesc] and [#cbudget], exactly one request is issued, a
    POST whose JSON body has the properties name, email, business,
    description, budget, timestamp, _replyto and _subject: name, email,
    business and description are the trimmed values of their controls,
    budget is the value of its control as it is, timestamp is the ISO-8601
    text of the clock at the call, _replyto is the trimmed email and
    _subject is the fixed prefix followed by the trimmed business. *)
Theorem submit_valid_posts (c : Ctx) (s : State)
    (name email business description budget : list N) :
  (validateAll (required c) (fields s)).1 = true →
  value_of "cname" (fields s) = Some name →
  value_of "cemail" (fields s) = Some email →
  value_of "cbusiness" (fields s) = Some business →
  value_of "cdesc" (fields s) = Some description →
  value_of "cbudget" (fields s) = Some budget →
  requests (onSubmit c s) = requests s ++
    [mkRequest endpoint "POST"
       [("Content-Type", "application/json"); ("Accept", "application/json")]%string
       (JObject
          [(lit "name", JString (trim name));
           (lit "email", JString (trim email));
           (lit "business", JString (trim business));
           (lit "description", JString (trim description));
           (lit "budget", JString budget);
           (lit "timestamp", JString (JsDate.toISOString (clock s)));
           (lit "_replyto", JString (trim email));
           (lit "_subject", JString (subject_prefix ++ trim business))])]
  ∧ pending (onSubmit c s) = pending s ++ [length (requests s)]
  ∧ JsDate.is_iso8601 (JsDate.toISOString (clock s)) = true.
Proof.
  intros Hv Hname Hemail Hbusiness Hdesc Hbudget.
  rewrite onSubmit_valid by assumption.
  unfold payload. rewrite Hname, Hemail, Hbusiness, Hdesc, Hbudget. simpl.
  repeat split. apply toISOString_shape.
Qed.

Lemma submit_valid_posts_witness :
  requests (onSubmit Sample.ctx Sample.filled) =
    [mkRequest endpoint "POST"
       [("Content-Type", "application/json"); ("Accept", "application/json")]%string
       (JObject
          [(lit "name", JString (lit "Alice"));
           (lit "email", JString (lit "a@b.com"));
           (lit "business", JString (lit "Acme"));
           (lit "description", JString (lit "Need a site"));
           (lit "budget", JString (lit "1000"));
           (lit "timestamp", JString (lit "2023-11-14T22:13:20.000Z"));
           (lit "_replyto", JString (lit "a@b.com"));
           (lit "_subject", JString (subject_prefix ++ lit "Acme"))])]
  ∧ pending (onSubmit Sample.ctx Sample.filled) = [0%nat].
Proof.
  destruct (submit_valid_posts Sample.ctx Sample.filled
              (lit "Alice ") (lit "a@b.com") (lit "Acme") (lit "Need a site")
              (lit "1000")) as (Hreq & Hpending & _);
    try (vm_compute; reflexivity).
  split; [exact Hreq | exact Hpending].
Defined.

(** C4 as stated fails on the budget: the value of [#cbudget] goes into the
    body with its surrounding spaces. *)
Lemma budget_sent_untrimmed :
  (validateAll (required Sample.ctx) (fields Sample.padded_budget)).1 = true
  ∧ value_of "cbudget" (fields Sample.padded_budget) = Some (lit " 1000 ")
  ∧ trim (lit " 1000 ") = lit "1000"
  ∧ ∃ r, requests (onSubmit Sample.ctx Sample.padded_budget) = [r]
         ∧ own_property (lit "budget") (properties (body r))
           = Some (JString (lit " 1000 "))
         ∧ own_property (lit "budget") (properties (body r))
           ≠ Some (JString (trim (lit " 1000 "))).
Proof.
  repeat split; try (vm_compute; reflexivity).
  eexists. split; [vm_compute; reflexivity|].
  split; [vm_compute; reflexivity|].
  vm_compute. discriminate.
Qed.

(** ** The end of a fetch *)

Section Outcomes.

Lemma cloneNode_id : ∀ n, cloneNode n = n.
Proof.
  fix IH 1. intros [data | tag children]; simpl; [reflexivity|].
  f_equal. induction children as [|n children IHc]; simpl; [reflexivity|].
  rewrite IH, IHc. reflexivity.
Qed.

Lemma map_cloneNode (ns : list Node) : map cloneNode ns = ns.
Proof. induction ns as [|n ns IH]; simpl; [|rewrite cloneNode_id, IH]; reflexivity. Qed.

(** The chain runs the branch that [outcome] names, and nothing else. *)
Lemma onSettled_branch (c : Ctx) (r : FetchResult) (s : State) :
  onSettled c r s = branch (outcome r) c s.
Proof.
  destruct r as [|[data|]]; simpl; try reflexivity.
  unfold onData. destruct (get_ok data) as [ok|]; [|reflexivity].
  destruct (toBoolean ok); reflexivity.
Qed.

Lemma get_ok_throws (data : Json) : get_ok data = Throw ↔ data = JNull.
Proof. destruct data; simpl; split; congruence. Qed.

Lemma onRejection_restored (c : Ctx) (s : State) :
  restored c s (onRejection c s)
  ∧ alerts (onRejection c s) = alerts s ++ [rejection_message].
Proof. unfold restored. simpl. rewrite map_cloneNode. repeat split. Qed.

Lemma onCatch_restored (c : Ctx) (s : State) :
  restored c s (onCatch c s)
  ∧ alerts (onCatch c s) = alerts s ++ [network_message].
Proof. unfold restored. simpl. rewrite map_cloneNode. repeat split. Qed.

Lemma messages_differ : rejection_message ≠ network_message.
Proof. vm_compute. discriminate. Qed.

(** The loop of line 233 touches the controls only. *)
Lemma clear_all_fields (req : list nat) (s : State) :
  foldl (λ s i, set_fields (alter clearError i (fields s)) s) s req
  = set_fields (foldl (λ fs i, alter clearError i fs) (fields s) req) s.
Proof.
  revert s. induction req as [|i req IH]; intros s; simpl.
  - destruct s; reflexivity.
  - rewrite IH. reflexivity.
Qed.

Lemma clearError_idem (f : Field) : clearError (clearError f) = clearError f.
Proof.
  apply Field_eq; simpl; try reflexivity.
  - apply difference_twice_L.
  - apply delete_delete_eq.
Qed.

Lemma clear_all_lookup (req : list nat) (fs : list Field) (j : nat) :
  foldl (λ fs i, alter clearError i fs) fs req !! j
  = if decide (j ∈ req) then clearError <$> fs !! j else fs !! j.
Proof.
  induction req as [|i req IH] using rev_ind.
  - rewrite decide_False by apply not_elem_of_nil. reflexivity.
  - rewrite foldl_snoc. destruct (decide (j = i)) as [-> | Hne].
    + rewrite list_lookup_alter_eq, IH.
      rewrite (decide_True (P := i ∈ req ++ [i]))
        by (apply elem_of_app; right; apply list_elem_of_singleton; reflexivity).
      destruct (decide (i ∈ req)); destruct (fs !! i); simpl;
        rewrite ?clearError_idem; reflexivity.
    + rewrite list_lookup_alter_ne, IH by congruence.
      destruct (decide (j ∈ req)) as [Hj | Hj].
      * rewrite decide_True by (apply elem_of_app; auto). reflexivity.
      * rewrite decide_False; [reflexivity|].
        intros [? | ?%list_elem_of_singleton]%elem_of_app; contradiction.
Qed.

(** The page after the success branch, component by component. *)
Lemma onSuccess_state (c : Ctx) (s : State) :
  onSuccess c s =
    mkState (foldl (λ fs i, alter clearError i fs) (reset <$> fields s) (required c))
      (mkButton false (btnSnapshot c)) false (activeElement s) (clock s)
      (requests s) (pending s) (alerts s) (S (scrolls s))
      (timers s ++ [((clock s + 8000)%Z, HideSuccess)]).
Proof.
  unfold onSuccess. rewrite clear_all_fields.
  unfold setTimeout, scrollIntoView, set_successHidden, setSubmitting,
    set_submitBtn, form_reset, set_fields. simpl.
  rewrite map_cloneNode. reflexivity.
Qed.

End Outcomes.

(** C6. When the chain ends in the rejection branch or in the handler of
    [.catch], the submit control is enabled again with the children it had
    at start-up and one alert is shown, a different text in each of the two
    cases; the controls keep their contents and their marks, the success
    message keeps its visibility and nothing else on the page moves. *)
Theorem failure_outcomes (c : Ctx) (s : State) :
  (∀ r, outcome r = RemoteRejection →
     restored c s (onSettled c r s)
     ∧ alerts (onSettled c r s) = alerts s ++ [rejection_message])
  ∧ (∀ r, outcome r = NetworkFailure →
       restored c s (onSettled c r s)
       ∧ alerts (onSettled c r s) = alerts s ++ [network_message])
  ∧ rejection_message ≠ network_message
  ∧ (∀ d now table s0, initContactForm d now = Installed c table s0 →
       btnSnapshot c = childNodes (submitBtn s0)).
Proof.
  split; [|split; [|split]].
  - intros r Hr. rewrite onSettled_branch, Hr. apply onRejection_restored.
  - intros r Hr. rewrite onSettled_branch, Hr. apply onCatch_restored.
  - apply messages_differ.
  - intros d now table s0. unfold initContactForm.
    destruct (contactForm d) as [form|]; [|discriminate].
    destruct (formSuccess d); [|discriminate].
    destruct (submitControl form); [|discriminate].
    intros [= <- _ <-]. simpl. apply map_cloneNode.
Qed.

(** The spec's scenarios 6 and 7 on the sample page. *)
Example rejection_scenario :
  let s := steps Sample.ctx (listeners Sample.ctx)
             [Submit; Settle 0 (Response (Some (ok_object (JBool false))))]
             Sample.filled in
  alerts s = [rejection_message]
  ∧ (value <$> fields s) = (value <$> fields Sample.filled)
  ∧ submitBtn s = submitBtn Sample.filled
  ∧ successHidden s = true.
Proof. vm_compute. auto. Qed.

Example network_failure_scenario :
  let s := steps Sample.ctx (listeners Sample.ctx)
             [Submit; Settle 0 NetworkError] Sample.filled in
  alerts s = [network_message]
  ∧ (value <$> fields s) = (value <$> fields Sample.filled)
  ∧ submitBtn s = submitBtn Sample.filled
  ∧ successHidden s = true.
Proof. vm_compute. auto. Qed.

(** C7, as the script has it. The chain runs the success branch exactly
    when the body parses as JSON to a value other than [null] whose [ok] is
    truthy; it runs the rejection branch exactly when the body parses to a
    value other than [null] whose [ok] is missing or falsy; and it runs the
    handler of [.catch] exactly when the fetch fails, the body is not JSON,
    or the body is the JSON [null]. *)
Theorem outcome_spec (r : FetchResult) :
  (∀ c s, onSettled c r s = branch (outcome r) c s)
  ∧ (outcome r = Success ↔
       ∃ data ok, r = Response (Some data) ∧ get_ok data = Normal ok
                  ∧ toBoolean ok = true)
  ∧ (outcome r = RemoteRejection ↔
       ∃ data ok, r = Response (Some data) ∧ get_ok data = Normal ok
                  ∧ toBoolean ok = false)
  ∧ (outcome r = NetworkFailure ↔
       r = NetworkError ∨ r = Response None ∨ r = Response (Some JNull)).
Proof.
  split; [intros c s; apply onSettled_branch|].
  destruct r as [|[data|]]; simpl.
  - repeat split; try discriminate; auto;
      intros (? & ? & ? & _); discriminate.
  - destruct (get_ok data) as [ok|] eqn:Hok.
    + assert (data ≠ JNull) as Hnn by (intros ->; discriminate).
      destruct (toBoolean ok) eqn:Hb; repeat split; try discriminate; eauto;
        try (intros (d' & ok' & [= <-] & Hok' & Hb'); congruence);
        intros [? | [? | [= ?]]]; congruence.
    + apply get_ok_throws in Hok as ->.
      repeat split; try discriminate; auto;
        intros (d' & ok' & [= <-] & Hok' & _); discriminate.
  - repeat split; try discriminate; auto;
      intros (? & ? & ? & _); discriminate.
Qed.

(** C7 as stated fails twice: a body that is not JSON ends in the handler
    of [.catch], with the alert about the connection, and an [ok] that is
    not a boolean but truthy ends in the success branch. *)
Lemma non_json_is_network_failure :
  outcome (Response None) = NetworkFailure
  ∧ alerts (steps Sample.ctx (listeners Sample.ctx)
              [Submit; Settle 0 (Response None)] Sample.filled)
    = [network_message]
  ∧ outcome (Response (Some (ok_object (JNumber 1)))) = Success
  ∧ outcome (Response (Some (ok_object (JString (lit "no"))))) = Success.
Proof. vm_compute. auto. Qed.

(** ** Events *)

Section Events.

Lemma set_fields_id (s : State) : set_fields (fields s) s = s.
Proof. destruct s; reflexivity. Qed.

Lemma reaction_idem (ty : EventType) (f : Field) :
  reaction ty (reaction ty f) = reaction ty f.
Proof. destruct ty; simpl; auto using checked_idem, clearError_idem. Qed.

Lemma alter_reaction_twice (ty : EventType) (i : nat) (fs : list Field) :
  alter (reaction ty) i (alter (reaction ty) i fs) = alter (reaction ty) i fs.
Proof.
  rewrite list_alter_alter_eq. apply list_alter_ext; [|reflexivity].
  intros f _. apply reaction_idem.
Qed.

Lemma react_cons (j : nat) (req : list nat) (ty : EventType) (i : nat)
    (fs : list Field) :
  react (j :: req) ty i fs
  = react req ty i (if decide (j = i) then alter (reaction ty) i fs else fs).
Proof.
  unfold react. destruct (decide (j = i)) as [-> | Hne].
  - rewrite decide_True by (apply elem_of_cons; auto).
    destruct (decide (i ∈ req)); [rewrite alter_reaction_twice|]; reflexivity.
  - destruct (decide (i ∈ req)) as [Hi | Hi].
    + rewrite decide_True by (apply elem_of_cons; auto). reflexivity.
    + rewrite decide_False; [reflexivity|].
      intros [-> | ?]%elem_of_cons; contradiction.
Qed.

(** An event at a control meets the listeners of lines 188 and 189. *)
Lemma dispatch_fields_part (c : Ctx) (req : list nat) (i : nat) (ty : EventType)
    (s : State) :
  ty ≠ submit →
  dispatch c
    (flat_map (λ i, [(OnField i, blur, do_validateField i);
                     (OnField i, input, do_clearError i)]) req)
    (OnField i) ty s
  = set_fields (react req ty i (fields s)) s.
Proof.
  intros Hty. revert s. induction req as [|j req IH]; intros s.
  - unfold react. rewrite decide_False by apply not_elem_of_nil.
    simpl. symmetry. apply set_fields_id.
  - rewrite react_cons. unfold dispatch in *. simpl flat_map.
    cbn [foldl app]. simpl fst. simpl snd.
    destruct (decide (j = i)) as [-> | Hne]; destruct ty; try contradiction.
    + rewrite (decide_False (P := OnField i = OnField i ∧ input = blur))
        by (intros [_ ?]; discriminate).
      rewrite (decide_True (P := OnField i = OnField i ∧ blur = blur)) by done.
      rewrite IH. reflexivity.
    + rewrite (decide_False (P := OnField i = OnField i ∧ blur = input))
        by (intros [_ ?]; discriminate).
      rewrite (decide_True (P := OnField i = OnField i ∧ input = input)) by done.
      rewrite IH. reflexivity.
    + rewrite !decide_False by (intros [[= ?] _]; contradiction).
      rewrite IH. reflexivity.
    + rewrite !decide_False by (intros [[= ?] _]; contradiction).
      rewrite IH. reflexivity.
Qed.

Lemma dispatch_fields_part_form (c : Ctx) (req : list nat) (ty : EventType)
    (s : State) :
  dispatch c
    (flat_map (λ i, [(OnField i, blur, do_validateField i);
                     (OnField i, input, do_clearError i)]) req)
    OnForm ty s
  = s.
Proof.
  revert s. induction req as [|j req IH]; intros s; [reflexivity|].
  unfold dispatch in *. simpl flat_map. cbn [foldl app]. simpl fst.
  rewrite !decide_False by (intros [? _]; discriminate).
  apply IH.
Qed.

Lemma dispatch_app (c : Ctx) (t1 t2 : list Listener) (t : Target)
    (ty : EventType) (s : State) :
  dispatch c (t1 ++ t2) t ty s = dispatch c t2 t ty (dispatch c t1 t ty s).
Proof. unfold dispatch. apply foldl_app. Qed.

(** A blur or an input at control [i] validates or clears it if it is a
    required one, and does nothing else. *)
Lemma dispatch_field (c : Ctx) (i : nat) (ty : EventType) (s : State) :
  ty ≠ submit →
  dispatch c (listeners c) (OnField i) ty s
  = set_fields (react (required c) ty i (fields s)) s.
Proof.
  intros Hty. unfold listeners.
  rewrite dispatch_app, dispatch_fields_part by assumption.
  reflexivity.
Qed.

(** A submit at the form runs the listener of line 192, once. *)
Lemma dispatch_submit (c : Ctx) (s : State) :
  dispatch c (listeners c) OnForm submit s = onSubmit c s.
Proof.
  unfold listeners. rewrite dispatch_app, dispatch_fields_part_form.
  reflexivity.
Qed.

Lemma react_lookup (req : list nat) (ty : EventType) (i j : nat)
    (fs : list Field) :
  react req ty i fs !! j
  = if decide (j = i ∧ i ∈ req) then reaction ty <$> fs !! j else fs !! j.
Proof.
  unfold react. destruct (decide (i ∈ req)) as [Hi | Hi].
  - destruct (decide (j = i)) as [-> | Hne].
    + rewrite decide_True by done. apply list_lookup_alter_eq.
    + rewrite decide_False by (intros [? _]; contradiction).
      apply list_lookup_alter_ne. congruence.
  - rewrite decide_False by (intros [_ ?]; contradiction). reflexivity.
Qed.

End Events.

(** ** What each event moves *)

Section Steps.

Lemma step_Blur (c : Ctx) (i : nat) (s : State) :
  step c (listeners c) (Blur i) s
  = set_fields (react (required c) blur i (fields s)) s.
Proof. simpl. apply dispatch_field. discriminate. Qed.

Lemma step_Input (c : Ctx) (i : nat) (v : list N) (s : State) :
  step c (listeners c) (Input i v) s
  = set_fields (react (required c) input i (alter (set_value v) i (fields s))) s.
Proof. simpl. rewrite dispatch_field by discriminate. reflexivity. Qed.

Lemma step_Submit (c : Ctx) (s : State) :
  step c (listeners c) Submit s = onSubmit c s.
Proof. apply dispatch_submit. Qed.

Lemma steps_snoc (c : Ctx) (table : list Listener) (es : list Event) (e : Event)
    (s : State) :
  steps c table (es ++ [e]) s = step c table e (steps c table es s).
Proof. unfold steps. rewrite foldl_snoc. reflexivity. Qed.

(** The submit listener leaves the success message, the alerts, the timers
    and the clock alone. *)
Lemma onSubmit_frame (c : Ctx) (s : State) :
  successHidden (onSubmit c s) = successHidden s
  ∧ alerts (onSubmit c s) = alerts s
  ∧ scrolls (onSubmit c s) = scrolls s
  ∧ timers (onSubmit c s) = timers s
  ∧ clock (onSubmit c s) = clock s.
Proof.
  unfold onSubmit.
  destruct (validateAll (required c) (fields s)) as [[] fs]; simpl.
  - destruct (payload fs (clock s)); repeat split.
  - destruct (first_error (required c) fs) as [first|]; [|repeat split].
    destruct (focus_frame first (set_fields fs s))
      as (_ & _ & -> & -> & _ & _ & -> & -> & ->).
    repeat split.
Qed.

Lemma run_timers (due : list (Z * Timer)) (s : State) :
  foldl (λ s t, run_timer t.2 s) s due
  = match due with [] => s | _ :: _ => set_successHidden true s end.
Proof.
  revert s. induction due as [|[t []] due IH]; intros s; [reflexivity|].
  simpl. rewrite IH. destruct due; reflexivity.
Qed.

(** Time passing moves the clock, runs the timers that are due, each of
    which hides the success message, and keeps the others. *)
Lemma advance_state (dt : N) (s : State) :
  advance dt s =
    let now := (clock s + Z.of_N dt)%Z in
    mkState (fields s) (submitBtn s)
      (match filter (λ t, (t.1 ≤ now)%Z) (timers s) with
       | [] => successHidden s
       | _ :: _ => true
       end)
      (activeElement s) now (requests s) (pending s) (alerts s) (scrolls s)
      (filter (λ t, ¬ (t.1 ≤ now)%Z) (timers s)).
Proof.
  unfold advance. rewrite run_timers. simpl.
  destruct (filter _ (timers s)); reflexivity.
Qed.

Lemma advance_fires (dt : N) (s : State) (t : Z * Timer) :
  t ∈ timers s → (t.1 ≤ clock s + Z.of_N dt)%Z →
  successHidden (advance dt s) = true ∧ t ∉ timers (advance dt s).
Proof.
  intros Ht Hdue. rewrite advance_state. simpl. split.
  - assert (t ∈ filter (λ t, (t.1 ≤ clock s + Z.of_N dt)%Z) (timers s)) as Hin
      by (apply list_elem_of_filter; auto).
    destruct (filter _ (timers s)); [inversion Hin | reflexivity].
  - intros [Hn _]%list_elem_of_filter. contradiction.
Qed.

Lemma advance_keeps (dt : N) (s : State) (t : Z * Timer) :
  t ∈ timers s → (clock s + Z.of_N dt < t.1)%Z → t ∈ timers (advance dt s).
Proof.
  intros Ht Hlt. rewrite advance_state. simpl.
  apply list_elem_of_filter. split; [lia | assumption].
Qed.

(** The branches leave the clock alone and cancel no timer. *)
Lemma branch_frame (o : Outcome) (c : Ctx) (s : State) :
  clock (branch o c s) = clock s
  ∧ (∀ t, t ∈ timers s → t ∈ timers (branch o c s))
  ∧ requests (branch o c s) = requests s
  ∧ pending (branch o c s) = pending s
  ∧ disabled (submitBtn (branch o c s)) = false.
Proof.
  destruct o; unfold branch; [rewrite onSuccess_state|..]; simpl;
    repeat split; auto.
  intros t Ht. apply elem_of_app. auto.
Qed.

Lemma step_Settle (c : Ctx) (table : list Listener) (k : nat) (r : FetchResult)
    (s : State) :
  step c table (Settle k r) s =
    if decide (k ∈ pending s)
    then branch (outcome r) c (set_pending (filter (λ j, j ≠ k) (pending s)) s)
    else s.
Proof. simpl. destruct (decide _); [apply onSettled_branch | reflexivity]. Qed.

(** The clock never runs backwards. *)
Lemma step_clock (c : Ctx) (e : Event) (s : State) :
  (clock s ≤ clock (step c (listeners c) e s))%Z.
Proof.
  destruct e as [i | i v | | k r | dt].
  - rewrite step_Blur. reflexivity.
  - rewrite step_Input. reflexivity.
  - rewrite step_Submit. destruct (onSubmit_frame c s) as (_ & _ & _ & _ & ->).
    reflexivity.
  - rewrite step_Settle. destruct (decide _); [|reflexivity].
    destruct (branch_frame (outcome r) c
                (set_pending (filter (λ j, j ≠ k) (pending s)) s)) as (-> & _).
    reflexivity.
  - simpl. rewrite advance_state. simpl. lia.
Qed.

(** No event removes a timer that is not yet due. *)
Lemma step_keeps_timer (c : Ctx) (e : Event) (s : State) (t : Z * Timer) :
  t ∈ timers s → (clock (step c (listeners c) e s) < t.1)%Z →
  t ∈ timers (step c (listeners c) e s).
Proof.
  intros Ht. destruct e as [i | i v | | k r | dt].
  - rewrite step_Blur. auto.
  - rewrite step_Input. auto.
  - rewrite step_Submit. destruct (onSubmit_frame c s) as (_ & _ & _ & -> & _).
    auto.
  - rewrite step_Settle. destruct (decide _); [|auto].
    intros _. apply branch_frame. assumption.
  - simpl. intros Hlt. apply advance_keeps; [assumption|].
    rewrite advance_state in Hlt. simpl in Hlt. assumption.
Qed.

Lemma steps_keep_timer (c : Ctx) (es : list Event) (s : State) (t : Z * Timer) :
  t ∈ timers s → (clock (steps c (listeners c) es s) < t.1)%Z →
  t ∈ timers (steps c (listeners c) es s).
Proof.
  intros Ht. induction es as [|e es IH] using rev_ind; [auto|].
  rewrite steps_snoc. intros Hlt.
  apply step_keeps_timer; [|assumption]. apply IH.
  pose proof (step_clock c e (steps c (listeners c) es s)). lia.
Qed.

End Steps.

(** ** The success branch *)

Section SuccessBranch.

Lemma onSuccess_lookup (c : Ctx) (s : State) (i : nat) :
  fields (onSuccess c s) !! i
  = if decide (i ∈ required c)
    then (λ f, clearError (reset f)) <$> fields s !! i
    else reset <$> fields s !! i.
Proof.
  rewrite onSuccess_state. simpl. rewrite clear_all_lookup, list_lookup_fmap.
  destruct (decide _); destruct (fields s !! i); reflexivity.
Qed.

End SuccessBranch.

(** C5, as the script has it. The success branch, the one the chain runs
    when the remote reports ok, gives every control of the form its default
    value back (the empty text where the markup gives none), leaves every
    required control without error marks, enables the submit control with
    the children it had at start-up, shows the success message, scrolls it
    into view once and sets a timer that is due 8000 ms later. No sequence
    of events removes that timer before it is due, and once due it hides
    the message, whatever has happened since. *)
Theorem success_outcome (c : Ctx) (s : State) :
  (∀ r, outcome r = Success → onSettled c r s = onSuccess c s)
  ∧ (∀ i f, fields s !! i = Some f →
       ∃ f', fields (onSuccess c s) !! i = Some f' ∧ value f' = defaultValue f)
  ∧ (∀ i f, fields s !! i = Some f → defaultValue f = [] →
       ∃ f', fields (onSuccess c s) !! i = Some f' ∧ value f' = [])
  ∧ (∀ i f', i ∈ required c → fields (onSuccess c s) !! i = Some f' → unmarked f')
  ∧ submitBtn (onSuccess c s) = mkButton false (btnSnapshot c)
  ∧ successHidden (onSuccess c s) = false
  ∧ scrolls (onSuccess c s) = S (scrolls s)
  ∧ timers (onSuccess c s) = timers s ++ [((clock s + 8000)%Z, HideSuccess)]
  ∧ alerts (onSuccess c s) = alerts s
  ∧ requests (onSuccess c s) = requests s
  ∧ (∀ es, (clock (steps c (listeners c) es (onSuccess c s)) < clock s + 8000)%Z →
       ((clock s + 8000)%Z, HideSuccess)
         ∈ timers (steps c (listeners c) es (onSuccess c s)))
  ∧ (∀ s' dt, ((clock s + 8000)%Z, HideSuccess) ∈ timers s' →
       (clock s + 8000 ≤ clock s' + Z.of_N dt)%Z →
       successHidden (advance dt s') = true).
Proof.
  assert (∀ i f, fields s !! i = Some f →
            ∃ f', fields (onSuccess c s) !! i = Some f'
                  ∧ value f' = defaultValue f) as Hreset.
  { intros i f Hf. rewrite onSuccess_lookup, Hf.
    destruct (decide _); eexists; split; reflexivity. }
  split; [intros r Hr; rewrite onSettled_branch, Hr; reflexivity|].
  split; [exact Hreset|].
  split.
  { intros i f Hf Hd. destruct (Hreset i f Hf) as (f' & ? & ?).
    exists f'. split; congruence. }
  split.
  { intros i f' Hi. rewrite onSuccess_lookup, decide_True by assumption.
    destruct (fields s !! i); simpl; [|discriminate].
    intros [= <-]. apply clearError_unmarked. }
  rewrite onSuccess_state. simpl.
  repeat split.
  - intros es Hlt. rewrite <- onSuccess_state in *.
    apply steps_keep_timer; [|assumption].
    rewrite onSuccess_state. simpl. apply elem_of_app. right.
    apply list_elem_of_singleton. reflexivity.
  - intros s' dt Ht Hdue. eapply advance_fires; eauto.
Qed.

(** The spec's happy path on the sample page: the controls are empty again,
    the message shows, and 8000 ms later it is hidden. *)
Example happy_path :
  let s := steps Sample.ctx (listeners Sample.ctx) [Submit; Settle 0 ok_true]
             Sample.filled in
  (value <$> fields s) = [[]; []; []; []; []]
  ∧ successHidden s = false
  ∧ submitBtn s = submitBtn Sample.filled
  ∧ successHidden (step Sample.ctx (listeners Sample.ctx) (Advance 7999) s) = false
  ∧ successHidden (step Sample.ctx (listeners Sample.ctx) (Advance 8000) s) = true.
Proof. vm_compute. auto 10. Qed.

(** C5 as stated fails on a control with a default value: after the success
    branch the budget select holds its preselected option, not the empty
    text. *)
Lemma reset_restores_default :
  outcome ok_true = Success
  ∧ (value <$> fields (steps Sample.ctx (listeners Sample.ctx)
                         [Submit; Settle 0 ok_true] Sample.preselected))
    = [[]; []; []; []; lit "under-1000"]
  ∧ lit "under-1000" ≠ [].
Proof. vm_compute. repeat split. discriminate. Qed.

(** ** One submission from the request to its end *)

Section Lifecycle.

(** While the fetch numbered [k] is the only one in flight, a quiet event
    leaves the submit control, the fetches, the alerts and the scrolls as
    they are. *)
Lemma quiet_step (c : Ctx) (k : nat) (e : Event) (s : State) :
  pending s = [k] → quiet k e →
  submitBtn (step c (listeners c) e s) = submitBtn s
  ∧ pending (step c (listeners c) e s) = pending s
  ∧ requests (step c (listeners c) e s) = requests s
  ∧ alerts (step c (listeners c) e s) = alerts s
  ∧ scrolls (step c (listeners c) e s) = scrolls s.
Proof.
  intros Hp Hq. destruct e as [i | i v | | k' r | dt]; simpl in Hq.
  - rewrite step_Blur. repeat split.
  - rewrite step_Input. repeat split.
  - contradiction.
  - rewrite step_Settle, decide_False; [repeat split|].
    rewrite Hp. intros ?%list_elem_of_singleton. contradiction.
  - simpl. rewrite advance_state. repeat split.
Qed.

Lemma quiet_steps (c : Ctx) (k : nat) (es : list Event) (s : State) :
  pending s = [k] → Forall (quiet k) es →
  submitBtn (steps c (listeners c) es s) = submitBtn s
  ∧ pending (steps c (listeners c) es s) = pending s
  ∧ requests (steps c (listeners c) es s) = requests s
  ∧ alerts (steps c (listeners c) es s) = alerts s
  ∧ scrolls (steps c (listeners c) es s) = scrolls s.
Proof.
  intros Hp. induction es as [|e es IH] using rev_ind; [repeat split|].
  intros [Hes He%Forall_inv]%Forall_app.
  destruct (IH Hes) as (Hb & Hp' & Hr & Ha & Hs).
  rewrite steps_snoc.
  assert (pending (steps c (listeners c) es s) = [k]) as Hk by congruence.
  destruct (quiet_step c k e _ Hk He) as (-> & -> & -> & -> & ->).
  repeat split; assumption.
Qed.

(** A valid submit on a page that has the five controls: the request goes
    out with the submit control disabled. *)
Lemma onSubmit_issues (c : Ctx) (s : State) :
  (validateAll (required c) (fields s)).1 = true →
  is_Some (payload (fields s) (clock s)) →
  pending (onSubmit c s) = pending s ++ [length (requests s)]
  ∧ length (requests (onSubmit c s)) = S (length (requests s))
  ∧ submitBtn (onSubmit c s) = mkButton true [TextNode sending].
Proof.
  intros Hv [request Hr]. rewrite onSubmit_valid by assumption. simpl.
  rewrite Hr. simpl. rewrite length_app. simpl. repeat split. lia.
Qed.

(** What tells the three branches apart on the page. *)
Lemma branch_trace (o : Outcome) (c : Ctx) (s : State) :
  match o with
  | Success =>
      scrolls (branch o c s) = S (scrolls s) ∧ alerts (branch o c s) = alerts s
  | RemoteRejection =>
      scrolls (branch o c s) = scrolls s
      ∧ alerts (branch o c s) = alerts s ++ [rejection_message]
  | NetworkFailure =>
      scrolls (branch o c s) = scrolls s
      ∧ alerts (branch o c s) = alerts s ++ [network_message]
  end.
Proof. destruct o; unfold branch; [rewrite onSuccess_state|..]; split; reflexivity. Qed.

End Lifecycle.

(** C8, as the script has it. Take a valid submission made while no fetch
    is in flight, on a page that has the five controls, and let no other
    submit come before its fetch ends. Then the request is in flight with
    the submit control disabled; through every event until the fetch ends
    (blur, input, time passing) the control stays disabled, the fetch stays
    in flight and no branch has run; when the fetch ends, the one branch
    named by its outcome runs, which enables the control; and the fetch
    cannot end a second time. *)
Theorem submission_lifecycle (c : Ctx) (s : State) (es : list Event)
    (r : FetchResult) :
  (validateAll (required c) (fields s)).1 = true →
  is_Some (payload (fields s) (clock s)) →
  pending s = [] →
  Forall (quiet (length (requests s))) es →
  let k := length (requests s) in
  let s1 := step c (listeners c) Submit s in
  let s2 := steps c (listeners c) es s1 in
  let s3 := step c (listeners c) (Settle k r) s2 in
  (pending s1 = [k] ∧ disabled (submitBtn s1) = true)
  ∧ (∀ pre, pre `prefix_of` es →
       disabled (submitBtn (steps c (listeners c) pre s1)) = true
       ∧ pending (steps c (listeners c) pre s1) = [k]
       ∧ alerts (steps c (listeners c) pre s1) = alerts s
       ∧ scrolls (steps c (listeners c) pre s1) = scrolls s)
  ∧ s3 = branch (outcome r) c (set_pending [] s2)
  ∧ match outcome r with
    | Success => scrolls s3 = S (scrolls s) ∧ alerts s3 = alerts s
    | RemoteRejection =>
        scrolls s3 = scrolls s ∧ alerts s3 = alerts s ++ [rejection_message]
    | NetworkFailure =>
        scrolls s3 = scrolls s ∧ alerts s3 = alerts s ++ [network_message]
    end
  ∧ (disabled (submitBtn s3) = false ∧ pending s3 = [])
  ∧ (∀ r', step c (listeners c) (Settle k r') s3 = s3).
Proof.
  intros Hv Hpay Hp Hq k s1 s2 s3.
  destruct (onSubmit_issues c s Hv Hpay) as (Hp1 & _ & Hb1).
  destruct (onSubmit_frame c s) as (_ & Ha1 & Hs1 & _ & _).
  rewrite Hp in Hp1. simpl in Hp1. fold k in Hp1.
  assert (s1 = onSubmit c s) as Es1 by apply step_Submit.
  assert (∀ pre, Forall (quiet k) pre →
            submitBtn (steps c (listeners c) pre s1) = mkButton true [TextNode sending]
            ∧ pending (steps c (listeners c) pre s1) = [k]
            ∧ alerts (steps c (listeners c) pre s1) = alerts s
            ∧ scrolls (steps c (listeners c) pre s1) = scrolls s) as Hquiet.
  { intros pre Hpre.
    assert (pending s1 = [k]) as Hk by (rewrite Es1; assumption).
    destruct (quiet_steps c k pre s1 Hk Hpre) as (-> & -> & _ & -> & ->).
    rewrite Es1. auto. }
  destruct (Hquiet es Hq) as (Hb2 & Hp2 & Ha2 & Hs2). fold s2 in Hb2, Hp2, Ha2, Hs2.
  assert (s3 = branch (outcome r) c (set_pending [] s2)) as Es3.
  { unfold s3. rewrite step_Settle, Hp2.
    rewrite decide_True by (apply list_elem_of_singleton; reflexivity).
    rewrite filter_cons_False by (intros H; apply H; reflexivity).
    reflexivity. }
  split; [rewrite Es1, Hb1; auto|].
  split.
  { intros pre [post ->]. apply Forall_app in Hq as [Hpre _].
    destruct (Hquiet pre Hpre) as (-> & ? & ? & ?). auto. }
  split; [exact Es3|].
  split.
  { pose proof (branch_trace (outcome r) c (set_pending [] s2)) as Ht.
    rewrite <- Es3 in Ht. simpl in Ht. rewrite Ha2, Hs2 in Ht. exact Ht. }
  destruct (branch_frame (outcome r) c (set_pending [] s2)) as (_ & _ & _ & Hp3 & Hb3).
  rewrite <- Es3 in Hp3, Hb3. simpl in Hp3.
  split; [auto|].
  intros r'. rewrite step_Settle, Hp3.
  rewrite decide_False by apply not_elem_of_nil. reflexivity.
Qed.

Lemma submission_lifecycle_witness :
  let c := Sample.ctx in
  let es := [Blur 0%nat; Input 2%nat (lit "Acme Ltd"); Advance 1500] in
  let s1 := step c (listeners c) Submit Sample.filled in
  let s2 := steps c (listeners c) es s1 in
  let s3 := step c (listeners c) (Settle 0 ok_false) s2 in
  (∀ pre, pre `prefix_of` es →
     disabled (submitBtn (steps c (listeners c) pre s1)) = true)
  ∧ alerts s3 = [rejection_message]
  ∧ disabled (submitBtn s3) = false.
Proof.
  intros c es s1 s2 s3.
  assert ((validateAll (required c) (fields Sample.filled)).1 = true) as Hv
    by (vm_compute; reflexivity).
  assert (is_Some (payload (fields Sample.filled) (clock Sample.filled))) as Hpay
    by (vm_compute; eauto).
  assert (Forall (quiet (length (requests Sample.filled))) es) as Hq
    by (repeat constructor; discriminate).
  destruct (submission_lifecycle c Sample.filled es ok_false Hv Hpay eq_refl Hq)
    as (_ & Hpre & _ & Hbranch & (Hb & _) & _).
  split; [|split].
  - intros pre Hp. apply Hpre. assumption.
  - apply Hbranch.
  - exact Hb.
Defined.

(** C8 as stated fails when a second submit reaches the listener while the
    first fetch is in flight: the end of the first fetch enables the submit
    control although the second fetch has not ended. *)
Lemma reentry_enables_in_flight :
  let c := Sample.ctx in
  let s2 := steps c (listeners c) [Submit; Submit] Sample.filled in
  let s3 := step c (listeners c) (Settle 0 ok_false) s2 in
  (validateAll (required c) (fields Sample.filled)).1 = true
  ∧ length (requests s2) = 2%nat
  ∧ pending s2 = [0; 1]%nat
  ∧ pending s3 = [1]%nat
  ∧ disabled (submitBtn s3) = false.
Proof. vm_compute. auto 10. Qed.

(** ** Typing into a flagged control *)

Section InputClears.

(** A required control without marks stays so through every event but its
    own blur and a submit. *)
Lemma stays_unmarked (c : Ctx) (i : nat) (e : Event) (s : State) :
  i ∈ required c → e ≠ Blur i → e ≠ Submit →
  (∃ f, fields s !! i = Some f ∧ unmarked f) →
  ∃ f, fields (step c (listeners c) e s) !! i = Some f ∧ unmarked f.
Proof.
  intros Hi Hb Hs (f & Hf & Hu).
  destruct e as [j | j v | | k r | dt].
  - rewrite step_Blur. simpl. rewrite react_lookup.
    rewrite decide_False by (intros [-> _]; contradiction). eauto.
  - rewrite step_Input. simpl. rewrite react_lookup.
    destruct (decide (i = j)) as [<- | Hne].
    + rewrite decide_True by done. rewrite list_lookup_alter_eq, Hf. simpl.
      eexists. split; [reflexivity|]. apply clearError_unmarked.
    + rewrite decide_False by (intros [? _]; contradiction).
      rewrite list_lookup_alter_ne by congruence. eauto.
  - contradiction.
  - rewrite step_Settle. destruct (decide _); [|eauto].
    destruct (outcome r); unfold branch.
    + rewrite onSuccess_lookup, decide_True by assumption. simpl. rewrite Hf.
      simpl. eexists. split; [reflexivity|]. apply clearError_unmarked.
    + simpl. eauto.
    + simpl. eauto.
  - simpl. rewrite advance_state. simpl. eauto.
Qed.

Lemma stays_unmarked_steps (c : Ctx) (i : nat) (es : list Event) (s : State) :
  i ∈ required c → Forall (λ e, e ≠ Blur i ∧ e ≠ Submit) es →
  (∃ f, fields s !! i = Some f ∧ unmarked f) →
  ∃ f, fields (steps c (listeners c) es s) !! i = Some f ∧ unmarked f.
Proof.
  intros Hi Hes Hs. induction es as [|e es IH] using rev_ind; [assumption|].
  apply Forall_app in Hes as [Hes [He1 He2]%Forall_inv].
  rewrite steps_snoc. apply stays_unmarked; auto.
Qed.

(** What is registered, and for which event. *)
Lemma listeners_shape (c : Ctx) (l : Listener) :
  l ∈ listeners c →
  (∃ j, j ∈ required c ∧ l = (OnField j, blur, do_validateField j))
  ∨ (∃ j, j ∈ required c ∧ l = (OnField j, input, do_clearError j))
  ∨ l = (OnForm, submit, do_submit).
Proof.
  unfold listeners. intros [Hl | ->%list_elem_of_singleton]%elem_of_app; [|auto].
  apply list_elem_of_In, in_flat_map in Hl as (j & Hj%list_elem_of_In & Hl).
  destruct Hl as [<- | [<- | []]]; eauto.
Qed.

End InputClears.

(** C9. An input event at a required control clears its error marks without
    looking at the value: the control is left without marks even when the
    value it now holds would be rejected. It stays without marks through
    every later event other than its own blur and a submit; its blur
    validates it again. In the listener table [validateField] is registered
    for blur only, and the listeners for input all are [clearError]. *)
Theorem input_clears_without_validating (c : Ctx) (s : State) (i : nat)
    (v : list N) (f : Field) (es : list Event) :
  i ∈ required c →
  fields s !! i = Some f →
  Forall (λ e, e ≠ Blur i ∧ e ≠ Submit) es →
  let s1 := step c (listeners c) (Input i v) s in
  let s2 := steps c (listeners c) es s1 in
  fields s1 !! i = Some (clearError (set_value v f))
  ∧ unmarked (clearError (set_value v f))
  ∧ ((validateField (set_value v f)).1 = false →
       (validateField (clearError (set_value v f))).1 = false)
  ∧ (∃ f2, fields s2 !! i = Some f2 ∧ unmarked f2
           ∧ fields (step c (listeners c) (Blur i) s2) !! i
             = Some (validateField f2).2)
  ∧ (∀ t ty j, (t, ty, do_validateField j) ∈ listeners c → ty = blur)
  ∧ (∀ t h, (t, input, h) ∈ listeners c → ∃ j, h = do_clearError j).
Proof.
  intros Hi Hf Hes s1 s2.
  assert (fields s1 !! i = Some (clearError (set_value v f))) as Hf1.
  { unfold s1. rewrite step_Input. simpl. rewrite react_lookup.
    rewrite decide_True by done. rewrite list_lookup_alter_eq, Hf. reflexivity. }
  split; [exact Hf1|].
  split; [apply clearError_unmarked|].
  split.
  { intros Hv. rewrite <- Hv. apply validateField_verdict_ext; reflexivity. }
  split.
  { destruct (stays_unmarked_steps c i es s1 Hi Hes) as (f2 & Hf2 & Hu2).
    { eexists. split; [exact Hf1 | apply clearError_unmarked]. }
    exists f2. fold s2 in Hf2. split; [assumption|]. split; [assumption|].
    rewrite step_Blur. simpl. rewrite react_lookup.
    rewrite decide_True by done. rewrite Hf2. reflexivity. }
  split.
  - intros t ty j [(? & _ & [= -> -> ->]) | [(? & _ & [=]) | [=]]]%listeners_shape.
    reflexivity.
  - intros t h [(? & _ & [=]) | [(j & _ & [= -> ->]) | [=]]]%listeners_shape.
    eauto.
Qed.

Lemma input_clears_without_validating_witness :
  let c := Sample.ctx in
  let s0 := onSubmit c Sample.bad_email in
  let s1 := step c (listeners c) (Input 1%nat (lit "still-no-at-sign")) s0 in
  (classList_contains "is-error" <$> fields s0 !! 1%nat) = Some true
  ∧ fields s1 !! 1%nat
    = Some (clearError (set_value (lit "still-no-at-sign")
                          (validateField
                             (Sample.control "cemail" "email" true
                                (lit "not-an-email"))).2))
  ∧ (classList_contains "is-error" <$> fields s1 !! 1%nat) = Some false.
Proof.
  intros c s0 s1.
  assert (1%nat ∈ required c) as Hi by (vm_compute; repeat constructor).
  destruct (input_clears_without_validating c s0 1%nat (lit "still-no-at-sign")
              (validateField
                 (Sample.control "cemail" "email" true (lit "not-an-email"))).2
              [Blur 0%nat; Advance 10] Hi)
    as (Hf1 & _).
  - vm_compute. reflexivity.
  - repeat constructor; discriminate.
  - split; [vm_compute; reflexivity|].
    split; [exact Hf1|]. vm_compute. reflexivity.
Defined.

(** ** A page without the form or without the success message *)

Section NoListeners.

Lemma marks_edit (i : nat) (v : list N) (fs : list Field) :
  marks <$> alter (set_value v) i fs = marks <$> fs.
Proof.
  apply list_eq. intros j. rewrite !list_lookup_fmap.
  destruct (decide (i = j)) as [-> | Hne].
  - rewrite list_lookup_alter_eq. destruct (fs !! j); reflexivity.
  - rewrite list_lookup_alter_ne by assumption. reflexivity.
Qed.

(** With no listener registered and no fetch in flight, an event moves
    nothing but the value a user types and the clock. *)
Lemma step_no_listeners (c : Ctx) (e : Event) (s : State) :
  pending s = [] →
  requests (step c [] e s) = requests s
  ∧ pending (step c [] e s) = []
  ∧ alerts (step c [] e s) = alerts s
  ∧ submitBtn (step c [] e s) = submitBtn s
  ∧ marks <$> fields (step c [] e s) = marks <$> fields s.
Proof.
  intros Hp. destruct e as [i | i v | | k r | dt]; simpl.
  - auto.
  - repeat split; auto. apply marks_edit.
  - auto.
  - rewrite decide_False by (rewrite Hp; apply not_elem_of_nil). auto.
  - rewrite advance_state. simpl. auto.
Qed.

Lemma steps_no_listeners (c : Ctx) (es : list Event) (s : State) :
  pending s = [] →
  requests (steps c [] es s) = requests s
  ∧ pending (steps c [] es s) = []
  ∧ alerts (steps c [] es s) = alerts s
  ∧ submitBtn (steps c [] es s) = submitBtn s
  ∧ marks <$> fields (steps c [] es s) = marks <$> fields s.
Proof.
  intros Hp. induction es as [|e es IH] using rev_ind; [auto|].
  destruct IH as (Hr & Hp' & Ha & Hb & Hm). rewrite steps_snoc.
  destruct (step_no_listeners c e (steps c [] es s) Hp') as (-> & -> & -> & -> & ->).
  auto.
Qed.

End NoListeners.

(** C10. On a page without the contact form or without the success message
    [initContactForm] returns at line 155 and leaves no listener. From then
    on, whatever the elements of the page and whatever events follow, no
    request is issued, none is in flight, no alert is shown, the submit
    control is not touched and every control keeps the class tokens and
    the attributes it had. *)
Theorem init_returns_without_elements (d : Document) (now : Z) :
  contactForm d = None ∨ formSuccess d = None →
  initContactForm d now = Returned
  ∧ registered (initContactForm d now) = []
  ∧ (∀ c s t ty, dispatch c (registered (initContactForm d now)) t ty s = s)
  ∧ (∀ c s es, pending s = [] →
       requests (steps c (registered (initContactForm d now)) es s) = requests s
       ∧ pending (steps c (registered (initContactForm d now)) es s) = []
       ∧ alerts (steps c (registered (initContactForm d now)) es s) = alerts s
       ∧ submitBtn (steps c (registered (initContactForm d now)) es s) = submitBtn s
       ∧ marks <$> fields (steps c (registered (initContactForm d now)) es s)
         = marks <$> fields s).
Proof.
  intros Hmissing.
  assert (initContactForm d now = Returned) as ->.
  { unfold initContactForm.
    destruct Hmissing as [-> | ->]; [reflexivity|].
    destruct (contactForm d); reflexivity. }
  simpl. repeat split; auto; apply steps_no_listeners; assumption.
Qed.

Lemma init_returns_without_elements_witness :
  let table := registered (initContactForm Sample.no_success Sample.now) in
  let s := steps Sample.ctx table
             [Blur 1%nat; Input 1%nat (lit "x"); Submit; Advance 9000]
             Sample.bad_email in
  initContactForm Sample.no_success Sample.now = Returned
  ∧ requests s = []
  ∧ marks <$> fields s = marks <$> fields Sample.bad_email.
Proof.
  intros table s.
  destruct (init_returns_without_elements Sample.no_success Sample.now)
    as (Hinit & _ & _ & Hsteps).
  - right. reflexivity.
  - destruct (Hsteps Sample.ctx Sample.bad_email
                [Blur 1%nat; Input 1%nat (lit "x"); Submit; Advance 9000] eq_refl)
      as (Hr & _ & _ & _ & Hm).
    split; [exact Hinit|]. split; [exact Hr | exact Hm].
Defined.

(** * Further properties of the contact form *)

Section TrimFacts.

Lemma elem_of_rev (x : N) (l : list N) : x ∈ rev l ↔ x ∈ l.
Proof. rewrite !list_elem_of_In. symmetry. apply in_rev. Qed.

Lemma not_all_white (s : list N) :
  ¬ Forall (λ c, isWhiteSpace c = true) s ↔ ∃ c, c ∈ s ∧ isWhiteSpace c = false.
Proof.
  induction s as [|d s IH].
  - split; [intros H; destruct H; constructor|]. intros (c & Hc & _). inversion Hc.
  - rewrite Forall_cons. destruct (isWhiteSpace d) eqn:Hd.
    + split.
      * intros H. destruct IH as [IH _].
        destruct IH as (c & Hc & Hw); [tauto|].
        exists c. split; [apply elem_of_cons; auto | assumption].
      * intros (c & [-> | Hc]%elem_of_cons & Hw) [_ Hall]; [congruence|].
        apply IH; eauto.
    + split; [|intros _ [? _]; discriminate].
      intros _. exists d. split; [apply elem_of_cons; auto | assumption].
Qed.

Lemma trimStart_nil (s : list N) :
  trimStart s = [] ↔ Forall (λ c, isWhiteSpace c = true) s.
Proof.
  induction s as [|c s IH]; simpl.
  - split; auto.
  - destruct (isWhiteSpace c) eqn:Hc.
    + rewrite IH. split; [constructor; assumption | apply Forall_inv_tail].
    + split; [discriminate|]. intros H%Forall_inv. congruence.
Qed.

Lemma trimStart_head (s : list N) (c : N) (r : list N) :
  trimStart s = c :: r → isWhiteSpace c = false.
Proof.
  induction s as [|d s IH]; simpl; [discriminate|].
  destruct (isWhiteSpace d) eqn:Hd; [assumption|]. intros [= <- _]. assumption.
Qed.

Lemma trimStart_keeps (s : list N) (c : N) :
  c ∈ s → isWhiteSpace c = false → c ∈ trimStart s.
Proof.
  intros Hin Hc. induction s as [|d s IH]; simpl; [assumption|].
  destruct (isWhiteSpace d) eqn:Hd; [|assumption].
  apply elem_of_cons in Hin as [-> | Hin]; [congruence | auto].
Qed.

(** [trim] answers the empty string exactly on white space. *)
Lemma trim_nil (s : list N) :
  trim s = [] ↔ Forall (λ c, isWhiteSpace c = true) s.
Proof.
  unfold trim, trimEnd. rewrite <- trimStart_nil. split.
  - intros H. apply (f_equal (@rev N)) in H. rewrite rev_involutive in H.
    simpl in H. apply trimStart_nil in H.
    destruct (trimStart s) as [|c r] eqn:E; [reflexivity|].
    apply trimStart_head in E.
    assert (c ∈ rev (c :: r)) as Hc by (apply elem_of_rev, elem_of_cons; auto).
    rewrite Forall_forall in H. rewrite (H c Hc) in E. discriminate.
  - intros ->. reflexivity.
Qed.

(** [trim] drops white space only. *)
Lemma trim_keeps (s : list N) (c : N) :
  c ∈ s → isWhiteSpace c = false → c ∈ trim s.
Proof.
  intros Hin Hc. unfold trim, trimEnd.
  apply elem_of_rev, trimStart_keeps; [|assumption].
  apply elem_of_rev, trimStart_keeps; assumption.
Qed.

End TrimFacts.

Section Frame.

Lemma validateField_keeps (f : Field) :
  type (validateField f).2 = type f
  ∧ value (validateField f).2 = value f
  ∧ defaultValue (validateField f).2 = defaultValue f
  ∧ (∀ tok, tok ≠ "is-error"%string →
       tok ∈ classList (validateField f).2 ↔ tok ∈ classList f)
  ∧ (∀ k, k ≠ "aria-invalid"%string →
       attributes (validateField f).2 !! k = attributes f !! k).
Proof.
  destruct (validateField_cases f) as [E | E]; rewrite E in *; simpl.
  - repeat split; auto.
    + intros [?%elem_of_singleton | ?]%elem_of_union; [contradiction | assumption].
    + intros ?. apply elem_of_union. auto.
    + intros k Hk. apply lookup_insert_ne. congruence.
  - repeat split; auto.
    + intros [? _]%elem_of_difference. assumption.
    + intros ?. apply elem_of_difference. split; [assumption|].
      intros ?%elem_of_singleton. contradiction.
    + intros k Hk. apply lookup_delete_ne. congruence.
Qed.

End Frame.

(** X1. [validateField] writes nothing but the class token [is-error] and
    the attribute [aria-invalid]: type, value and default value, every
    other class token and every other attribute are as they were; and a
    second call in a row answers the same and changes nothing more. *)
Theorem validateField_frame (f : Field) :
  type (validateField f).2 = type f
  ∧ value (validateField f).2 = value f
  ∧ defaultValue (validateField f).2 = defaultValue f
  ∧ (∀ tok, tok ≠ "is-error"%string →
       tok ∈ classList (validateField f).2 ↔ tok ∈ classList f)
  ∧ (∀ k, k ≠ "aria-invalid"%string →
       attributes (validateField f).2 !! k = attributes f !! k)
  ∧ validateField (validateField f).2 = validateField f.
Proof.
  destruct (validateField_keeps f) as (Ht & Hv & Hd & Hc & Ha).
  repeat split; try assumption; try apply Hc; try assumption.
  rewrite (surjective_pairing (validateField (validateField f).2)).
  rewrite checked_verdict, checked_idem. symmetry. apply surjective_pairing.
Qed.

(** X2. In terms of code units: [validateField] accepts a control exactly
    when its value holds at least one code unit that is not white space
    and, for a control of type email, an at sign. So a value made of
    blanks, tabs, line breaks or no-break spaces is rejected, and an email
    such as [a@] is accepted. *)
Theorem validateField_accepts (f : Field) :
  (validateField f).1 = true ↔
  (∃ c, c ∈ value f ∧ isWhiteSpace c = false)
  ∧ (type f = "email"%string → at_sign ∈ value f).
Proof.
  rewrite <- not_false_iff_true, validateField_verdict. unfold invalid.
  rewrite trim_nil, <- not_all_white. split.
  - intros Hv. split; [tauto|]. intros Hty.
    destruct (decide (at_sign ∈ value f)) as [|Hno]; [assumption|].
    exfalso. apply Hv. destruct (value f) as [|c r] eqn:Ev.
    + left. constructor.
    + right. repeat split; auto.
  - intros [Hw Hat] [Hall | (Hty & _ & Hno)]; auto.
Qed.

Section SubmitEdges.

Lemma value_of_missing (ident : string) (fs : list Field) :
  (∀ f, f ∈ fs → has_id ident f = false) → value_of ident fs = None.
Proof.
  intros H. unfold value_of.
  destruct (List.find (has_id ident) fs) as [f|] eqn:E; [|reflexivity].
  apply find_some in E as [Hin%list_elem_of_In Hid].
  rewrite (H f Hin) in Hid. discriminate.
Qed.

Lemma payload_missing (ident : string) (fs : list Field) (now : Z) :
  ident ∈ payload_ids → value_of ident fs = None → payload fs now = None.
Proof.
  unfold payload_ids, payload. intros Hin Hnone.
  repeat (apply elem_of_cons in Hin as [-> | Hin]);
    [..|inversion Hin]; rewrite Hnone;
    repeat (match goal with |- context [value_of ?k fs] =>
              destruct (value_of k fs) end; simpl); reflexivity.
Qed.

(** Validation of validated controls answers the same. *)
Lemma validateAll_again (req : list nat) (fs : list Field) :
  (validateAll req (validateAll req fs).2).1 = (validateAll req fs).1.
Proof.
  apply eq_true_iff_eq. rewrite !validateAll_verdict. split.
  - intros H i f Hi Hf. rewrite <- checked_verdict.
    apply (H i); [assumption|].
    rewrite validateAll_required, Hf by assumption. reflexivity.
  - intros H i f' Hi. rewrite validateAll_required by assumption.
    destruct (fs !! i) as [f|] eqn:Hf; simpl; [|discriminate].
    intros [= <-]. rewrite checked_verdict. eauto.
Qed.

Lemma payload_validated (req : list nat) (fs : list Field) (now : Z) :
  payload (validateAll req fs).2 now = payload fs now.
Proof.
  unfold payload.
  rewrite !(same_entries_value_of _ _ _ (validateAll_same_entries req fs)).
  reflexivity.
Qed.

Lemma step_Advance (c : Ctx) (table : list Listener) (dt : N) (s : State) :
  step c table (Advance dt) s = advance dt s.
Proof. reflexivity. Qed.

(** The request built from the same controls at another time differs by
    its timestamp alone. *)
Lemma payload_later (fs : list Field) (t t' : Z) (request : Request) :
  payload fs t = Some request →
  ∃ request',
    payload fs t' = Some request'
    ∧ url request' = url request
    ∧ method request' = method request
    ∧ headers request' = headers request
    ∧ (∀ k, k ≠ lit "timestamp" →
         own_property k (properties (body request'))
         = own_property k (properties (body request)))
    ∧ own_property (lit "timestamp") (properties (body request))
      = Some (JString (JsDate.toISOString t))
    ∧ own_property (lit "timestamp") (properties (body request'))
      = Some (JString (JsDate.toISOString t'))
    ∧ (t' = t → request' = request).
Proof.
  unfold payload.
  destruct (value_of "cname" fs) as [name|]; [|discriminate].
  destruct (value_of "cemail" fs) as [email|]; [|discriminate].
  destruct (value_of "cbusiness" fs) as [business|]; [|discriminate].
  destruct (value_of "cdesc" fs) as [description|]; [|discriminate].
  destruct (value_of "cbudget" fs) as [budget|]; [|discriminate].
  simpl. intros [= <-]. eexists. split; [reflexivity|].
  split; [reflexivity|]. split; [reflexivity|]. split; [reflexivity|].
  split; [|split; [reflexivity|split; [reflexivity|intros ->; reflexivity]]].
  intros k Hk. cbn [properties body own_property].
  repeat (destruct (decide (_ = k)) as [?|?]; [first [reflexivity | congruence]|]).
  reflexivity.
Qed.

Lemma onSubmit_invalid_quiet (c : Ctx) (s : State) :
  (validateAll (required c) (fields s)).1 = false →
  requests (onSubmit c s) = requests s ∧ pending (onSubmit c s) = pending s.
Proof.
  intros Hv. rewrite onSubmit_invalid by assumption.
  destruct (first_error _ _) as [first|]; [|split; reflexivity].
  split;
    apply (focus_frame first (set_fields (validateAll (required c) (fields s)).2 s)).
Qed.

End SubmitEdges.

(** X3. When every required control validates but the form lacks one of
    the five controls that lines 205 to 209 look up by id, the submit
    listener ends on the TypeError of that line: no request is issued, the
    submit control is neither disabled nor relabelled, no alert is shown
    and the focus stays where it was; only the validation has happened. *)
Theorem submit_missing_control (c : Ctx) (s : State) (ident : string) :
  ident ∈ payload_ids →
  (∀ f, f ∈ fields s → has_id ident f = false) →
  (validateAll (required c) (fields s)).1 = true →
  onSubmit c s = set_fields (validateAll (required c) (fields s)).2 s
  ∧ requests (onSubmit c s) = requests s
  ∧ pending (onSubmit c s) = pending s
  ∧ submitBtn (onSubmit c s) = submitBtn s
  ∧ alerts (onSubmit c s) = alerts s
  ∧ activeElement (onSubmit c s) = activeElement s.
Proof.
  intros Hid Hmissing Hv.
  rewrite onSubmit_valid by assumption.
  rewrite (payload_missing ident) by auto using value_of_missing.
  repeat split.
Qed.

Lemma submit_missing_control_witness :
  requests (onSubmit Sample.ctx Sample_no_budget) = []
  ∧ submitBtn (onSubmit Sample.ctx Sample_no_budget) = submitBtn Sample_no_budget.
Proof.
  destruct (submit_missing_control Sample.ctx Sample_no_budget "cbudget")
    as (_ & Hr & _ & Hb & _).
  - unfold payload_ids. rewrite !elem_of_cons. auto 10.
  - intros f Hf. vm_compute in Hf.
    repeat (apply elem_of_cons in Hf as [-> | Hf]; [vm_compute; reflexivity|]).
    inversion Hf.
  - vm_compute. reflexivity.
  - split; [exact Hr | exact Hb].
Defined.

(** X4. Nothing guards against a repeated submission after a failure: when
    a valid submission ends in the rejection branch or in the handler of
    [.catch], the controls keep their values, and a later submit issues a
    second request. It goes to the same endpoint and its body repeats every
    property of the first except the timestamp, which is the ISO text of
    the clock at the second submit; the two requests are the same when no
    time has passed in between. *)
Theorem retry_sends_again (c : Ctx) (s : State) (r : FetchResult)
    (request : Request) (dt1 dt2 : N) :
  (validateAll (required c) (fields s)).1 = true →
  payload (fields s) (clock s) = Some request →
  outcome r ≠ Success →
  ∃ request',
    payload (fields s) (clock s + Z.of_N dt1 + Z.of_N dt2) = Some request'
    ∧ requests (steps c (listeners c)
                  [Submit; Advance dt1; Settle (length (requests s)) r;
                   Advance dt2; Submit] s)
      = requests s ++ [request; request']
    ∧ url request' = url request
    ∧ method request' = method request
    ∧ headers request' = headers request
    ∧ (∀ k, k ≠ lit "timestamp" →
         own_property k (properties (body request'))
         = own_property k (properties (body request)))
    ∧ own_property (lit "timestamp") (properties (body request))
      = Some (JString (JsDate.toISOString (clock s)))
    ∧ own_property (lit "timestamp") (properties (body request'))
      = Some (JString
                (JsDate.toISOString (clock s + Z.of_N dt1 + Z.of_N dt2)))
    ∧ (dt1 = 0 → dt2 = 0 → request' = request).
Proof.
  intros Hv Hpay Hr.
  destruct (payload_later (fields s) (clock s)
              (clock s + Z.of_N dt1 + Z.of_N dt2) request Hpay)
    as (request' & Hpay' & Hurl & Hmeth & Hhead & Hrest & Ht & Ht' & Hsame).
  exists request'. split; [exact Hpay'|].
  split; [|repeat split; auto; intros -> ->; apply Hsame; lia].
  unfold steps. cbn [foldl].
  rewrite !step_Submit, !step_Advance, step_Settle.
  rewrite (onSubmit_valid c s Hv), Hpay. cbn zeta.
  rewrite (advance_state dt1). cbn zeta.
  set (s1 := mkState _ _ _ _ _ _ _ _ _ _).
  assert (length (requests s) ∈ pending s1) as Hin.
  { unfold s1. simpl. apply elem_of_app. right.
    apply list_elem_of_singleton. reflexivity. }
  rewrite decide_True by assumption.
  set (s2 := branch (outcome r) c _).
  assert (fields s2 = (validateAll (required c) (fields s)).2
          ∧ clock s2 = (clock s + Z.of_N dt1)%Z
          ∧ requests s2 = requests s ++ [request])
    as (Hf2 & Hc2 & Hr2).
  { unfold s2. destruct (outcome r); [contradiction|..]; repeat split. }
  rewrite (advance_state dt2). cbn zeta.
  set (s3 := mkState _ _ _ _ _ _ _ _ _ _).
  assert (fields s3 = (validateAll (required c) (fields s)).2
          ∧ clock s3 = (clock s + Z.of_N dt1 + Z.of_N dt2)%Z)
    as (Hf3 & Hc3).
  { unfold s3. simpl. rewrite Hc2. auto. }
  rewrite onSubmit_valid by (rewrite Hf3, validateAll_again; assumption).
  rewrite Hf3, Hc3, payload_validated, Hpay'. simpl.
  rewrite Hr2, <- app_assoc. reflexivity.
Qed.

Lemma retry_sends_again_witness :
  ∃ request request',
    requests (steps Sample.ctx (listeners Sample.ctx)
                [Submit; Advance 40; Settle 0 NetworkError; Advance 2000; Submit]
                Sample.filled)
    = [request; request']
    ∧ own_property (lit "timestamp") (properties (body request))
      = Some (JString (lit "2023-11-14T22:13:20.000Z"))
    ∧ own_property (lit "timestamp") (properties (body request'))
      = Some (JString (lit "2023-11-14T22:13:22.040Z")).
Proof.
  destruct (payload (fields Sample.filled) (clock Sample.filled))
    as [request|] eqn:Hpay; [|vm_compute in Hpay; discriminate].
  destruct (retry_sends_again Sample.ctx Sample.filled NetworkError request 40 2000)
    as (request' & _ & Hreq & _ & _ & _ & _ & Ht & Ht' & _).
  - vm_compute. reflexivity.
  - exact Hpay.
  - discriminate.
  - exists request, request'. split; [exact Hreq|]. split; [exact Ht | exact Ht'].
Defined.

(** X5. After the success branch a submit that follows at once is turned
    down by validation whenever some required control has a blank default
    value: [form.reset()] has emptied it, so no second request is issued
    and the control is flagged. *)
Theorem resubmit_after_success (c : Ctx) (s : State) (i : nat) (f : Field) :
  i ∈ required c →
  fields s !! i = Some f →
  Forall (λ u, isWhiteSpace u = true) (defaultValue f) →
  requests (onSubmit c (onSuccess c s)) = requests s
  ∧ pending (onSubmit c (onSuccess c s)) = pending s
  ∧ ∃ f', fields (onSubmit c (onSuccess c s)) !! i = Some f'
          ∧ error_indicator f' ∧ aria_invalid f'.
Proof.
  intros Hi Hf Hblank.
  assert (fields (onSuccess c s) !! i = Some (clearError (reset f))) as Hf1.
  { rewrite onSuccess_lookup, decide_True, Hf by assumption. reflexivity. }
  assert ((validateField (clearError (reset f))).1 = false) as Hbad.
  { apply validateField_verdict. left. simpl. apply trim_nil. assumption. }
  assert ((validateAll (required c) (fields (onSuccess c s))).1 = false) as Hv.
  { apply not_true_iff_false. intros Hv.
    rewrite validateAll_verdict in Hv. rewrite (Hv i _ Hi Hf1) in Hbad.
    discriminate. }
  destruct (onSubmit_invalid_quiet c (onSuccess c s) Hv) as [-> ->].
  destruct (branch_frame Success c s) as (_ & _ & Hr & Hp & _).
  split; [exact Hr|]. split; [exact Hp|].
  eapply onSubmit_marks; eauto.
Qed.

Lemma resubmit_after_success_witness :
  requests (onSubmit Sample.ctx (onSuccess Sample.ctx Sample.filled)) = [].
Proof.
  destruct (resubmit_after_success Sample.ctx Sample.filled 0%nat
              (Sample.control "cname" "text" true (lit "Alice ")))
    as (Hr & _).
  - vm_compute. repeat constructor.
  - reflexivity.
  - constructor.
  - exact Hr.
Defined.

(** X6. The timer of an earlier success is never cancelled, so it also
    hides the message of a later one: if a hide is still pending, due at
    [d], when the success branch runs again, the message it shows is hidden
    at [d], less than 8000 ms later, while its own timer is still pending. *)
Theorem stale_timer_hides_early (c : Ctx) (s : State) (d : Z) :
  (d, HideSuccess) ∈ timers s →
  (clock s ≤ d < clock s + 8000)%Z →
  successHidden (onSuccess c s) = false
  ∧ successHidden (advance (Z.to_N (d - clock s)) (onSuccess c s)) = true
  ∧ clock (advance (Z.to_N (d - clock s)) (onSuccess c s)) = d
  ∧ ((clock s + 8000)%Z, HideSuccess)
      ∈ timers (advance (Z.to_N (d - clock s)) (onSuccess c s)).
Proof.
  intros Hd [Hle Hlt].
  assert (clock (onSuccess c s) = clock s) as Hc
    by (rewrite onSuccess_state; reflexivity).
  assert (∀ t, t ∈ timers s ∨ t = ((clock s + 8000)%Z, HideSuccess) →
               t ∈ timers (onSuccess c s)) as Ht.
  { intros t Hin. rewrite onSuccess_state. simpl.
    rewrite elem_of_app, list_elem_of_singleton. assumption. }
  split; [rewrite onSuccess_state; reflexivity|].
  split; [|split].
  - eapply advance_fires; [apply Ht; left; exact Hd|].
    rewrite Hc, Z2N.id by lia. simpl. lia.
  - transitivity (clock (onSuccess c s) + Z.of_N (Z.to_N (d - clock s)))%Z;
      [rewrite advance_state; reflexivity|].
    rewrite Hc, Z2N.id by lia. lia.
  - apply advance_keeps; [apply Ht; right; reflexivity|].
    rewrite Hc, Z2N.id by lia. simpl. lia.
Qed.

Lemma stale_timer_hides_early_witness :
  let s := steps Sample.ctx (listeners Sample.ctx)
             [Submit; Settle 0 ok_true; Advance 5000] Sample.filled in
  successHidden (onSuccess Sample.ctx s) = false
  ∧ successHidden (advance 3000 (onSuccess Sample.ctx s)) = true.
Proof.
  intros s.
  destruct (stale_timer_hides_early Sample.ctx s (Sample.now + 8000))
    as (H1 & H2 & _).
  - vm_compute. repeat constructor.
  - vm_compute. split; [discriminate | reflexivity].
  - split; [exact H1 | exact H2].
Defined.

Section Derived.

Lemma derived_trans (b : bool) (x y z : Field) :
  derived b x y → derived b y z → derived b x z.
Proof. intros Hxy Hyz. induction Hyz; eauto using derived. Qed.

Lemma derived_reset (b : bool) (x y : Field) : derived b x y → derived b x (reset y).
Proof. apply derived_value. Qed.

(** What a control has become, whatever the events: its type, its default
    value, its class tokens other than [is-error] and its attributes other
    than [aria-invalid] are as they were. *)
Lemma derived_frame (b : bool) (x y : Field) :
  derived b x y →
  type y = type x ∧ defaultValue y = defaultValue x
  ∧ (∀ tok, tok ≠ "is-error"%string → tok ∈ classList y ↔ tok ∈ classList x)
  ∧ (∀ k, k ≠ "aria-invalid"%string → attributes y !! k = attributes x !! k).
Proof.
  induction 1 as [|v g _ IH|g _ _ IH|g _ _ IH].
  - repeat split; auto.
  - exact IH.
  - destruct IH as (Ht & Hd & Hc & Ha).
    destruct (validateField_keeps g) as (Ht' & _ & Hd' & Hc' & Ha').
    repeat split; try congruence.
    + intros ?. apply Hc, Hc'; assumption.
    + intros ?. apply Hc', Hc; assumption.
    + intros k Hk. rewrite Ha', Ha by assumption. reflexivity.
  - destruct IH as (Ht & Hd & Hc & Ha). repeat split; auto.
    + simpl. intros [? _]%elem_of_difference. apply Hc; assumption.
    + simpl. intros ?. apply elem_of_difference. split; [apply Hc; assumption|].
      intros ?%elem_of_singleton. contradiction.
    + intros k Hk. simpl. rewrite lookup_delete_ne by congruence. auto.
Qed.

Lemma derived_optional (x y : Field) : derived false x y → marks y = marks x.
Proof. induction 1; try discriminate; auto. Qed.

Lemma coupled_validate (f : Field) : coupled (validateField f).2.
Proof.
  unfold coupled. destruct (validateField_cases f) as [-> | ->]; simpl.
  - split; intros _.
    + apply lookup_insert_eq.
    + apply elem_of_union. left. apply elem_of_singleton. reflexivity.
  - destruct (clearError_unmarked f) as [Hc Ha]. split.
    + intros ?. contradiction.
    + unfold aria_invalid. rewrite Ha. discriminate.
Qed.

Lemma derived_coupled (b : bool) (x y : Field) :
  derived b x y → coupled x → coupled y.
Proof.
  induction 1 as [|v g _ IH|g _ _ IH|g _ _ IH]; intros Hx; auto.
  - apply coupled_validate.
  - unfold coupled. destruct (clearError_unmarked g) as [Hc Ha]. split.
    + intros ?. contradiction.
    + unfold aria_invalid. rewrite Ha. discriminate.
Qed.

(** Each event leaves at every position a control derived from the one
    that was there, and none where there was none. *)
Lemma step_derived (c : Ctx) (e : Event) (s : State) (i : nat) :
  option_Forall2 (derived (bool_decide (i ∈ required c)))
    (fields s !! i) (fields (step c (listeners c) e s) !! i).
Proof.
  assert (∀ b, option_Forall2 (derived b) (fields s !! i) (fields s !! i)) as Hsame.
  { intros b. destruct (fields s !! i); constructor. constructor. }
  destruct e as [j | j v | | k r | dt].
  - rewrite step_Blur. simpl. rewrite react_lookup.
    destruct (decide (i = j ∧ j ∈ required c)) as [[-> Hj] | _]; [|apply Hsame].
    destruct (fields s !! j); constructor.
    apply derived_validate; [apply bool_decide_eq_true; assumption | constructor].
  - rewrite step_Input. simpl. rewrite react_lookup.
    destruct (decide (i = j)) as [-> | Hne].
    + rewrite list_lookup_alter_eq.
      destruct (decide (j = j ∧ j ∈ required c)) as [[_ Hj] | _];
        destruct (fields s !! j); constructor.
      * apply derived_clear; [apply bool_decide_eq_true; assumption|].
        repeat constructor.
      * repeat constructor.
    + rewrite decide_False by (intros [? _]; contradiction).
      rewrite list_lookup_alter_ne by congruence. apply Hsame.
  - rewrite step_Submit, onSubmit_fields.
    destruct (decide (i ∈ required c)) as [Hi | Hi].
    + rewrite validateAll_required by assumption.
      destruct (fields s !! i); constructor.
      apply derived_validate; [apply bool_decide_eq_true; assumption | constructor].
    + rewrite validateAll_other by assumption. apply Hsame.
  - rewrite step_Settle. destruct (decide (k ∈ pending s)); [|apply Hsame].
    destruct (outcome r); unfold branch; [|apply Hsame..].
    rewrite onSuccess_lookup. simpl.
    destruct (decide (i ∈ required c)); destruct (fields s !! i); constructor.
    + apply derived_clear; [apply bool_decide_eq_true; assumption|].
      apply derived_reset. constructor.
    + apply derived_reset. constructor.
  - simpl. rewrite advance_state. apply Hsame.
Qed.

Lemma steps_derived (c : Ctx) (es : list Event) (s : State) (i : nat) :
  option_Forall2 (derived (bool_decide (i ∈ required c)))
    (fields s !! i) (fields (steps c (listeners c) es s) !! i).
Proof.
  induction es as [|e es IH] using rev_ind.
  - change (steps c (listeners c) [] s) with s.
    destruct (fields s !! i); constructor. constructor.
  - rewrite steps_snoc.
    pose proof (step_derived c e (steps c (listeners c) es s) i) as Hstep.
    destruct IH; inversion Hstep; subst; constructor.
    eapply derived_trans; eassumption.
Qed.

End Derived.

(** X7. A control that is not among the required ones is never marked:
    through any sequence of events (blur, input, submit, the end of a
    fetch, time passing) its class tokens and its attributes stay exactly
    as they were. *)
Theorem optional_never_marked (c : Ctx) (s : State) (es : list Event) (i : nat) :
  i ∉ required c →
  marks <$> fields (steps c (listeners c) es s) !! i = marks <$> fields s !! i.
Proof.
  intros Hi. pose proof (steps_derived c es s i) as H.
  rewrite bool_decide_eq_false_2 in H by assumption.
  destruct H as [x y H|]; [|reflexivity].
  simpl. f_equal. apply derived_optional. assumption.
Qed.

Lemma optional_never_marked_witness :
  marks <$> fields (steps Sample.ctx (listeners Sample.ctx)
                      [Input 4%nat []; Blur 4%nat; Submit; Advance 10]
                      Sample.blank) !! 4%nat
  = marks <$> fields Sample.blank !! 4%nat.
Proof.
  apply (optional_never_marked Sample.ctx Sample.blank).
  vm_compute. intros H.
  repeat (apply elem_of_cons in H as [H | H]; [discriminate|]).
  inversion H.
Defined.

(** X8. The two error marks never part: if on every control the class
    [is-error] is present exactly when [aria-invalid] is ["true"], as on a
    page whose markup has neither, then this is so after any sequence of
    events. *)
Theorem marks_stay_coupled (c : Ctx) (s : State) (es : list Event) :
  Forall coupled (fields s) →
  Forall coupled (fields (steps c (listeners c) es s)).
Proof.
  intros Hs. apply Forall_lookup. intros i y Hy.
  pose proof (steps_derived c es s i) as H. rewrite Hy in H.
  inversion H as [x y' Hd Hx|]; subst.
  eapply derived_coupled; [eassumption|].
  eapply Forall_lookup_1; [exact Hs | eauto].
Qed.

Lemma marks_stay_coupled_witness :
  Forall coupled
    (fields (steps Sample.ctx (listeners Sample.ctx)
               [Submit; Input 1%nat (lit "a@b"); Blur 0%nat] Sample.bad_email)).
Proof.
  apply (marks_stay_coupled Sample.ctx Sample.bad_email).
  repeat constructor; vm_compute; intros H; exfalso.
  all: first [ apply elem_of_empty in H; exact H
             | discriminate H
             | idtac ].
Defined.

(** X9. No event changes what a control is: through any sequence of events
    the form has the same number of controls, and each keeps its type, its
    default value, every class token other than [is-error] and every
    attribute other than [aria-invalid], so also its id and its [required]
    attribute. *)
Theorem controls_keep_identity (c : Ctx) (s : State) (es : list Event) :
  length (fields (steps c (listeners c) es s)) = length (fields s)
  ∧ ∀ i x y,
      fields s !! i = Some x →
      fields (steps c (listeners c) es s) !! i = Some y →
      type y = type x ∧ defaultValue y = defaultValue x
      ∧ (∀ tok, tok ≠ "is-error"%string → tok ∈ classList y ↔ tok ∈ classList x)
      ∧ (∀ k, k ≠ "aria-invalid"%string → attributes y !! k = attributes x !! k)
      ∧ (∀ ident, has_id ident y = has_id ident x)
      ∧ has_required y = has_required x.
Proof.
  split.
  - apply Nat.le_antisymm; apply Nat.nlt_ge; intros Hlt.
    + pose proof (steps_derived c es s (length (fields s))) as H.
      rewrite (lookup_ge_None_2 (fields s)) in H by lia.
      destruct (lookup_lt_is_Some_2 _ _ Hlt) as [y Hy]. rewrite Hy in H.
      inversion H.
    + pose proof (steps_derived c es s
                    (length (fields (steps c (listeners c) es s)))) as H.
      rewrite (lookup_ge_None_2 (fields (steps c (listeners c) es s))) in H by lia.
      destruct (lookup_lt_is_Some_2 _ _ Hlt) as [x Hx]. rewrite Hx in H.
      inversion H.
  - intros i x y Hx Hy. pose proof (steps_derived c es s i) as H.
    rewrite Hx, Hy in H. inversion H as [? ? Hd|]; subst.
    destruct (derived_frame _ _ _ Hd) as (Ht & Hdf & Hc & Ha).
    repeat split; auto; try apply Hc; auto.
    + intros ident. unfold has_id. rewrite Ha by discriminate. reflexivity.
    + unfold has_required. rewrite Ha by discriminate. reflexivity.
Qed.

Section Requests.

Lemma payload_to_endpoint (fs : list Field) (now : Z) (r : Request) :
  payload fs now = Some r →
  to_endpoint r
  ∧ (properties (body r)).*1
    = lit <$> ["name"; "email"; "business"; "description"; "budget";
               "timestamp"; "_replyto"; "_subject"]%string.
Proof.
  unfold payload.
  destruct (value_of "cname" fs); simpl; [|discriminate].
  destruct (value_of "cemail" fs); simpl; [|discriminate].
  destruct (value_of "cbusiness" fs); simpl; [|discriminate].
  destruct (value_of "cdesc" fs); simpl; [|discriminate].
  destruct (value_of "cbudget" fs); simpl; [|discriminate].
  intros [= <-]. repeat split.
Qed.

(** The submit listener issues one request, the payload, or none. *)
Lemma onSubmit_requests (c : Ctx) (s : State) :
  requests (onSubmit c s) = requests s
  ∨ ∃ r, payload (fields s) (clock s) = Some r
         ∧ requests (onSubmit c s) = requests s ++ [r].
Proof.
  destruct ((validateAll (required c) (fields s)).1) eqn:Hv.
  - rewrite onSubmit_valid by assumption.
    destruct (payload (fields s) (clock s)) as [r|]; simpl; eauto.
  - left. apply onSubmit_invalid_quiet. assumption.
Qed.

Lemma step_requests (c : Ctx) (e : Event) (s : State) :
  requests (step c (listeners c) e s) = requests s
  ∨ ∃ r, payload (fields s) (clock s) = Some r
         ∧ requests (step c (listeners c) e s) = requests s ++ [r].
Proof.
  destruct e as [i | i v | | k r | dt].
  - rewrite step_Blur. auto.
  - rewrite step_Input. auto.
  - rewrite step_Submit. apply onSubmit_requests.
  - rewrite step_Settle. destruct (decide _); [|auto].
    left.
    destruct (branch_frame (outcome r) c
                (set_pending (filter (λ j, j ≠ k) (pending s)) s))
      as (_ & _ & -> & _).
    reflexivity.
  - simpl. rewrite advance_state. auto.
Qed.

End Requests.

(** X10. Whatever happens on a page where the component has started, the
    only requests it ever issues are POSTs to the one endpoint with the
    headers [Content-Type] and [Accept] set to [application/json], each
    with a body of exactly the eight properties name, email, business,
    description, budget, timestamp, _replyto and _subject, in this order. *)
Theorem only_posts_to_endpoint (d : Document) (now : Z) (c : Ctx)
    (table : list Listener) (s0 : State) (es : list Event) :
  initContactForm d now = Installed c table s0 →
  Forall
    (λ r, to_endpoint r
          ∧ (properties (body r)).*1
            = lit <$> ["name"; "email"; "business"; "description"; "budget";
                       "timestamp"; "_replyto"; "_subject"]%string)
    (requests (steps c table es s0)).
Proof.
  intros Hinit.
  assert (table = listeners c ∧ requests s0 = []) as [-> Hr0].
  { unfold initContactForm in Hinit.
    destruct (contactForm d) as [form|]; [|discriminate].
    destruct (formSuccess d); [|discriminate].
    destruct (submitControl form); [|discriminate].
    injection Hinit as <- <- <-. split; reflexivity. }
  induction es as [|e es IH] using rev_ind.
  - change (steps c (listeners c) [] s0) with s0. rewrite Hr0. constructor.
  - rewrite steps_snoc.
    destruct (step_requests c e (steps c (listeners c) es s0))
      as [-> | (r & Hpay & ->)]; [assumption|].
    apply Forall_app. split; [assumption|].
    constructor; [|constructor]. eapply payload_to_endpoint. eassumption.
Qed.

Lemma only_posts_to_endpoint_witness :
  Forall to_endpoint
    (requests (steps Sample.ctx (listeners Sample.ctx)
                 [Submit; Settle 0 ok_false; Submit] Sample.filled)).
Proof.
  eapply Forall_impl;
    [apply (only_posts_to_endpoint _ _ _ _ _ _ sample_init) | ].
  intros r [H _]. exact H.
Defined.

(** X11. What validation lets through is what is sent: on a valid submit,
    each of the controls [#cname], [#cemail], [#cbusiness] and [#cdesc]
    that is a required one goes into the body trimmed and not empty; and if
    it is of type email, as [#cemail] is meant to be, the text that is sent
    holds an at sign. *)
Theorem sent_values_validated (c : Ctx) (s : State) (r : Request)
    (ident key : string) (i : nat) (f : Field) :
  (ident, key) ∈ payload_keys →
  (validateAll (required c) (fields s)).1 = true →
  payload (fields s) (clock s) = Some r →
  List.find (has_id ident) (fields s) = Some f →
  i ∈ required c → fields s !! i = Some f →
  sent key r = Some (trim (value f))
  ∧ trim (value f) ≠ []
  ∧ (type f = "email"%string → at_sign ∈ trim (value f)).
Proof.
  intros Hkey Hv Hpay Hfind Hi Hf.
  apply validateAll_verdict with (i := i) (f := f) in Hv; [|assumption..].
  apply not_false_iff_true in Hv. rewrite validateField_verdict in Hv.
  unfold invalid in Hv.
  assert (value_of ident (fields s) = Some (value f)) as Hval
    by (unfold value_of; rewrite Hfind; reflexivity).
  split; [|split].
  - unfold payload in Hpay. unfold payload_keys in Hkey.
    repeat (apply elem_of_cons in Hkey as [[= -> ->] | Hkey]);
      [..|inversion Hkey]; rewrite ?Hval in Hpay;
      repeat (match type of Hpay with context [value_of ?k (fields s)] =>
                destruct (value_of k (fields s)); simpl in Hpay;
                [|discriminate Hpay] end);
      simpl in Hpay; injection Hpay as <-; reflexivity.
  - tauto.
  - intros Hty. destruct (decide (at_sign ∈ value f)) as [Hat | Hno].
    + apply trim_keeps; [assumption | reflexivity].
    + exfalso. apply Hv. right. repeat split; auto.
      intros Hnil. apply Hv. left. rewrite Hnil. reflexivity.
Qed.

Lemma sent_values_validated_witness :
  ∃ r, payload (fields Sample.filled) (clock Sample.filled) = Some r
       ∧ sent "email" r = Some (lit "a@b.com").
Proof.
  destruct (payload (fields Sample.filled) (clock Sample.filled))
    as [r|] eqn:Hpay; [|vm_compute in Hpay; discriminate].
  exists r. split; [reflexivity|].
  destruct (sent_values_validated Sample.ctx Sample.filled r "cemail" "email"
              1%nat (Sample.control "cemail" "email" true (lit "a@b.com")))
    as (Hsent & _).
  - unfold payload_keys. rewrite !elem_of_cons. auto.
  - vm_compute. reflexivity.
  - exact Hpay.
  - vm_compute. reflexivity.
  - vm_compute. repeat constructor.
  - reflexivity.
  - exact Hsent.
Defined.

(** * Properties of the active navigation link *)

Section ActiveNavFacts.
Import ActiveNav.

Lemma stripSlash_snoc (t : list N) (c : N) :
  stripSlash (t ++ [c]) = if c =? slash then t else t ++ [c].
Proof.
  unfold stripSlash. rewrite rev_app_distr. simpl.
  destruct (c =? slash); [apply rev_involutive | reflexivity].
Qed.

Lemma normalize_snoc (t : list N) (c : N) :
  normalize (t ++ [c]) =
    if c =? slash then (match t with [] => [slash] | _ :: _ => t end)
    else t ++ [c].
Proof.
  unfold normalize. rewrite stripSlash_snoc.
  destruct (c =? slash); [destruct t; reflexivity|].
  destruct t; reflexivity.
Qed.

Lemma normalize_nonempty (s : list N) : normalize s ≠ [].
Proof.
  destruct s as [|c t] using rev_ind; [discriminate|].
  rewrite normalize_snoc. destruct (c =? slash).
  - destruct t; discriminate.
  - destruct t; discriminate.
Qed.

Lemma startsWith_prefix (needle s : list N) :
  startsWith needle s = true ↔ ∃ rest, s = needle ++ rest.
Proof.
  revert s. induction needle as [|n needle IH]; intros s; simpl.
  - split; eauto.
  - destruct s as [|c s].
    + split; [discriminate | intros [? ?]; discriminate].
    + rewrite andb_true_iff, N.eqb_eq, IH. split.
      * intros [-> [rest ->]]. eauto.
      * intros [rest [= -> ->]]. eauto.
Qed.

Lemma isActive_section (path href : list N) :
  href ≠ [slash] →
  isActive path href = true ↔
  ∃ rest, path = href ++ rest ∧ (rest = [] ∨ ∃ r, rest = slash :: r).
Proof.
  intros Hh. unfold isActive. rewrite decide_False by assumption.
  rewrite orb_true_iff, bool_decide_eq_true, startsWith_prefix. split.
  - intros [-> | [r ->]].
    + exists []. rewrite app_nil_r. auto.
    + exists (slash :: r). rewrite <- app_assoc. eauto.
  - intros (rest & -> & [-> | [r ->]]).
    + left. apply app_nil_r.
    + right. exists r. rewrite <- app_assoc. reflexivity.
Qed.

Lemma mark_idem (path : list N) (link : Dom.Element) :
  mark path (mark path link) = mark path link.
Proof.
  assert (href_of (mark path link) = href_of link) as Hh.
  { unfold href_of, mark, Dom.getAttribute.
    destruct (isActive _ _); simpl.
    - rewrite lookup_insert_ne by discriminate. reflexivity.
    - rewrite lookup_delete_ne by discriminate. reflexivity. }
  unfold mark at 1. rewrite Hh. unfold mark.
  destruct (isActive path (href_of link)); unfold Dom.setAttribute, Dom.add,
    Dom.removeAttribute, Dom.remove; simpl; f_equal.
  - rewrite (assoc_L (∪)), (idemp_L (∪)). reflexivity.
  - apply insert_insert_eq.
  - apply difference_twice_L.
  - apply delete_delete_eq.
Qed.

End ActiveNavFacts.

(** X12. The path and every href are compared after normalization, which
    never answers the empty string: the empty string and a lone slash
    become the slash, one trailing slash is dropped from anything longer,
    and a string that does not end in a slash is left alone. Only one
    slash goes: [a//] becomes [a/]. *)
Theorem normalize_cases (s t : list N) (c : N) :
  ActiveNav.normalize s ≠ []
  ∧ ActiveNav.normalize [] = [ActiveNav.slash]
  ∧ ActiveNav.normalize [ActiveNav.slash] = [ActiveNav.slash]
  ∧ ActiveNav.normalize ((c :: t) ++ [ActiveNav.slash]) = c :: t
  ∧ (c ≠ ActiveNav.slash → ActiveNav.normalize (t ++ [c]) = t ++ [c]).
Proof.
  split; [apply normalize_nonempty|].
  split; [reflexivity|]. split; [reflexivity|]. split.
  - rewrite normalize_snoc. reflexivity.
  - intros Hc. rewrite normalize_snoc.
    apply N.eqb_neq in Hc. rewrite Hc. reflexivity.
Qed.

(** X13. [initActiveNav] leaves every link marked according to its own
    href and the path, whatever marks the markup gave it: the class
    [is-active] and [aria-current="page"] are both there when the link is
    active and both gone when it is not; nothing else on the link changes,
    and running it a second time changes nothing. *)
Theorem initActiveNav_marks (pathname : list N) (links : list Dom.Element)
    (i : nat) (link : Dom.Element) :
  links !! i = Some link →
  ∃ link',
    ActiveNav.initActiveNav pathname links !! i = Some link'
    ∧ (if ActiveNav.isActive (ActiveNav.normalize pathname) (ActiveNav.href_of link)
       then "is-active"%string ∈ Dom.classes link'
            ∧ Dom.getAttribute "aria-current" link' = Some (lit "page")
       else ("is-active"%string ∉ Dom.classes link')
            ∧ Dom.getAttribute "aria-current" link' = None)
    ∧ (∀ tok, tok ≠ "is-active"%string →
         tok ∈ Dom.classes link' ↔ tok ∈ Dom.classes link)
    ∧ (∀ k, k ≠ "aria-current"%string →
         Dom.getAttribute k link' = Dom.getAttribute k link)
    ∧ ActiveNav.initActiveNav pathname (ActiveNav.initActiveNav pathname links)
      = ActiveNav.initActiveNav pathname links.
Proof.
  intros Hl. exists (ActiveNav.mark (ActiveNav.normalize pathname) link).
  split.
  { unfold ActiveNav.initActiveNav. destruct links; [discriminate|].
    rewrite list_lookup_fmap, Hl. reflexivity. }
  split; [|split; [|split]].
  - unfold ActiveNav.mark, Dom.getAttribute.
    destruct (ActiveNav.isActive _ _); simpl; split.
    + apply elem_of_union. left. apply elem_of_singleton. reflexivity.
    + apply lookup_insert_eq.
    + intros [_ H]%elem_of_difference. apply H, elem_of_singleton. reflexivity.
    + apply lookup_delete_eq.
  - intros tok Htok. unfold ActiveNav.mark.
    destruct (ActiveNav.isActive _ _); simpl.
    + rewrite elem_of_union, elem_of_singleton. tauto.
    + rewrite elem_of_difference, elem_of_singleton. tauto.
  - intros k Hk. unfold ActiveNav.mark, Dom.getAttribute.
    destruct (ActiveNav.isActive _ _); simpl.
    + apply lookup_insert_ne. congruence.
    + apply lookup_delete_ne. congruence.
  - unfold ActiveNav.initActiveNav. destruct links as [|l ls]; [reflexivity|].
    change (ActiveNav.mark (ActiveNav.normalize pathname) <$>
              (ActiveNav.mark (ActiveNav.normalize pathname) <$> (l :: ls))
            = ActiveNav.mark (ActiveNav.normalize pathname) <$> (l :: ls)).
    rewrite <- list_fmap_compose. apply list_fmap_ext.
    intros ? ? _. apply mark_idem.
Qed.

Lemma initActiveNav_marks_witness :
  ∃ link',
    ActiveNav.initActiveNav (lit "/services/")
      [ActiveNav.link_to "/"; ActiveNav.link_to "/services"] !! 1%nat
    = Some link'
    ∧ "is-active"%string ∈ Dom.classes link'.
Proof.
  destruct (initActiveNav_marks (lit "/services/")
              [ActiveNav.link_to "/"; ActiveNav.link_to "/services"] 1%nat
              (ActiveNav.link_to "/services") eq_refl)
    as (link' & Hl & Hm & _).
  exists link'. split; [exact Hl|].
  change (ActiveNav.isActive _ _) with true in Hm. apply Hm.
Defined.

(** X14. A link counts as the home link when its href normalizes to the
    slash, which the empty href and the missing href do as well; it is
    active on the paths [""], ["/"] and ["//"] and on no other. *)
Theorem home_link_active (pathname : list N) (link : Dom.Element) :
  (Dom.getAttribute "href" link = None → ActiveNav.href_of link = [ActiveNav.slash])
  ∧ (Dom.getAttribute "href" link = Some [] → ActiveNav.href_of link = [ActiveNav.slash])
  ∧ (ActiveNav.href_of link = [ActiveNav.slash] →
     ActiveNav.isActive (ActiveNav.normalize pathname) (ActiveNav.href_of link) = true
     ↔ pathname = [] ∨ pathname = [ActiveNav.slash]
       ∨ pathname = [ActiveNav.slash; ActiveNav.slash]).
Proof.
  split; [|split].
  - unfold ActiveNav.href_of. intros ->. reflexivity.
  - unfold ActiveNav.href_of. intros ->. reflexivity.
  - intros ->. unfold ActiveNav.isActive. rewrite decide_True by reflexivity.
    rewrite orb_true_iff, !bool_decide_eq_true.
    split.
    + intros [H | H]; [destruct (normalize_nonempty _ H)|].
      destruct pathname as [|c t] using rev_ind; [auto|].
      rewrite normalize_snoc in H. destruct (c =? ActiveNav.slash) eqn:Hc.
      * apply N.eqb_eq in Hc as ->. destruct t as [|d t]; [auto|].
        injection H as -> ->. auto.
      * destruct t as [|d t]; [|destruct t; discriminate].
        injection H as ->. discriminate.
    + intros [-> | [-> | ->]]; right; reflexivity.
Qed.

(** X15. Any other link is active exactly when its normalized href is the
    path or a whole-segment prefix of it: [/services] is active on
    [/services] and on [/services/web], not on [/services-old]; and a link
    whose href does not begin with a slash (an absolute URL, an anchor) is
    active on no path that does. *)
Theorem section_link_active (pathname : list N) (link : Dom.Element) :
  ActiveNav.href_of link ≠ [ActiveNav.slash] →
  (ActiveNav.isActive (ActiveNav.normalize pathname) (ActiveNav.href_of link) = true
   ↔ ∃ rest,
       ActiveNav.normalize pathname = ActiveNav.href_of link ++ rest
       ∧ (rest = [] ∨ ∃ r, rest = ActiveNav.slash :: r))
  ∧ ((∃ p, pathname = ActiveNav.slash :: p) →
     (∀ h, ActiveNav.href_of link ≠ ActiveNav.slash :: h) →
     ActiveNav.isActive (ActiveNav.normalize pathname) (ActiveNav.href_of link)
     = false).
Proof.
  intros Hh. split; [apply isActive_section; assumption|].
  intros [p ->] Hno. apply not_true_iff_false.
  rewrite isActive_section by assumption. intros (rest & Hp & _).
  assert (∃ q, ActiveNav.normalize (ActiveNav.slash :: p) = ActiveNav.slash :: q)
    as [q Hq].
  { destruct p as [|c t] using rev_ind; [exists []; reflexivity|].
    change (ActiveNav.slash :: t ++ [c]) with ((ActiveNav.slash :: t) ++ [c]).
    rewrite normalize_snoc. destruct (c =? ActiveNav.slash); eauto. }
  rewrite Hq in Hp.
  destruct (ActiveNav.href_of link) as [|c h] eqn:Eh.
  - unfold ActiveNav.href_of in Eh. destruct (normalize_nonempty _ Eh).
  - injection Hp as <- _. apply (Hno h). reflexivity.
Qed.

Lemma section_link_active_witness :
  ActiveNav.isActive (ActiveNav.normalize (lit "/services/web"))
    (ActiveNav.href_of (ActiveNav.link_to "/services")) = true
  ∧ ActiveNav.isActive (ActiveNav.normalize (lit "/services-old"))
      (ActiveNav.href_of (ActiveNav.link_to "/services")) = false
  ∧ ActiveNav.isActive (ActiveNav.normalize (lit "/services"))
      (ActiveNav.href_of (ActiveNav.link_to "https://example.org/services"))
    = false.
Proof.
  split; [|split]; [vm_compute; reflexivity..|].
  apply (section_link_active (lit "/services")
           (ActiveNav.link_to "https://example.org/services")).
  - vm_compute. discriminate.
  - eexists. reflexivity.
  - intros h. vm_compute. discriminate.
Defined.

(** * Properties of the mobile navigation *)

Section MobileNavFacts.
Import MobileNav.

Lemma open_shown (s : State) : shown (open s).
Proof.
  unfold shown, open, Dom.getAttribute; simpl. repeat split.
  - apply elem_of_union. left. apply elem_of_singleton. reflexivity.
  - apply elem_of_union. left. apply elem_of_singleton. reflexivity.
  - rewrite lookup_insert_ne by discriminate. apply lookup_insert_eq.
  - apply lookup_insert_eq.
Qed.

Lemma close_put_away (s : State) : put_away (close s).
Proof.
  unfold put_away, close, Dom.getAttribute; simpl. repeat split.
  - intros [_ H]%elem_of_difference. apply H, elem_of_singleton. reflexivity.
  - intros [_ H]%elem_of_difference. apply H, elem_of_singleton. reflexivity.
  - rewrite lookup_insert_ne by discriminate. apply lookup_insert_eq.
  - apply lookup_insert_eq.
Qed.

Lemma is_open_open (s : State) : is_open (open s) = true.
Proof.
  apply bool_decide_eq_true. simpl.
  apply elem_of_union. left. apply elem_of_singleton. reflexivity.
Qed.

Lemma is_open_close (s : State) : is_open (close s) = false.
Proof. apply bool_decide_eq_false. apply close_put_away. Qed.

(** Each event leaves the state alone, or opens the menu, or closes it. *)
Lemma step_cases (e : Event) (s : State) :
  step e s = s ∨ step e s = open s ∨ step e s = close s.
Proof.
  destruct e as [[b| | |]|key]; simpl.
  - unfold onToggleClick, onDocumentClick. simpl.
    rewrite !andb_false_r. destruct (is_open s); auto.
  - unfold onDocumentClick. simpl. rewrite andb_false_r. auto.
  - unfold onDocumentClick. simpl. rewrite andb_false_r. auto.
  - unfold onDocumentClick. simpl. destruct (is_open s); auto.
  - unfold onKeydown. destruct (_ && _); auto.
Qed.

Lemma same_rest_refl (s : State) : same_rest s s.
Proof. repeat split; auto. Qed.

Lemma same_rest_trans (s1 s2 s3 : State) :
  same_rest s1 s2 → same_rest s2 s3 → same_rest s1 s3.
Proof.
  intros (Hc & Hn & Ha) (Hc' & Hn' & Ha'). repeat split.
  - intros ?. apply Hc, Hc'; assumption.
  - intros ?. apply Hc', Hc; assumption.
  - intros ?. apply Hc, Hc'; assumption.
  - intros ?. apply Hc', Hc; assumption.
  - congruence.
  - intros k H1 H2. rewrite Ha', Ha by assumption. reflexivity.
Qed.

Lemma same_rest_open (s : State) : same_rest s (open s).
Proof.
  unfold same_rest, open, Dom.getAttribute; simpl. repeat split.
  - intros [?%elem_of_singleton | ?]%elem_of_union; [contradiction | assumption].
  - intros ?. apply elem_of_union. auto.
  - intros [?%elem_of_singleton | ?]%elem_of_union; [contradiction | assumption].
  - intros ?. apply elem_of_union. auto.
  - intros k H1 H2. rewrite !lookup_insert_ne by congruence. reflexivity.
Qed.

Lemma same_rest_close (s : State) : same_rest s (close s).
Proof.
  unfold same_rest, close, Dom.getAttribute; simpl. repeat split.
  - intros [? _]%elem_of_difference. assumption.
  - intros ?. apply elem_of_difference. split; [assumption|].
    intros ?%elem_of_singleton. contradiction.
  - intros [? _]%elem_of_difference. assumption.
  - intros ?. apply elem_of_difference. split; [assumption|].
    intros ?%elem_of_singleton. contradiction.
  - intros k H1 H2. rewrite !lookup_insert_ne by congruence. reflexivity.
Qed.

End MobileNavFacts.

(** X16. Through any sequence of clicks and key presses the menu is in one
    of three conditions: untouched as the markup left it, shown (both
    elements carry [is-open], the toggle says [aria-expanded="true"] and
    "Close navigation menu", the body does not scroll) or put away (the
    reverse of all five). The five never disagree once any listener has
    acted, and nothing else on the two elements ever changes. *)
Theorem mobile_nav_in_sync (es : list MobileNav.Event) (s : MobileNav.State) :
  (MobileNav.steps es s = s
   ∨ MobileNav.shown (MobileNav.steps es s)
   ∨ MobileNav.put_away (MobileNav.steps es s))
  ∧ MobileNav.same_rest s (MobileNav.steps es s).
Proof.
  induction es as [|e es [IH1 IH2]] using rev_ind.
  - split; [left; reflexivity | apply same_rest_refl].
  - unfold MobileNav.steps in *. rewrite foldl_snoc.
    set (s1 := foldl _ s es) in *.
    destruct (step_cases e s1) as [-> | [-> | ->]].
    + split; assumption.
    + split; [right; left; apply open_shown|].
      eapply same_rest_trans; [eassumption | apply same_rest_open].
    + split; [right; right; apply close_put_away|].
      eapply same_rest_trans; [eassumption | apply same_rest_close].
Qed.

(** X17. A click on the toggle flips the menu: it is shown afterwards if
    it was not open and put away if it was. The listener at the document,
    which the same click reaches next, does not undo this, wherever the
    toggle sits. *)
Theorem toggle_click_flips (insideNav : bool) (s : MobileNav.State) :
  MobileNav.is_open (MobileNav.step (MobileNav.Click (MobileNav.OnToggle insideNav)) s)
  = negb (MobileNav.is_open s)
  ∧ (MobileNav.is_open s = false →
     MobileNav.shown (MobileNav.step (MobileNav.Click (MobileNav.OnToggle insideNav)) s))
  ∧ (MobileNav.is_open s = true →
     MobileNav.put_away (MobileNav.step (MobileNav.Click (MobileNav.OnToggle insideNav)) s)).
Proof.
  simpl. unfold MobileNav.onDocumentClick, MobileNav.onToggleClick. simpl.
  rewrite !andb_false_r.
  destruct (MobileNav.is_open s) eqn:Ho; simpl.
  - rewrite is_open_close. split; [reflexivity|]. split; [discriminate|].
    intros _. apply close_put_away.
  - rewrite is_open_open. split; [reflexivity|]. split; [|discriminate].
    intros _. apply open_shown.
Qed.

(** X18. The ways out of the menu. While it is open, a click outside the
    nav and the toggle, and the Escape key, put it away and release the
    scroll lock; a click inside the nav that is not on a link, and any
    other key, change nothing. While it is not open, clicks outside and
    keys change nothing. A click on a link of the menu runs [close]
    whether the menu is open or not, so it always leaves the body's
    overflow style empty. *)
Theorem closing_paths (s : MobileNav.State) :
  (MobileNav.is_open s = true →
     MobileNav.put_away (MobileNav.step (MobileNav.Click MobileNav.Outside) s)
     ∧ MobileNav.put_away (MobileNav.step (MobileNav.Keydown "Escape") s))
  ∧ (MobileNav.is_open s = false →
       MobileNav.step (MobileNav.Click MobileNav.Outside) s = s
       ∧ ∀ key, MobileNav.step (MobileNav.Keydown key) s = s)
  ∧ MobileNav.step (MobileNav.Click MobileNav.InsideNav) s = s
  ∧ (∀ key, key ≠ "Escape"%string → MobileNav.step (MobileNav.Keydown key) s = s)
  ∧ MobileNav.step (MobileNav.Click MobileNav.OnLink) s = MobileNav.close s
  ∧ MobileNav.overflow (MobileNav.step (MobileNav.Click MobileNav.OnLink) s) = [].
Proof.
  simpl. unfold MobileNav.onDocumentClick, MobileNav.onKeydown. simpl.
  rewrite !andb_false_r.
  split; [intros ->; split; apply close_put_away|].
  split; [intros ->; split; [reflexivity|]; intros key;
          rewrite andb_false_r; reflexivity|].
  split; [reflexivity|].
  split; [|split; reflexivity].
  intros key Hk. apply String.eqb_neq in Hk. rewrite Hk. reflexivity.
Qed.

(** * Properties of the sticky header *)

Section HeaderFacts.
Import Header.

Lemma onFrame_settles (s : State) :
  frames s = 0%nat → settled (onFrame s).
Proof.
  intros Hf. unfold settled, matches, onFrame, Dom.toggle. simpl.
  split; [assumption|]. split; [reflexivity|].
  destruct (PrimFloat.ltb 10 (scrollY s)); simpl.
  - split; [reflexivity|]. intros _.
    apply elem_of_union. left. apply elem_of_singleton. reflexivity.
  - split; [|discriminate].
    intros [_ H]%elem_of_difference. destruct H. apply elem_of_singleton. reflexivity.
Qed.

Lemma step_invariant (e : Event) (s : State) :
  settled s ∨ waiting s → settled (step e s) ∨ waiting (step e s).
Proof.
  intros [(Hf & Ht & Hm) | (Hf & Ht)]; destruct e as [y|]; simpl.
  - right. unfold onScroll. simpl. rewrite Ht. split; simpl; congruence.
  - left. rewrite Hf. simpl. repeat split; simpl; try assumption; apply Hm.
  - right. unfold onScroll. simpl. rewrite Ht. split; simpl; auto.
  - left. rewrite Hf. simpl. apply onFrame_settles. reflexivity.
Qed.

Lemma step_loose (e : Event) (s : State) :
  idle s ∨ waiting s → idle (step e s) ∨ waiting (step e s).
Proof.
  intros [(Hf & Ht) | (Hf & Ht)]; destruct e as [y|]; simpl.
  - right. unfold onScroll. simpl. rewrite Ht. split; simpl; congruence.
  - left. rewrite Hf. simpl. split; simpl; auto.
  - right. unfold onScroll. simpl. rewrite Ht. split; simpl; auto.
  - left. rewrite Hf. simpl. split; reflexivity.
Qed.

Lemma steps_loose (es : list Event) (s : State) :
  idle s ∨ waiting s → idle (steps es s) ∨ waiting (steps es s).
Proof.
  revert s. induction es as [|e es IH]; intros s H; [exact H|].
  apply IH, step_loose, H.
Qed.

Lemma steps_invariant (es : list Event) (s : State) :
  settled s ∨ waiting s → settled (steps es s) ∨ waiting (steps es s).
Proof.
  revert s. induction es as [|e es IH]; intros s H; [exact H|].
  apply IH, step_invariant, H.
Qed.

Lemma frame_settles (s : State) :
  settled s ∨ waiting s → settled (step Frame s).
Proof.
  intros [(Hf & Ht & Hm) | (Hf & Ht)]; simpl; rewrite Hf; simpl.
  - repeat split; simpl; try assumption; apply Hm.
  - apply onFrame_settles. reflexivity.
Qed.

Lemma idle_frames (n : nat) (s : State) :
  idle s → steps (replicate n Frame) s = s.
Proof.
  intros [Hf Ht]. induction n as [|n IH]; [reflexivity|].
  simpl. rewrite Hf. simpl.
  replace (mkState (header s) (scrollY s) (ticking s) 0) with s
    by (destruct s; simpl in *; congruence).
  exact IH.
Qed.

End HeaderFacts.

(** X19. The scroll listener is throttled to the animation frame: however
    many scroll events arrive, at most one callback waits for the next
    frame, and the flag [ticking] is set exactly while one waits. *)
Theorem scroll_is_throttled (es : list Header.Event) (s : Header.State) :
  Header.idle s →
  (Header.frames (Header.steps es s) ≤ 1)%nat
  ∧ (Header.ticking (Header.steps es s) = true
     ↔ Header.frames (Header.steps es s) = 1%nat).
Proof.
  intros Hidle.
  destruct (steps_loose es s (or_introl Hidle)) as [[-> ->] | [-> ->]];
    split; try lia; split; congruence.
Qed.

Lemma scroll_is_throttled_witness :
  Header.frames
    (Header.steps [Header.Scroll 5; Header.Scroll 40; Header.Scroll 300]
       (Header.mkState (Dom.mkElement ∅ ∅) 0 false 0)) = 1%nat.
Proof.
  destruct (scroll_is_throttled
              [Header.Scroll 5; Header.Scroll 40; Header.Scroll 300]
              (Header.mkState (Dom.mkElement ∅ ∅) 0 false 0))
    as [_ [H _]].
  - split; reflexivity.
  - apply H. reflexivity.
Defined.

(** X20. Throttling loses no position: the callback reads the scroll
    position when it runs, so after any events that include a scroll, the
    next frame leaves the header with [is-scrolled] exactly when the page
    is then more than 10 pixels down, with nothing waiting. Until the
    first scroll the header is not touched at all, also on a page that was
    loaded already scrolled. *)
Theorem header_follows_scroll (es : list Header.Event) (s : Header.State) :
  Header.idle s →
  ((∃ y, Header.Scroll y ∈ es) →
     Header.settled (Header.steps (es ++ [Header.Frame]) s))
  ∧ ((∀ e, e ∈ es → e = Header.Frame) → Header.steps es s = s).
Proof.
  intros Hidle. split.
  - intros [y Hy]. apply list_elem_of_split in Hy as (pre & post & ->).
    unfold Header.steps. rewrite <- app_assoc, !foldl_app. simpl.
    apply frame_settles. apply steps_invariant.
    fold (Header.steps pre s).
    destruct (steps_loose pre s (or_introl Hidle)) as [[Hf Ht] | [Hf Ht]];
      right; unfold Header.onScroll; simpl; rewrite Ht; split; simpl;
      congruence.
  - intros Hall.
    assert (es = replicate (length es) Header.Frame) as ->.
    { induction es as [|e es IH]; [reflexivity|]. simpl. f_equal.
      - apply Hall, elem_of_cons. auto.
      - apply IH. intros e' He'. apply Hall, elem_of_cons. auto. }
    apply idle_frames. assumption.
Qed.

Lemma header_follows_scroll_witness :
  "is-scrolled"%string
    ∈ Dom.classes
        (Header.header
           (Header.steps
              [Header.Scroll 5; Header.Scroll 300; Header.Frame]
              (Header.mkState (Dom.mkElement ∅ ∅) 0 false 0))).
Proof.
  destruct (header_follows_scroll [Header.Scroll 5; Header.Scroll 300]
              (Header.mkState (Dom.mkElement ∅ ∅) 0 false 0))
    as [H _].
  - split; reflexivity.
  - destruct H as (_ & _ & Hm).
    + exists 5%float. apply elem_of_cons. auto.
    + apply Hm. vm_compute. reflexivity.
Defined.

(** * Properties of the chart animation *)

Section ChartFacts.
Import Chart.

Lemma start_timers (l : list nat) (s : State) :
  foldl (λ s i, setTimeout (Grow i) (Z.of_nat i * 80) s) s l
  = mkState (bars s) (clock s)
      (timers s ++ ((λ i, ((clock s + Z.of_nat i * 80)%Z, Grow i)) <$> l)).
Proof.
  revert s. induction l as [|i l IH]; intros s; simpl.
  - rewrite app_nil_r. destruct s; reflexivity.
  - rewrite IH. unfold setTimeout. simpl. rewrite <- app_assoc. reflexivity.
Qed.

Lemma run_clock (cb : Timer) (s : State) : clock (run cb s) = clock s.
Proof. destruct cb; simpl; [rewrite start_timers|]; reflexivity. Qed.

Lemma run_on_schedule (t0 d : Z) (cb : Timer) (s : State) :
  (d ≤ clock s)%Z →
  match cb with
  | Start => (t0 + 600 ≤ d)%Z
  | Grow i => (t0 + 600 + Z.of_nat i * 80 ≤ d)%Z
  end →
  on_schedule t0 s → on_schedule t0 (run cb s).
Proof.
  intros Hd Hcb [Hb Ht]. destruct cb as [|i]; simpl.
  - rewrite start_timers. split; simpl; [exact Hb|].
    intros d' cb' [Hin | Hin]%elem_of_app; [exact (Ht _ _ Hin)|].
    apply list_elem_of_fmap in Hin as (j & [= -> ->] & _). lia.
  - split; simpl; [|exact Ht].
    intros j b. destruct (decide (i = j)) as [-> | Hne].
    + rewrite list_lookup_alter_eq. intros _. right. lia.
    + rewrite list_lookup_alter_ne by assumption. apply Hb.
Qed.

Lemma run_all_on_schedule (t0 : Z) (due : list (Z * Timer)) (s : State) :
  Forall (λ t, (t.1 ≤ clock s)%Z
               ∧ match t.2 with
                 | Start => (t0 + 600 ≤ t.1)%Z
                 | Grow i => (t0 + 600 + Z.of_nat i * 80 ≤ t.1)%Z
                 end) due →
  on_schedule t0 s →
  on_schedule t0 (foldl (λ s t, run t.2 s) s due).
Proof.
  revert s. induction due as [|[d cb] due IH]; intros s Hdue Hs; [exact Hs|].
  apply Forall_cons in Hdue as [[Hd Hcb] Hdue]. simpl in *.
  apply IH.
  - rewrite run_clock. exact Hdue.
  - eapply run_on_schedule; eauto.
Qed.

Lemma advance_on_schedule (t0 : Z) (dt : N) (s : State) :
  on_schedule t0 s → on_schedule t0 (advance dt s).
Proof.
  intros [Hb Ht]. unfold advance. apply run_all_on_schedule.
  - apply Forall_forall. intros [d cb] [Hdue Hin]%list_elem_of_filter.
    simpl in *. split; [exact Hdue|]. apply (Ht d cb Hin).
  - split; simpl.
    + intros i b Hi. destruct (Hb i b Hi); [auto | right; lia].
    + intros d cb [_ Hin]%list_elem_of_filter. apply Ht. assumption.
Qed.

Lemma advance_clock (dt : N) (s : State) :
  clock (advance dt s) = (clock s + Z.of_N dt)%Z.
Proof.
  unfold advance.
  generalize (filter (λ t, (t.1 ≤ clock s + Z.of_N dt)%Z) (timers s)) as due.
  generalize (filter (λ t, ¬ (t.1 ≤ clock s + Z.of_N dt)%Z) (timers s)) as rest.
  generalize (bars s) as bs.
  intros bs rest due. revert bs rest.
  induction due as [|[d cb] due IH]; intros bs rest; [reflexivity|].
  simpl. destruct cb as [|i]; simpl.
  - rewrite start_timers. simpl. apply IH.
  - apply IH.
Qed.

Lemma init_on_schedule (bs : list Bar) (t0 : Z) :
  bs ≠ [] → on_schedule t0 (initMockChart false bs t0).
Proof.
  intros Hbs. destruct bs as [|b bs]; [contradiction|].
  assert (bars (initMockChart false (b :: bs) t0) = flatten <$> (b :: bs))
    as Hbars by reflexivity.
  assert (timers (initMockChart false (b :: bs) t0) = [((t0 + 600)%Z, Start)])
    as Htimers by reflexivity.
  split.
  - intros i b'. rewrite Hbars, list_lookup_fmap.
    destruct ((b :: bs) !! i); simpl; [|discriminate].
    intros [= <-]. left. reflexivity.
  - intros d cb. rewrite Htimers.
    intros [= -> ->]%list_elem_of_singleton. lia.
Qed.

Lemma advances_on_schedule (bs : list Bar) (t0 : Z) (dts : list N) :
  bs ≠ [] → on_schedule t0 (advances dts (initMockChart false bs t0)).
Proof.
  intros Hbs. unfold advances.
  induction dts as [|dt dts IH] using rev_ind;
    [apply init_on_schedule; assumption|].
  rewrite foldl_snoc. apply advance_on_schedule, IH.
Qed.

Lemma filter_all {A} (P : A → Prop) `{∀ x, Decision (P x)} (l : list A) :
  Forall P l → filter P l = l.
Proof.
  induction 1 as [|x l Hx _ IH]; [reflexivity|].
  rewrite filter_cons_True by assumption. f_equal. exact IH.
Qed.

Lemma filter_none {A} (P : A → Prop) `{∀ x, Decision (P x)} (l : list A) :
  Forall (λ x, ¬ P x) l → filter P l = [].
Proof.
  induction 1 as [|x l Hx _ IH]; [reflexivity|].
  rewrite filter_cons_False by assumption. exact IH.
Qed.

Lemma run_grows (d : nat → Z) (l : list nat) (s : State) :
  foldl (λ s t, run t.2 s) s ((λ i, (d i, Grow i)) <$> l)
  = mkState (foldl (λ bs i, alter grow i bs) (bars s) l) (clock s) (timers s).
Proof.
  revert s. induction l as [|i l IH]; intros s; simpl.
  - destruct s; reflexivity.
  - rewrite IH. reflexivity.
Qed.

Lemma alter_range {A} (g : A → A) (n a j : nat) (l : list A) :
  foldl (λ l i, alter g i l) l (seq a n) !! j
  = if decide (a ≤ j < a + n)%nat then g <$> l !! j else l !! j.
Proof.
  revert a l. induction n as [|n IH]; intros a l; simpl.
  - rewrite decide_False by lia. reflexivity.
  - rewrite IH. destruct (decide (j = a)) as [-> | Hne].
    + rewrite decide_False by lia. rewrite decide_True by lia.
      apply list_lookup_alter_eq.
    + rewrite list_lookup_alter_ne by congruence.
      destruct (decide (S a ≤ j < S a + n)%nat).
      * rewrite decide_True by lia. reflexivity.
      * rewrite decide_False by lia. reflexivity.
Qed.

Lemma alter_all {A} (g : A → A) (l : list A) :
  foldl (λ l i, alter g i l) l (seq 0 (length l)) = g <$> l.
Proof.
  apply list_eq. intros j. rewrite alter_range, list_lookup_fmap.
  destruct (decide _) as [|Hj]; [reflexivity|].
  rewrite lookup_ge_None_2 by lia. reflexivity.
Qed.

(** Without a timer the bars stay as they are, however time passes. *)
Lemma chart_idle (dts : list N) (s : Chart.State) :
  Chart.timers s = [] →
  Chart.bars (Chart.advances dts s) = Chart.bars s
  ∧ Chart.timers (Chart.advances dts s) = [].
Proof.
  revert s. induction dts as [|dt dts IH]; intros s Ht; [auto|].
  change (Chart.advances (dt :: dts) s)
    with (Chart.advances dts (Chart.advance dt s)).
  assert (Chart.bars (Chart.advance dt s) = Chart.bars s
          ∧ Chart.timers (Chart.advance dt s) = []) as [Hb Ht'].
  { unfold Chart.advance. rewrite Ht. simpl. auto. }
  destruct (IH _ Ht') as [-> ->]. auto.
Qed.

End ChartFacts.

(** X21. Without reduced motion the chart's bars rise in a stagger and
    never before their time: however time passes after a start at [t0],
    the bar at position [i] still shows the height [0%] that start-up gave
    it as long as fewer than 600 + 80 i milliseconds have gone by. With
    reduced motion the script does not touch the bars: each is as the
    markup gave it, however time passes. *)
Theorem bars_wait_their_turn (reduced : bool) (bs : list Chart.Bar) (t0 : Z)
    (dts : list N) (i : nat) (b : Chart.Bar) :
  Chart.bars (Chart.advances dts (Chart.initMockChart reduced bs t0)) !! i = Some b →
  (reduced = true → bs !! i = Some b)
  ∧ (reduced = false →
     (Chart.clock (Chart.advances dts (Chart.initMockChart reduced bs t0))
      < t0 + 600 + Z.of_nat i * 80)%Z →
     Chart.height b = lit "0%").
Proof.
  intros Hb. split.
  - intros ->.
    destruct (chart_idle dts (Chart.initMockChart true bs t0)) as [Hbars _];
      [reflexivity|].
    rewrite Hbars in Hb. exact Hb.
  - intros -> Hlt. destruct bs as [|b0 bs'].
    + destruct (chart_idle dts (Chart.initMockChart false [] t0)) as [Hbars _];
        [reflexivity|].
      rewrite Hbars in Hb. simpl in Hb. rewrite lookup_nil in Hb. discriminate.
    + assert (b0 :: bs' ≠ []) as Hbs by discriminate.
      destruct (advances_on_schedule (b0 :: bs') t0 dts Hbs) as [Hs _].
      destruct (Hs i b Hb); [assumption | lia].
Qed.

Lemma bars_wait_their_turn_witness :
  Chart.height
    <$> Chart.bars (Chart.advances [600; 100]
                      (Chart.initMockChart false Chart_sample 0)) !! 2%nat
  = Some (lit "0%").
Proof.
  destruct (Chart.bars (Chart.advances [600; 100]
                          (Chart.initMockChart false Chart_sample 0)) !! 2%nat)
    as [b|] eqn:Hb; [|vm_compute in Hb; discriminate].
  simpl. f_equal.
  apply (bars_wait_their_turn false Chart_sample 0 [600; 100] 2 b).
  - exact Hb.
  - reflexivity.
  - vm_compute. reflexivity.
Defined.

(** X22. Without reduced motion, once the first timer has run, 600 ms or
    more after the start, and then another 80 ms for each further bar have
    passed, every bar has the height named by its [--h] property, or [60%]
    if it has none. With reduced motion the bars are then as the markup
    gave them. No timer is left either way. *)
Theorem bars_reach_their_height (reduced : bool) (bs : list Chart.Bar) (t0 : Z)
    (dt1 dt2 : N) :
  (600 ≤ dt1)%N →
  (80 * (N.of_nat (length bs) - 1) ≤ dt2)%N →
  Chart.bars (Chart.advances [dt1; dt2] (Chart.initMockChart reduced bs t0))
  = (if reduced then bs else Chart.grow <$> bs)
  ∧ Chart.timers (Chart.advances [dt1; dt2] (Chart.initMockChart reduced bs t0))
    = [].
Proof.
  intros H1 H2. destruct reduced.
  { apply (chart_idle [dt1; dt2] (Chart.initMockChart true bs t0)). reflexivity. }
  destruct (decide (bs = [])) as [->|Hbs].
  { apply (chart_idle [dt1; dt2] (Chart.initMockChart false [] t0)). reflexivity. }
  assert (Chart.initMockChart false bs t0
          = Chart.mkState (Chart.flatten <$> bs) t0 [((t0 + 600)%Z, Chart.Start)])
    as -> by (destruct bs; [contradiction | reflexivity]).
  unfold Chart.advances. cbn [foldl].
  assert (Chart.advance dt1
            (Chart.mkState (Chart.flatten <$> bs) t0 [((t0 + 600)%Z, Chart.Start)])
          = Chart.mkState (Chart.flatten <$> bs) (t0 + Z.of_N dt1)
              ((λ i, ((t0 + Z.of_N dt1 + Z.of_nat i * 80)%Z, Chart.Grow i))
                 <$> seq 0 (length bs))) as ->.
  { unfold Chart.advance. cbn [Chart.clock Chart.timers Chart.bars].
    rewrite (filter_all (λ t : Z * Chart.Timer, (t.1 ≤ t0 + Z.of_N dt1)%Z))
      by (repeat constructor; simpl; lia).
    rewrite (filter_none (λ t : Z * Chart.Timer, ¬ (t.1 ≤ t0 + Z.of_N dt1)%Z))
      by (repeat constructor; simpl; lia).
    cbn [foldl fst snd Chart.run Chart.bars]. rewrite start_timers.
    rewrite length_fmap. reflexivity. }
  unfold Chart.advance. cbn [Chart.clock Chart.timers Chart.bars].
  assert (Forall (λ t : Z * Chart.Timer, (t.1 ≤ t0 + Z.of_N dt1 + Z.of_N dt2)%Z)
            ((λ i, ((t0 + Z.of_N dt1 + Z.of_nat i * 80)%Z, Chart.Grow i))
               <$> seq 0 (length bs))) as Hdue.
  { apply Forall_fmap, Forall_forall. intros i Hi%list_elem_of_In%in_seq.
    simpl. lia. }
  rewrite (filter_all
             (λ t : Z * Chart.Timer, (t.1 ≤ t0 + Z.of_N dt1 + Z.of_N dt2)%Z))
    by exact Hdue.
  rewrite (filter_none
             (λ t : Z * Chart.Timer, ¬ (t.1 ≤ t0 + Z.of_N dt1 + Z.of_N dt2)%Z))
    by (eapply Forall_impl; [exact Hdue | intros ? ? ?; auto]).
  rewrite run_grows. cbn [Chart.bars Chart.timers]. split; [|reflexivity].
  rewrite <- (length_fmap Chart.flatten bs), alter_all, <- list_fmap_compose.
  apply list_fmap_ext. intros ? [] _. reflexivity.
Qed.

Lemma bars_reach_their_height_witness :
  Chart.height
    <$> Chart.bars (Chart.advances [650; 160]
                      (Chart.initMockChart false Chart_sample 0))
  = [lit "80%"; lit "60%"; lit "45%"].
Proof.
  destruct (bars_reach_their_height false Chart_sample 0 650 160) as [-> _].
  - vm_compute. discriminate.
  - vm_compute. discriminate.
  - reflexivity.
Defined.

(** * Scroll reveal *)

Section RevealFacts.
Import Reveal.

Lemma delay_cases (idx : Z) :
  (idx ≤ 0 ∧ delay idx = 0)%Z
  ∨ (0 < idx < 5 ∧ delay idx = idx * 70)%Z
  ∨ (5 ≤ idx ∧ delay idx = 350)%Z.
Proof.
  unfold delay. destruct (Z.ltb_spec 0 idx); lia.
Qed.

Lemma delay_text (idx : Z) :
(decimal (delay idx) ++ lit "ms") ∈ delays
  ∧ ((idx ≤ 0)%Z → decimal (delay idx) ++ lit "ms" = lit "0ms")
  ∧ ((5 ≤ idx)%Z → decimal (delay idx) ++ lit "ms" = lit "350ms").
Proof.
  destruct (delay_cases idx) as [[H ->] | [[H ->] | [H ->]]].
  - split; [|split]; [| reflexivity | lia]. vm_compute. left.
  - assert (idx = 1 ∨ idx = 2 ∨ idx = 3 ∨ idx = 4)%Z as Hc by lia.
    split; [|split; lia].
    destruct Hc as [-> | [-> | [-> | ->]]]; vm_compute;
      repeat (first [left | right]).
  - split; [|split]; [| lia | reflexivity]. vm_compute.
    repeat (first [left | right]).
Qed.

Lemma show_stagger_idem (i : nat) (it : Item) :
  show (stagger i (show (stagger i it))) = show (stagger i it).
Proof.
  unfold show, stagger. destruct it as [e st [sibs|]]; simpl;
    f_equal; unfold Dom.add; simpl; f_equal;
    rewrite (assoc_L (∪)), (idemp_L (∪)); reflexivity.
Qed.

Lemma reveal_length (i : nat) (s : State) :
  length (items (reveal i s)) = length (items s).
Proof.
  unfold reveal. destruct (items s !! i); simpl; [apply length_insert | reflexivity].
Qed.

Lemma reveal_same (i : nat) (s : State) (it : Item) :
  items s !! i = Some it →
  items (reveal i s) !! i = Some (show (stagger i it))
  ∧ (i ∉ observed (reveal i s))
  ∧ i ∈ once (reveal i s).
Proof.
  intros Hi. unfold reveal. rewrite Hi. simpl. split; [|split].
  - apply list_lookup_insert_eq. eapply lookup_lt_Some; eauto.
  - intros [_ Hn]%elem_of_difference. apply Hn. apply elem_of_singleton. reflexivity.
  - apply elem_of_app. right. apply list_elem_of_singleton. reflexivity.
Qed.

Lemma reveal_other (i j : nat) (s : State) :
  i ≠ j →
  items (reveal j s) !! i = items s !! i
  ∧ (i ∈ observed (reveal j s) ↔ i ∈ observed s)
  ∧ (i ∈ once (reveal j s) ↔ i ∈ once s).
Proof.
  intros Hne. unfold reveal. destruct (items s !! j); simpl; [|tauto].
  split; [|split].
  - apply list_lookup_insert_ne. auto.
  - rewrite elem_of_difference, elem_of_singleton. tauto.
  - rewrite elem_of_app, list_elem_of_singleton. tauto.
Qed.

Lemma reveal_shrinks (i j : nat) (s : State) :
  (i ∈ observed (reveal j s) → i ∈ observed s)
  ∧ (i ∈ once s → i ∈ once (reveal j s)).
Proof.
  unfold reveal. destruct (items s !! j); simpl; [|tauto]. split.
  - intros [H _]%elem_of_difference. exact H.
  - intros H. apply elem_of_app. left. exact H.
Qed.

Lemma onEntries_snoc (entries : list (nat * bool)) (e : nat * bool) (s : State) :
  onEntries (entries ++ [e]) s
  = if e.2 then reveal e.1 (onEntries entries s) else onEntries entries s.
Proof. unfold onEntries. rewrite foldl_snoc. reflexivity. Qed.

Lemma onEntries_length (entries : list (nat * bool)) (s : State) :
  length (items (onEntries entries s)) = length (items s).
Proof.
  induction entries as [|[j b] entries IH] using rev_ind; [reflexivity|].
  rewrite onEntries_snoc. simpl. destruct b; [rewrite reveal_length|]; exact IH.
Qed.

(** The callback leaves the element of every intersecting entry shown and
    staggered, and every other element as it was. *)
Lemma onEntries_lookup (entries : list (nat * bool)) (s : State) (i : nat)
    (it : Item) :
  items s !! i = Some it →
  items (onEntries entries s) !! i
  = Some (if bool_decide ((i, true) ∈ entries) then show (stagger i it) else it).
Proof.
  revert s it. induction entries as [|[j b] entries IH]; intros s it Hi.
  - rewrite bool_decide_eq_false_2 by apply not_elem_of_nil. exact Hi.
  - change (onEntries ((j, b) :: entries) s)
      with (onEntries entries (if b then reveal j s else s)).
    destruct b.
    + destruct (decide (i = j)) as [<-|Hne].
      * rewrite (IH _ (show (stagger i it))) by (apply reveal_same; exact Hi).
        rewrite (bool_decide_eq_true_2 ((i, true) ∈ (i, true) :: entries))
          by (apply elem_of_cons; left; reflexivity).
        destruct (bool_decide _); [rewrite show_stagger_idem|]; reflexivity.
      * rewrite (IH _ it)
          by (destruct (reveal_other i j s Hne) as (-> & _); exact Hi).
        rewrite (bool_decide_ext ((i, true) ∈ (j, true) :: entries)
                   ((i, true) ∈ entries)); [reflexivity|].
        rewrite elem_of_cons. split; [|auto].
        intros [Heq|H]; [congruence | exact H].
    + rewrite (IH _ it Hi).
      rewrite (bool_decide_ext ((i, true) ∈ (j, false) :: entries)
                 ((i, true) ∈ entries)); [reflexivity|].
      rewrite elem_of_cons. split; [|auto].
      intros [Heq|H]; [congruence | exact H].
Qed.

Lemma onEntries_marks (entries : list (nat * bool)) (s : State) (i : nat) :
  (i, true) ∈ entries → is_Some (items s !! i) →
  (i ∉ observed (onEntries entries s)) ∧ i ∈ once (onEntries entries s).
Proof.
  induction entries as [|[j b] entries IH] using rev_ind; intros Hin [it Hi].
  - exfalso. revert Hin. apply not_elem_of_nil.
  - rewrite onEntries_snoc. simpl.
    apply elem_of_app in Hin as [Hin | Hin%list_elem_of_singleton].
    + destruct (IH Hin (ex_intro _ it Hi)) as [Ho Hc]. destruct b; [|auto].
      destruct (reveal_shrinks i j (onEntries entries s)) as [H1 H2]. auto.
    + injection Hin as <- <-.
      destruct (lookup_lt_is_Some_2 (items (onEntries entries s)) i) as [it' Hi'].
      { rewrite onEntries_length. eapply lookup_lt_Some; eauto. }
      destruct (reveal_same i _ it' Hi') as (_ & Ho & Hc). auto.
Qed.

Lemma onEntries_shrinks (entries : list (nat * bool)) (s : State) (i : nat) :
  (i ∈ observed (onEntries entries s) → i ∈ observed s)
  ∧ (i ∈ once s → i ∈ once (onEntries entries s)).
Proof.
  induction entries as [|[j b] entries IH] using rev_ind; [tauto|].
  rewrite onEntries_snoc. simpl. destruct b; [|exact IH].
  destruct (reveal_shrinks i j (onEntries entries s)). tauto.
Qed.

Lemma onEntries_untouched (entries : list (nat * bool)) (s : State) (i : nat) :
  (i, true) ∉ entries →
  items (onEntries entries s) !! i = items s !! i
  ∧ (i ∈ observed (onEntries entries s) ↔ i ∈ observed s)
  ∧ (i ∈ once (onEntries entries s) ↔ i ∈ once s).
Proof.
  induction entries as [|[j b] entries IH] using rev_ind; intros Hin; [tauto|].
  rewrite onEntries_snoc. simpl.
  assert ((i, true) ∉ entries) as Hin'
    by (intros H; apply Hin, elem_of_app; left; exact H).
  destruct b; [|auto].
  assert (i ≠ j) as Hne.
  { intros ->. apply Hin, elem_of_app. right. apply list_elem_of_singleton.
    reflexivity. }
  destruct (reveal_other i j (onEntries entries s) Hne) as (-> & -> & ->). auto.
Qed.

Lemma revealed_again (i : nat) (it it' : Item) :
  revealed i it it' → revealed i it (show (stagger i it')).
Proof.
  intros (He & Hs & Hst). unfold revealed. unfold stagger in *. rewrite Hs.
  assert (Dom.add "is-visible" (el it') = Dom.add "is-visible" (el it)) as Hadd.
  { rewrite He. unfold Dom.add. simpl. f_equal.
    rewrite (assoc_L (∪)), (idemp_L (∪)). reflexivity. }
  destruct (siblings it) as [sibs|]; simpl.
  - split; [exact Hadd | split; [reflexivity | right; reflexivity]].
  - split; [exact Hadd | split; [exact Hs | exact Hst]].
Qed.

Lemma revealed_first (i : nat) (it : Item) : revealed i it (show (stagger i it)).
Proof.
  unfold revealed, show, stagger.
  destruct it as [e st [sibs|]]; simpl; (split; [|split]); auto.
Qed.

Lemma step_tracked (its : list Item) (e : Event) (s : State) :
  tracked its s → tracked its (step e s).
Proof.
  intros (Hlen & Hit & Honce & Hobs). destruct e as [entries | j]; simpl.
  - set (l := filter (λ e : nat * bool, e.1 ∈ observed s) entries).
    split; [|split; [|split]].
    + rewrite onEntries_length. exact Hlen.
    + intros i it Hi. destruct (Hit i it Hi) as (it' & Hi' & Hc).
      rewrite (onEntries_lookup l s i it' Hi'). eexists. split; [reflexivity|].
      destruct (decide ((i, true) ∈ l)) as [Hin|Hin].
      * rewrite bool_decide_eq_true_2 by exact Hin.
        destruct (onEntries_marks l s i Hin (ex_intro _ it' Hi')) as [Ho _].
        rewrite decide_False by exact Ho.
        destruct (decide (i ∈ observed s)); [subst it'; apply revealed_first|].
        apply revealed_again. exact Hc.
      * rewrite bool_decide_eq_false_2 by exact Hin.
        destruct (onEntries_untouched l s i Hin) as (_ & Ho & _).
        destruct (decide (i ∈ observed s)) as [Hy|Hn].
        -- rewrite decide_True by (apply Ho; exact Hy). exact Hc.
        -- rewrite decide_False by (rewrite Ho; exact Hn). exact Hc.
    + intros i Hi Ho.
      destruct (decide ((i, true) ∈ l)) as [Hin|Hin].
      * destruct (lookup_lt_is_Some_2 (items s) i) as [it' Hi'].
        { apply list_elem_of_filter in Hin as [Hin _]. simpl in Hin.
          rewrite Hlen. apply Hobs. exact Hin. }
        destruct (onEntries_marks l s i Hin (ex_intro _ it' Hi')) as [Hn _]. auto.
      * destruct (onEntries_untouched l s i Hin) as (_ & Ho' & Hc').
        apply (Honce i); [apply Hc'; exact Hi | apply Ho'; exact Ho].
    + intros i Hi. apply Hobs. apply (onEntries_shrinks l s i). exact Hi.
  - unfold onTransitionEnd. destruct (decide (j ∈ once s)) as [Hj|Hj];
      [|split; [|split; [|split]]; assumption].
    unfold tracked. simpl. split; [|split; [|split]].
    + rewrite length_alter. exact Hlen.
    + intros i it Hi. destruct (Hit i it Hi) as (it' & Hi' & Hc).
      destruct (decide (i = j)) as [->|Hne].
      * rewrite list_lookup_alter_eq, Hi'. simpl. eexists. split; [reflexivity|].
        rewrite decide_False by (apply Honce; exact Hj).
        rewrite decide_False in Hc by (apply Honce; exact Hj).
        destruct Hc as (He & Hs & _). split; [|split]; simpl; auto.
      * rewrite list_lookup_alter_ne by auto. eauto.
    + intros i [_ Hi]%list_elem_of_filter. apply Honce. exact Hi.
    + exact Hobs.
Qed.

Lemma steps_tracked (its : list Item) (es : list Event) (s : State) :
  tracked its s → tracked its (steps es s).
Proof.
  revert s. induction es as [|e es IH]; intros s H; [exact H|].
  apply (IH (step e s)), step_tracked, H.
Qed.

Lemma init_tracked (its : list Item) : tracked its (initReveal false its).
Proof.
  unfold initReveal, tracked. destruct its as [|it0 its']; simpl.
  - split; [reflexivity|]. split; [|split].
    + intros i it H. rewrite lookup_nil in H. discriminate.
    + intros i H. exfalso. revert H. apply not_elem_of_nil.
    + intros i H. exfalso. revert H. apply not_elem_of_empty.
  - set (its := it0 :: its').
    assert (∀ i, i ∈ (list_to_set (seq 0 (length its)) : gset nat)
                 ↔ (i < length its)%nat) as Hobs.
    { intros i. rewrite elem_of_list_to_set, elem_of_seq. lia. }
    split; [reflexivity|]. split; [|split].
    + intros i it H. exists it. split; [exact H|].
      rewrite decide_True; [reflexivity|].
      apply Hobs. eapply lookup_lt_Some; eauto.
    + intros i H. exfalso. revert H. apply not_elem_of_nil.
    + intros i H. apply Hobs. exact H.
Qed.

Lemma step_unobserved (e : Event) (s : State) (i : nat) :
  i ∉ observed s → i ∉ observed (step e s).
Proof.
  intros Hn Ho. apply Hn. destruct e as [entries | j]; simpl in Ho.
  - eapply onEntries_shrinks. exact Ho.
  - unfold onTransitionEnd in Ho. destruct (decide (j ∈ once s)); exact Ho.
Qed.

Lemma steps_unobserved (es : list Event) (s : State) (i : nat) :
  i ∉ observed s → i ∉ observed (steps es s).
Proof.
  revert s. induction es as [|e es IH]; intros s H; [exact H|].
  apply (IH (step e s)), step_unobserved, H.
Qed.

Lemma indexOf_from_absent (b : Z) (i : nat) (sibs : list nat) :
  i ∉ sibs → indexOf_from b i sibs = (-1)%Z.
Proof.
  revert b. induction sibs as [|y l IH]; intros b Hn; [reflexivity|].
  simpl. apply not_elem_of_cons in Hn as [Hne Hn].
  rewrite decide_False by auto. apply IH, Hn.
Qed.

Lemma indexOf_from_lookup (b : Z) (i k : nat) (sibs : list nat) :
  NoDup sibs → sibs !! k = Some i → indexOf_from b i sibs = (b + Z.of_nat k)%Z.
Proof.
  revert b k. induction sibs as [|y l IH]; intros b k Hnd Hk.
  - rewrite lookup_nil in Hk. discriminate.
  - apply NoDup_cons in Hnd as [Hy Hnd]. simpl. destruct k as [|k]; simpl in Hk.
    + injection Hk as ->. rewrite decide_True by reflexivity. lia.
    + rewrite decide_False.
      * rewrite (IH (b + 1)%Z k Hnd Hk). lia.
      * intros ->. apply Hy. eapply list_elem_of_lookup_2. exact Hk.
Qed.

End RevealFacts.

(** X23. When the observer reports an element as intersecting, the
    callback leaves it with the class [is-visible], no longer observed and
    with a listener for the end of its transition. Inside a stagger
    container its transition delay is one of 0, 70, 140, 210, 280 and 350
    ms: 70 ms for each sibling before it, 350 ms from the sixth on, and 0 ms
    when it is not among the container's elements, as the container itself.
    Outside of one its delay is not touched. *)
Theorem reveal_staggers (entries : list (nat * bool)) (s : Reveal.State)
    (i : nat) (it : Reveal.Item) :
  (i, true) ∈ entries →
  Reveal.items s !! i = Some it →
  ∃ it',
    Reveal.items (Reveal.onEntries entries s) !! i = Some it'
    ∧ Reveal.visible it'
    ∧ (i ∉ Reveal.observed (Reveal.onEntries entries s))
    ∧ i ∈ Reveal.once (Reveal.onEntries entries s)
    ∧ match Reveal.siblings it with
      | Some sibs =>
          Reveal.style it' ∈ Reveal.delays
          ∧ (i ∉ sibs → Reveal.style it' = lit "0ms")
          ∧ (∀ k, NoDup sibs → sibs !! k = Some i →
               Reveal.style it'
               = decimal (Z.min (Z.of_nat k * 70) 350) ++ lit "ms")
      | None => Reveal.style it' = Reveal.style it
      end.
Proof.
  intros Hin Hi. eexists. split.
  { rewrite (onEntries_lookup entries s i it Hi).
    rewrite bool_decide_eq_true_2 by exact Hin. reflexivity. }
  destruct (onEntries_marks entries s i Hin (ex_intro _ it Hi)) as [Ho Hc].
  split; [|split; [exact Ho | split; [exact Hc|]]].
  - unfold Reveal.visible, Reveal.show, Dom.add. simpl.
    apply elem_of_union. left. apply elem_of_singleton. reflexivity.
  - unfold Reveal.stagger. destruct (Reveal.siblings it) as [sibs|]; simpl;
      [|reflexivity].
    destruct (delay_text (Reveal.indexOf i sibs)) as (Hd & H0 & _).
    split; [exact Hd|]. split.
    + intros Hn. apply H0. unfold Reveal.indexOf.
      rewrite (indexOf_from_absent 0 i sibs Hn). lia.
    + intros k Hnd Hk. unfold Reveal.indexOf.
      rewrite (indexOf_from_lookup 0 i k sibs Hnd Hk). do 2 f_equal.
      unfold Reveal.delay. destruct (Z.ltb_spec 0 (0 + Z.of_nat k)); lia.
Qed.

Lemma reveal_staggers_witness :
  Reveal.style
    <$> Reveal.items (Reveal.onEntries [(0, false); (3, true)]%nat
                        (Reveal.initReveal false Reveal_sample)) !! 3%nat
  = Some (lit "210ms").
Proof.
  destruct (reveal_staggers [(0, false); (3, true)]%nat
              (Reveal.initReveal false Reveal_sample) 3
              (Reveal.mkItem (Dom.mkElement {["reveal"%string]} ∅) []
                 (Some [0; 1; 2; 3]%nat)))
    as (it' & -> & _ & _ & _ & _ & _ & Hk).
  - apply elem_of_cons. right. apply list_elem_of_singleton. reflexivity.
  - reflexivity.
  - simpl. f_equal. rewrite (Hk 3%nat); [reflexivity | | reflexivity].
    repeat (apply NoDup_cons; split;
             [rewrite ?elem_of_cons, elem_of_nil; lia|]).
    apply NoDup_nil. exact I.
Defined.

(** X24. Revealing is one way. From start-up on, through any callbacks of
    the observer and transition ends, each element is in one of two
    conditions: still observed and exactly as the markup gave it, or no
    longer observed and revealed, that is with [is-visible] added to its
    classes, its attributes untouched and its transition delay either the
    one the callback assigned or cleared by the end of a transition. An
    element that has left observation never comes back under it. *)
Theorem reveal_is_one_way (its : list Reveal.Item) (es : list Reveal.Event)
    (i : nat) (it : Reveal.Item) :
  its !! i = Some it →
  (∃ it',
     Reveal.items (Reveal.steps es (Reveal.initReveal false its)) !! i = Some it'
     ∧ ((i ∈ Reveal.observed (Reveal.steps es (Reveal.initReveal false its))
         ∧ it' = it)
        ∨ ((i ∉ Reveal.observed (Reveal.steps es (Reveal.initReveal false its)))
           ∧ Reveal.el it' = Dom.add "is-visible" (Reveal.el it)
           ∧ Reveal.siblings it' = Reveal.siblings it
           ∧ (Reveal.style it' = []
              ∨ Reveal.style it' = Reveal.style (Reveal.stagger i it)))))
  ∧ ∀ es',
      i ∉ Reveal.observed (Reveal.steps es (Reveal.initReveal false its)) →
      i ∉ Reveal.observed (Reveal.steps (es ++ es') (Reveal.initReveal false its)).
Proof.
  intros Hi. split.
  - destruct (steps_tracked its es _ (init_tracked its)) as (_ & Hit & _).
    destruct (Hit i it Hi) as (it' & Hi' & Hc). exists it'. split; [exact Hi'|].
    destruct (decide (i ∈ _)) as [Ho|Ho]; [left | right]; auto.
  - intros es' Ho. unfold Reveal.steps. rewrite foldl_app.
    apply steps_unobserved. exact Ho.
Qed.

Lemma reveal_is_one_way_witness :
  Reveal.visible
    <$> Reveal.items
          (Reveal.steps [Reveal.Entries [(1, true)]%nat; Reveal.TransitionEnd 1]
             (Reveal.initReveal false Reveal_sample)) !! 1%nat
  = Some (Reveal.visible
            (Reveal.show (Reveal.mkItem (Dom.mkElement {["reveal"%string]} ∅) []
                            (Some [0; 1; 2; 3]%nat)))).
Proof.
  destruct (reveal_is_one_way Reveal_sample
              [Reveal.Entries [(1, true)]%nat; Reveal.TransitionEnd 1] 1
              (Reveal.mkItem (Dom.mkElement {["reveal"%string]} ∅) []
                 (Some [0; 1; 2; 3]%nat)))
    as [(it' & -> & [[Ho _] | (_ & He & _)]) _].
  - reflexivity.
  - exfalso. revert Ho. apply (proj1 (bool_decide_eq_true _)).
    vm_compute. reflexivity.
  - simpl. unfold Reveal.visible. rewrite He. reflexivity.
Defined.

(** X25. With reduced motion every element is shown at start-up, with its
    transition delay as the markup gave it, and nothing is observed: no
    later event changes anything. *)
Theorem reduced_motion_shows_all (its : list Reveal.Item) (es : list Reveal.Event) :
  Reveal.steps es (Reveal.initReveal true its) = Reveal.initReveal true its
  ∧ Reveal.observed (Reveal.initReveal true its) = ∅
  ∧ ∀ i it, its !! i = Some it →
      ∃ it', Reveal.items (Reveal.steps es (Reveal.initReveal true its)) !! i
             = Some it'
             ∧ Reveal.visible it' ∧ Reveal.style it' = Reveal.style it
             ∧ Reveal.siblings it' = Reveal.siblings it.
Proof.
  assert (Reveal.steps es (Reveal.initReveal true its) = Reveal.initReveal true its)
    as Hsame.
  { induction es as [|e es IH]; [reflexivity|].
    change (Reveal.steps (e :: es) (Reveal.initReveal true its))
      with (Reveal.steps es (Reveal.step e (Reveal.initReveal true its))).
    replace (Reveal.step e (Reveal.initReveal true its))
      with (Reveal.initReveal true its); [exact IH|].
    destruct e as [entries | j]; simpl.
    - replace (filter _ entries) with (@nil (nat * bool)); [reflexivity|].
      symmetry. induction entries as [|x l IHl]; [reflexivity|].
      rewrite filter_cons_False; [exact IHl|]. apply not_elem_of_empty.
    - reflexivity. }
  split; [exact Hsame|]. split; [reflexivity|].
  intros i it Hi. rewrite Hsame. simpl. rewrite list_lookup_fmap, Hi. simpl.
  eexists. split; [reflexivity|]. split; [|split; reflexivity].
  unfold Reveal.visible. simpl. apply elem_of_union. left.
  apply elem_of_singleton. reflexivity.
Qed.

(** * Process steps, footer year and start-up *)

Section ProcessStepsFacts.
Import ProcessSteps.

Lemma add_idem (tok : string) (el : Dom.Element) :
  Dom.add tok (Dom.add tok el) = Dom.add tok el.
Proof.
  unfold Dom.add. simpl. f_equal. rewrite (assoc_L (∪)), (idemp_L (∪)). reflexivity.
Qed.

Lemma process_onEntries (entries : list (nat * bool)) (s : State) (i : nat)
    (el : Dom.Element) :
  steps s !! i = Some el →
  steps (onEntries entries s) !! i
  = Some (if bool_decide ((i, true) ∈ entries)
          then Dom.add "is-active-step" el else el)
  ∧ observing (onEntries entries s) = observing s.
Proof.
  revert s el. induction entries as [|[j b] entries IH]; intros s el Hi.
  - rewrite bool_decide_eq_false_2 by apply not_elem_of_nil. auto.
  - change (onEntries ((j, b) :: entries) s)
      with (onEntries entries
              (if b then mkState (alter (Dom.add "is-active-step") j (steps s))
                          (observing s)
               else s)).
    destruct b.
    + destruct (decide (i = j)) as [<-|Hne].
      * destruct (IH (mkState (alter (Dom.add "is-active-step") i (steps s))
                        (observing s)) (Dom.add "is-active-step" el))
          as [-> ->].
        { simpl. rewrite list_lookup_alter_eq, Hi. reflexivity. }
        rewrite (bool_decide_eq_true_2 ((i, true) ∈ (i, true) :: entries))
          by (apply elem_of_cons; left; reflexivity).
        split; [|reflexivity].
        destruct (bool_decide _); [rewrite add_idem|]; reflexivity.
      * destruct (IH (mkState (alter (Dom.add "is-active-step") j (steps s))
                        (observing s)) el) as [-> ->].
        { simpl. rewrite list_lookup_alter_ne by auto. exact Hi. }
        split; [|reflexivity].
        rewrite (bool_decide_ext ((i, true) ∈ (j, true) :: entries)
                   ((i, true) ∈ entries)); [reflexivity|].
        rewrite elem_of_cons. split; [|auto].
        intros [Heq|H]; [congruence | exact H].
    + destruct (IH s el Hi) as [-> ->]. split; [|reflexivity].
      rewrite (bool_decide_ext ((i, true) ∈ (j, false) :: entries)
                 ((i, true) ∈ entries)); [reflexivity|].
      rewrite elem_of_cons. split; [|auto].
      intros [Heq|H]; [congruence | exact H].
Qed.

Lemma process_run (ess : list (list (nat * bool))) (s : State) (i : nat)
    (el : Dom.Element) :
  steps s !! i = Some el →
  steps (run ess s) !! i
  = Some (if observing s
             && existsb (λ entries, bool_decide ((i, true) ∈ entries)) ess
          then Dom.add "is-active-step" el else el).
Proof.
  revert s el. induction ess as [|entries ess IH]; intros s el Hi.
  - simpl. rewrite andb_false_r. exact Hi.
  - change (run (entries :: ess) s) with (run ess (deliver entries s)).
    unfold deliver. destruct (observing s) eqn:Ho.
    + destruct (process_onEntries entries s i el Hi) as [Hl Hobs].
      rewrite (IH _ _ Hl), Hobs, Ho. simpl.
      destruct (bool_decide ((i, true) ∈ entries)); simpl; [|reflexivity].
      destruct (existsb _ ess); [rewrite add_idem|]; reflexivity.
    + rewrite (IH _ _ Hi), Ho. reflexivity.
Qed.


End ProcessStepsFacts.

(** X26. A process step is marked for good by the first report that it
    intersects: after any reports of the observer a step carries
    [is-active-step] if one of them named it as intersecting, reports that
    it has left the viewport take nothing away, and nothing else on the
    step changes. With reduced motion, or on a page without steps, no step
    is ever touched. *)
Theorem process_steps_stay_marked (s : ProcessSteps.State)
    (ess : list (list (nat * bool))) (i : nat) (el : Dom.Element) :
  ProcessSteps.steps s !! i = Some el →
  ∃ el',
    ProcessSteps.steps (ProcessSteps.run ess s) !! i = Some el'
    ∧ Dom.attrs el' = Dom.attrs el
    ∧ (el' = el ∨ el' = Dom.add "is-active-step" el)
    ∧ (ProcessSteps.observing s = true →
       (∃ entries, entries ∈ ess ∧ (i, true) ∈ entries) →
       "is-active-step"%string ∈ Dom.classes el')
    ∧ ((∀ entries, entries ∈ ess → (i, true) ∉ entries) → el' = el)
    ∧ (ProcessSteps.observing s = false → el' = el).
Proof.
  intros Hi. rewrite (process_run ess s i el Hi). eexists. split; [reflexivity|].
  destruct (existsb (λ entries, bool_decide ((i, true) ∈ entries)) ess) eqn:Hex.
  - apply existsb_exists in Hex as (entries & Hin & Hb).
    apply bool_decide_eq_true in Hb. apply list_elem_of_In in Hin.
    destruct (ProcessSteps.observing s); simpl.
    + split; [reflexivity|]. split; [right; reflexivity|]. split; [|split].
      * intros _ _. apply elem_of_union. left. apply elem_of_singleton. reflexivity.
      * intros Hno. exfalso. exact (Hno entries Hin Hb).
      * discriminate.
    + split; [reflexivity|]. split; [left; reflexivity|]. split; [|split]; auto.
      discriminate.
  - rewrite andb_false_r. split; [reflexivity|]. split; [left; reflexivity|].
    split; [|split]; auto.
    intros _ (entries & Hin & Hb). exfalso.
    assert (existsb (λ entries, bool_decide ((i, true) ∈ entries)) ess = true) as Ht.
    { apply existsb_exists. exists entries. split.
      - apply list_elem_of_In. exact Hin.
      - apply bool_decide_eq_true. exact Hb. }
    congruence.
Qed.

Lemma process_steps_stay_marked_witness :
  Dom.contains "is-active-step"
    <$> ProcessSteps.steps
          (ProcessSteps.run [[(0, true)]; [(0, false)]]%nat
             (ProcessSteps.initProcessSteps false
                [Dom.mkElement {["process__step"%string]} ∅])) !! 0%nat
  = Some true.
Proof.
  destruct (process_steps_stay_marked
              (ProcessSteps.initProcessSteps false
                 [Dom.mkElement {["process__step"%string]} ∅])
              [[(0, true)]; [(0, false)]]%nat 0
              (Dom.mkElement {["process__step"%string]} ∅))
    as (el' & -> & _ & _ & Hm & _).
  - reflexivity.
  - simpl. f_equal. unfold Dom.contains. apply bool_decide_eq_true.
    apply Hm; [reflexivity|]. exists [(0, true)]%nat. split.
    + apply elem_of_cons. left. reflexivity.
    + apply list_elem_of_singleton. reflexivity.
Defined.

Section FooterFacts.
Import Footer.

Lemma position_Some (p : Element → bool) (b k : nat) (es : list Element) :
  position p b es = Some k →
  ∃ j e, k = (b + j)%nat ∧ es !! j = Some e ∧ p e = true
         ∧ ∀ j' e', (j' < j)%nat → es !! j' = Some e' → p e' = false.
Proof.
  revert b. induction es as [|e es IH]; intros b H; [discriminate|].
  simpl in H. destruct (p e) eqn:Hp.
  - injection H as <-. exists 0%nat, e. split; [lia|]. split; [reflexivity|].
    split; [exact Hp|]. intros j' e' Hlt. lia.
  - destruct (IH (S b) H) as (j & e0 & -> & Hj & Hp0 & Hbefore).
    exists (S j), e0. split; [lia|]. split; [exact Hj|]. split; [exact Hp0|].
    intros [|j'] e' Hlt Hj'.
    + injection Hj' as <-. exact Hp.
    + apply (Hbefore j' e'); [lia | exact Hj'].
Qed.

Lemma position_None (p : Element → bool) (b : nat) (es : list Element) :
  position p b es = None → ∀ j e, es !! j = Some e → p e = false.
Proof.
  revert b. induction es as [|e es IH]; intros b H j e0 Hj.
  - rewrite lookup_nil in Hj. discriminate.
  - simpl in H. destruct (p e) eqn:Hp; [discriminate|].
    destruct j as [|j]; [injection Hj as <-; exact Hp|].
    exact (IH (S b) H j e0 Hj).
Qed.

End FooterFacts.

(** X27. [initFooterYear] writes the local year, as decimal text, into
    every element of class [footer-year] and into the first element whose
    id is [footerYear]; an element that is neither, as a second element
    with that id, keeps its text. What an element held before plays no
    part. *)
Theorem footer_year_written (now tza : Z) (es : list Footer.Element) (k : nat)
    (e : Footer.Element) :
  es !! k = Some e →
  ∃ e',
    Footer.initFooterYear now tza es !! k = Some e'
    ∧ Footer.byClass e' = Footer.byClass e
    ∧ Footer.byId e' = Footer.byId e
    ∧ (Footer.byClass e = true →
       Footer.textContent e' = decimal (Footer.getFullYear now tza))
    ∧ (Footer.byId e = true →
       (∀ j e0, (j < k)%nat → es !! j = Some e0 → Footer.byId e0 = false) →
       Footer.textContent e' = decimal (Footer.getFullYear now tza))
    ∧ (Footer.byClass e = false →
       Footer.byId e = false
       ∨ (∃ j e0, (j < k)%nat ∧ es !! j = Some e0 ∧ Footer.byId e0 = true) →
       Footer.textContent e' = Footer.textContent e).
Proof.
  intros Hk. unfold Footer.initFooterYear.
  set (f := λ e, if Footer.byClass e then Footer.write now tza e else e).
  assert (∀ x, Footer.byId (f x) = Footer.byId x) as Hid
    by (intros x; unfold f; destruct (Footer.byClass x); reflexivity).
  assert (∀ x, Footer.byClass (f x) = Footer.byClass x) as Hcl
    by (intros x; unfold f; destruct (Footer.byClass x) eqn:E; simpl; auto).
  assert ((f <$> es) !! k = Some (f e)) as Hk'
    by (rewrite list_lookup_fmap, Hk; reflexivity).
  assert (Footer.byClass e = true →
          Footer.textContent (f e) = decimal (Footer.getFullYear now tza)) as Hw
    by (intros Hc; unfold f; rewrite Hc; reflexivity).
  assert (Footer.byClass e = false → f e = e) as Hsame
    by (intros Hc; unfold f; rewrite Hc; reflexivity).
  destruct (Footer.position Footer.byId 0 (f <$> es)) as [k0|] eqn:Hpos.
  - destruct (position_Some _ _ _ _ Hpos) as (j & e0 & -> & Hj & Hp0 & Hbefore).
    simpl. destruct (decide (k = j)) as [->|Hne].
    + rewrite list_lookup_alter_eq, Hk'. simpl. eexists. split; [reflexivity|].
      simpl. rewrite Hcl, Hid.
      split; [reflexivity|]. split; [reflexivity|]. split; [auto|]. split; [auto|].
      intros Hc [Hi | (j' & e1 & Hlt & Hj' & Hi)].
      * rewrite Hk' in Hj. injection Hj as <-. rewrite Hid in Hp0. congruence.
      * assert (Footer.byId (f e1) = false) as Hf.
        { apply (Hbefore j' (f e1) Hlt). rewrite list_lookup_fmap, Hj'. reflexivity. }
        rewrite Hid in Hf. congruence.
    + rewrite list_lookup_alter_ne by auto. rewrite Hk'. eexists.
      split; [reflexivity|]. rewrite Hcl, Hid.
      split; [reflexivity|]. split; [reflexivity|]. split; [exact Hw|]. split.
      * intros Hi Hfirst. exfalso.
        destruct (lt_eq_lt_dec k j) as [[Hlt | ->] | Hgt]; [| congruence |].
        -- assert (Footer.byId (f e) = false) as Hf
             by (apply (Hbefore k (f e) Hlt); exact Hk').
           rewrite Hid in Hf. congruence.
        -- rewrite list_lookup_fmap in Hj.
           destruct (es !! j) as [e1|] eqn:Hj1; [|discriminate].
           injection Hj as <-. rewrite Hid in Hp0.
           rewrite (Hfirst j e1 Hgt Hj1) in Hp0. discriminate.
      * intros Hc _. rewrite (Hsame Hc). reflexivity.
  - rewrite Hk'. eexists. split; [reflexivity|]. rewrite Hcl, Hid.
    split; [reflexivity|]. split; [reflexivity|]. split; [exact Hw|]. split.
    + intros Hi _. exfalso.
      assert (Footer.byId (f e) = false) as Hf
        by (apply (position_None _ _ _ Hpos k); exact Hk').
      rewrite Hid in Hf. congruence.
    + intros Hc _. rewrite (Hsame Hc). reflexivity.
Qed.

Lemma footer_year_written_witness :
  Footer.textContent
    <$> Footer.initFooterYear 1700000000000 0
          [Footer.mkElement false true (lit "2020");
           Footer.mkElement false true (lit "2020")] !! 1%nat
  = Some (lit "2020").
Proof.
  destruct (footer_year_written 1700000000000 0
              [Footer.mkElement false true (lit "2020");
               Footer.mkElement false true (lit "2020")] 1
              (Footer.mkElement false true (lit "2020")))
    as (e' & -> & _ & _ & _ & _ & Hkeep).
  - reflexivity.
  - simpl. f_equal. apply Hkeep; [reflexivity|]. right.
    exists 0%nat, (Footer.mkElement false true (lit "2020")).
    split; [lia|]. split; reflexivity.
Defined.


Example startup_sample :
  Startup.completed (Startup.main Startup_sample) = false
  ∧ Chart.height <$> Chart.bars (Startup.chart (Startup.main Startup_sample))
    = [[]; []; []]
  ∧ Footer.textContent <$> Startup.footer (Startup.main Startup_sample)
    = [lit "2020"].
Proof. repeat split. Qed.

